(** * GitHub Actions cost analyzer (lib/commands/analyze-ci.js)

    A shallow embedding of the estimation core of the analyzer:
    [estimateWorkflowDuration], [calculateMatrixSize], [normalizeTriggers],
    [countCronFieldSlots], [estimateScheduleRunsPerMonth],
    [estimateWorkflowRunsPerMonth], [calculateMonthlyCosts] and
    [analyzeOptimizations], together with the part of the JavaScript runtime
    these functions rely on; and of [getCommitFrequency],
    [discoverWorkflows] and [handleAnalyzeCi], whose reads of the file
    system and of the git log are arguments of the model.  The maturity
    classification of lib/project-maturity.js follows the analyzer.

    Conventions of the model.
    - A JavaScript number is an exact rational ([Q]).  [NaN] and the
      infinities are not represented; results are compared with [==]
      ([Qeq]).  The integer arithmetic of the analyzer is exact in binary64
      as well; products with [commitsPerDay] and with the factors 0.8, 0.5
      and 0.008 are taken over the rationals.  The savings of the path-filter advice,
      [duration * (runsPerMonth * 0.2)], are rounded as binary64 rounds
      them ([Binary64.times]), the literal 0.2 included.
    - A string is a [string] of 8-bit characters; case mapping and white
      space are those of ASCII.
    - A parsed YAML document is a [value] tree.  An object is the list of
      its own properties in enumeration order.
    - A [TypeError] raised by the runtime is the result [None]. *)

From Stdlib Require Import QArith Qround Qminmax Qpower ZArith.
From Stdlib Require Import String Ascii List Bool Lia Lqa.
From Stdlib Require Import Permutation Sorted DecimalString Floats.
Import ListNotations.
Set Warnings "-register-all,-inexact-float".
Local Open Scope string_scope.
Local Open Scope Q_scope.

(** ** Strings *)

Module Str.

Definition isEmpty (s : string) : bool :=
  match s with EmptyString => true | String _ _ => false end.

(** [String.prototype.includes]. *)
Fixpoint includes (needle s : string) : bool :=
  if prefix needle s then true
  else match s with
       | EmptyString => false
       | String _ rest => includes needle rest
       end.

Definition lowerChar (c : ascii) : ascii :=
  let n := nat_of_ascii c in
  if ((65 <=? n) && (n <=? 90))%nat then ascii_of_nat (n + 32) else c.

(** [String.prototype.toLowerCase]. *)
Fixpoint toLowerCase (s : string) : string :=
  match s with
  | EmptyString => EmptyString
  | String c rest => String (lowerChar c) (toLowerCase rest)
  end.

(** White space: tab, line feed, vertical tab, form feed, carriage
    return and space. *)
Definition isSpace (c : ascii) : bool :=
  let n := nat_of_ascii c in
  (((9 <=? n) && (n <=? 13)) || (n =? 32))%nat.

Fixpoint trimStart (s : string) : string :=
  match s with
  | EmptyString => EmptyString
  | String c rest => if isSpace c then trimStart rest else s
  end.

(** Drops trailing white space; [trimEnd s] is empty when [s] is blank. *)
Fixpoint trimEnd (s : string) : string :=
  match s with
  | EmptyString => EmptyString
  | String c rest =>
      let rest' := trimEnd rest in
      if isSpace c && isEmpty rest' then EmptyString else String c rest'
  end.

(** [String.prototype.trim]. *)
Definition trim (s : string) : string := trimEnd (trimStart s).

(** [s.split(c)] for a one-character separator [c]. *)
Fixpoint splitAcc (sep : ascii) (cur : string) (s : string) : list string :=
  match s with
  | EmptyString => [cur]
  | String c rest =>
      if Ascii.eqb c sep then cur :: splitAcc sep EmptyString rest
      else splitAcc sep (cur ++ String c EmptyString) rest
  end.

Definition split (sep : ascii) (s : string) : list string :=
  splitAcc sep EmptyString s.

(** [s.split(/\s+/)]: every maximal run of white space is one separator. *)
Fixpoint splitSpacesAcc (inRun : bool) (cur : string) (s : string)
  : list string :=
  match s with
  | EmptyString => [cur]
  | String c rest =>
      if isSpace c then
        if inRun then splitSpacesAcc true cur rest
        else cur :: splitSpacesAcc true EmptyString rest
      else splitSpacesAcc false (cur ++ String c EmptyString) rest
  end.

Definition splitSpaces (s : string) : list string :=
  splitSpacesAcc false EmptyString s.

Definition hasChar (c : ascii) (s : string) : bool :=
  includes (String c EmptyString) s.

End Str.

(** ** Numbers *)

Module Num.

(** [Math.ceil], [Math.max] and [Math.min] on finite numbers. *)
Definition ceil (x : Q) : Q := inject_Z (Qceiling x).
Definition max (x y : Q) : Q := Qmax x y.
Definition min (x y : Q) : Q := Qmin x y.

Definition isZero (x : Q) : bool := Qeq_bool x 0.
Definition le (x y : Q) : bool := Qle_bool x y.
Definition lt (x y : Q) : bool := negb (Qle_bool y x).

Definition ofNat (n : nat) : Q := inject_Z (Z.of_nat n).

(** *** [Number(s)] on strings

    [finite s] is the value of [Number(s)] when [Number.isFinite] accepts
    it: the string, trimmed, is empty (value 0), a binary, octal or
    hexadecimal integer literal, or a signed decimal literal with an
    optional fraction and exponent.  Every other string converts to [NaN]
    or to an infinity and gives [None]. *)

Definition digitOf (base : nat) (c : ascii) : option nat :=
  let n := nat_of_ascii c in
  let d :=
    if ((48 <=? n) && (n <=? 57))%nat then Some (n - 48)%nat
    else if ((97 <=? n) && (n <=? 102))%nat then Some (n - 87)%nat
    else if ((65 <=? n) && (n <=? 70))%nat then Some (n - 55)%nat
    else None in
  match d with
  | Some k => if (k <? base)%nat then Some k else None
  | None => None
  end.

(** Reads the longest prefix of digits: its value, the number of digits
    read and the rest of the string. *)
Fixpoint digits (base : nat) (acc : Z) (count : nat) (s : string)
  : Z * nat * string :=
  match s with
  | EmptyString => (acc, count, s)
  | String c rest =>
      match digitOf base c with
      | Some d => digits base (acc * Z.of_nat base + Z.of_nat d) (S count) rest
      | None => (acc, count, s)
      end
  end.

Definition radixLiteral (base : nat) (s : string) : option Q :=
  match digits base 0%Z 0%nat s with
  | (v, S _, EmptyString) => Some (inject_Z v)
  | _ => None
  end.

Definition pow10 (e : Z) : Q :=
  if (0 <=? e)%Z then inject_Z (10 ^ e) else / inject_Z (10 ^ (- e)).

(** The exponent part: empty, or [e]/[E], an optional sign and at least
    one digit, up to the end of the string. *)
Definition exponent (s : string) : option Z :=
  match s with
  | EmptyString => Some 0%Z
  | String c rest =>
      if Ascii.eqb c "e" || Ascii.eqb c "E" then
        let '(neg, rest1) :=
          match rest with
          | String "-" r => (true, r)
          | String "+" r => (false, r)
          | _ => (false, rest)
          end in
        match digits 10 0%Z 0%nat rest1 with
        | (v, S _, EmptyString) => Some (if neg : bool then (- v)%Z else v)
        | _ => None
        end
      else None
  end.

(** An unsigned decimal literal: [ddd], [ddd.], [ddd.ddd] or [.ddd],
    followed by an optional exponent. *)
Definition decimalLiteral (s : string) : option Q :=
  let '(ip, ni, rest) := digits 10 0%Z 0%nat s in
  let '(m, nf, rest1) :=
    match rest with
    | String "." r => digits 10 ip 0%nat r
    | _ => (ip, 0%nat, rest)
    end in
  match ni, nf with
  | O, O => None
  | _, _ =>
      match exponent rest1 with
      | Some e => Some (inject_Z m * pow10 (e - Z.of_nat nf))
      | None => None
      end
  end.

Definition finite (raw : string) : option Q :=
  let s := Str.trim raw in
  match s with
  | EmptyString => Some 0
  | String "0" (String c rest) =>
      if Ascii.eqb c "x" || Ascii.eqb c "X" then radixLiteral 16 rest
      else if Ascii.eqb c "o" || Ascii.eqb c "O" then radixLiteral 8 rest
      else if Ascii.eqb c "b" || Ascii.eqb c "B" then radixLiteral 2 rest
      else decimalLiteral s
  | String "-" rest => option_map Qopp (decimalLiteral rest)
  | String "+" rest => decimalLiteral rest
  | _ => decimalLiteral s
  end.

End Num.

(** *** Binary64 rounding

    The product of two doubles is the exact product rounded to the nearest
    number of 53 significant bits, the one with an even last bit when two
    are equally near.  The exponent is not bounded here: overflow and
    gradual underflow, which set in beyond 2^1024 and below 2^-1022, are
    not represented. *)

Module Binary64.

Definition pow2 (k : Z) : Q := 2 ^ k.

(** [floor (log2 x)] for a positive [x]. *)
Definition exponent (x : Q) : Z :=
  let k := (Z.log2 (Qnum x) - Z.log2 (Z.pos (Qden x)))%Z in
  if Qle_bool (pow2 k) x then k else (k - 1)%Z.

(** The integer nearest to [x], the even one when two are equally near. *)
Definition nearestEven (x : Q) : Z :=
  let below := Qfloor x in
  match Qcompare (x - inject_Z below) (1 # 2) with
  | Lt => below
  | Gt => (below + 1)%Z
  | Eq => if Z.even below then below else (below + 1)%Z
  end.

(** A positive number rounded to 53 significant bits. *)
Definition roundPositive (x : Q) : Q :=
  let e := (exponent x - 52)%Z in
  inject_Z (nearestEven (x / pow2 e)) * pow2 e.

Definition round (x : Q) : Q :=
  match Qcompare x 0 with
  | Eq => 0
  | Gt => roundPositive x
  | Lt => - roundPositive (- x)
  end.

(** [x * y] on doubles, and the double a decimal literal denotes. *)
Definition times (x y : Q) : Q := round (x * y).
Definition literal (x : Q) : Q := round x.

(** Half the gap between 1 and the next double. *)
Definition unitRoundoff : Q := 1 # 9007199254740992.

(** The number a finite float of the kernel stands for. *)
Definition ofFloat (f : float) : option Q :=
  match Prim2SF f with
  | S754_zero _ => Some 0
  | S754_finite negative m e =>
      let magnitude := inject_Z (Z.pos m) * pow2 e in
      Some (if negative then - magnitude else magnitude)
  | _ => None
  end.

End Binary64.

(** ** Values *)

(** A parsed document.  [VFun] is a built-in method read off a prototype;
    it never occurs inside a parsed document. *)
Inductive value : Type :=
| VUndefined
| VNull
| VBool (b : bool)
| VNum (n : Q)
| VStr (s : string)
| VArr (items : list value)
| VObj (props : list (string * value))
| VFun.

(** Failure is a thrown [TypeError]. *)
Notation "x <- e ;; k" :=
  (match e with Some x => k | None => None end)
    (at level 61, e at next level, right associativity).

Module Val.

(** [ToBoolean]. *)
Definition truthy (v : value) : bool :=
  match v with
  | VUndefined | VNull => false
  | VBool b => b
  | VNum n => negb (Num.isZero n)
  | VStr s => negb (Str.isEmpty s)
  | VArr _ | VObj _ | VFun => true
  end.

(** Own property of a plain object, [undefined] when absent. *)
Fixpoint lookup (props : list (string * value)) (key : string) : value :=
  match props with
  | [] => VUndefined
  | (k, v) :: rest => if String.eqb k key then v else lookup rest key
  end.

(** [Object.prototype.hasOwnProperty.call(obj, key)] on a plain object. *)
Fixpoint hasOwn (props : list (string * value)) (key : string) : bool :=
  match props with
  | [] => false
  | (k, _) :: rest => String.eqb k key || hasOwn rest key
  end.

(** [obj[key] = v] on a plain object: an existing property keeps its
    place, a new one is added last. *)
Fixpoint assign (props : list (string * value)) (key : string) (v : value)
  : list (string * value) :=
  match props with
  | [] => [(key, v)]
  | (k, old) :: rest =>
      if String.eqb k key then (k, v) :: rest
      else (k, old) :: assign rest key v
  end.

(** [v.key] for the property names this program reads ([on], [jobs],
    [steps], [strategy], [matrix], [name], [uses], [run], [push],
    [pull_request], [tags], [branches], [branches-ignore], [paths],
    [paths-ignore], [cron]).  Reading a property of [undefined] or [null]
    throws.  An array inherits [push] from [Array.prototype]; numbers,
    booleans and strings have none of these properties, and a function,
    which is only ever asked for [paths] and [paths-ignore], has neither. *)
Definition prop (v : value) (key : string) : option value :=
  match v with
  | VUndefined | VNull => None
  | VObj props => Some (lookup props key)
  | VArr _ => Some (if String.eqb key "push" then VFun else VUndefined)
  | VBool _ | VNum _ | VStr _ | VFun => Some VUndefined
  end.

(** [typeof v === 'object']. *)
Definition isObjectType (v : value) : bool :=
  match v with VNull | VArr _ | VObj _ => true | _ => false end.

Definition chars (s : string) : list string :=
  map (fun c => String c EmptyString) (list_ascii_of_string s).

Definition indexKey (i : nat) : string :=
  NilEmpty.string_of_uint (Nat.to_uint i).

(** [Object.entries(v)] and [Object.values(v)]. *)
Definition entries (v : value) : list (string * value) :=
  match v with
  | VObj props => props
  | VArr items => combine (map indexKey (seq 0 (length items))) items
  | VStr s =>
      let cs := chars s in
      combine (map indexKey (seq 0 (length cs))) (map VStr cs)
  | _ => []
  end.

Definition values (v : value) : list value := map snd (entries v).

(** [recv.includes(needle)] for a string [needle]: substring search on a
    string, membership on an array; any other receiver has no such
    method. *)
Definition includes (recv : value) (needle : string) : option bool :=
  match recv with
  | VStr s => Some (Str.includes needle s)
  | VArr items =>
      Some (existsb
              (fun v => match v with
                        | VStr s => String.eqb s needle
                        | _ => false
                        end) items)
  | _ => None
  end.

(** [Array.prototype.some] with a callback that may throw. *)
Fixpoint some (f : value -> option bool) (items : list value) : option bool :=
  match items with
  | [] => Some false
  | x :: rest =>
      b <- f x ;;
      if b then Some true else some f rest
  end.

End Val.

(** ** Duration estimate *)

Definition DAYS_PER_MONTH : Q := 30.
Definition DEFAULT_PULL_REQUEST_FACTOR : Q := 8 # 10.
Definition DEFAULT_MANUAL_RUNS_PER_MONTH : Q := 1.
Definition DEFAULT_RELEASE_RUNS_PER_MONTH : Q := 1.

(** Number of matrix combinations: the product of the lengths of the
    array-valued axes. *)
Definition calculateMatrixSize (matrix : value) : Q :=
  fold_left
    (fun size values =>
       match values with
       | VArr items => size * Num.ofNat (length items)
       | _ => size
       end)
    (Val.values matrix) 1.

(** Minutes added by one step (the body of the loop over [job.steps]). *)
Definition stepMinutes (step : value) : option Q :=
  name <- Val.prop step "name" ;;
  if Val.truthy name then
    match name with
    | VStr s =>
        let stepName := Str.toLowerCase s in
        if Str.includes "test" stepName || Str.includes "e2e" stepName
        then Some 10
        else if Str.includes "build" stepName || Str.includes "compile" stepName
        then Some 5
        else if Str.includes "deploy" stepName || Str.includes "publish" stepName
        then Some 3
        else if Str.includes "install" stepName || Str.includes "setup" stepName
        then Some 2
        else Some 1
    | _ => None
    end
  else Some 1.

Fixpoint addStepMinutes (jobMinutes : Q) (steps : list value) : option Q :=
  match steps with
  | [] => Some jobMinutes
  | step :: rest =>
      m <- stepMinutes step ;;
      addStepMinutes (jobMinutes + m) rest
  end.

(** Minutes of one job (the body of the loop over the jobs). *)
Definition jobMinutes (job : value) : option Q :=
  steps <- Val.prop job "steps" ;;
  minutes <-
    match steps with
    | VArr items =>
        m <- addStepMinutes 5 items ;;
        Some (Num.min m 60)
    | _ => Some 5
    end ;;
  strategy <- Val.prop job "strategy" ;;
  if Val.truthy strategy then
    matrix <- Val.prop strategy "matrix" ;;
    if Val.truthy matrix
    then Some (minutes * calculateMatrixSize matrix)
    else Some minutes
  else Some minutes.

Fixpoint addJobMinutes (totalMinutes : Q) (jobs : list value) : option Q :=
  match jobs with
  | [] => Some totalMinutes
  | job :: rest =>
      m <- jobMinutes job ;;
      addJobMinutes (totalMinutes + m) rest
  end.

Definition estimateWorkflowDuration (workflow : value) : option Q :=
  jobs <- Val.prop workflow "jobs" ;;
  if negb (Val.truthy jobs) then Some 0
  else
    totalMinutes <- addJobMinutes 0 (Val.values jobs) ;;
    Some (Num.ceil totalMinutes).

(** ** Triggers *)

(** The normalized trigger object, as its list of properties. *)
Definition normalizeTriggers (onConfig : value) : list (string * value) :=
  if negb (Val.truthy onConfig) then []
  else
    match onConfig with
    | VStr s => [(s, VBool true)]
    | VArr items =>
        fold_left
          (fun acc eventName =>
             match eventName with
             | VStr s => Val.assign acc s (VBool true)
             | _ => acc
             end)
          items []
    | VObj props => props
    | _ => []
    end.

(** ** Cron frequency *)

(** [Number(x)] when finite; [Number(undefined)] is [NaN]. *)
Definition numberOf (x : option string) : option Q :=
  match x with
  | Some s => Num.finite s
  | None => None
  end.

(** The branch [if (field.includes('-')) { ... } return 1]. *)
Definition cronRangeSlots (field : string) : Q :=
  if Str.hasChar "-" field then
    let parts := Str.split "-" field in
    match numberOf (nth_error parts 0), numberOf (nth_error parts 1) with
    | Some start, Some end_ =>
        if Num.lt end_ start then 1 else Num.max 1 (end_ - start + 1)
    | _, _ => 1
    end
  else 1.

(** [countCronFieldSlots] on a field that is neither empty, [*] nor a
    comma list. *)
Definition cronSingleSlots (field : string) (maxSlots : Q) : Q :=
  if Str.hasChar "/" field then
    let parts := Str.split "/" field in
    let base := hd "" parts in
    match numberOf (nth_error parts 1) with
    | None => 1
    | Some step =>
        if Num.le step 0 then 1
        else if Str.isEmpty base || String.eqb base "*"
        then Num.max 1 (Num.ceil (maxSlots / step))
        else if Str.hasChar "-" base then
          let range := Str.split "-" base in
          match numberOf (nth_error range 0), numberOf (nth_error range 1) with
          | Some start, Some end_ =>
              if Num.lt end_ start then 1
              else Num.max 1 (Num.ceil ((end_ - start + 1) / step))
          | _, _ => 1
          end
        else cronRangeSlots field
    end
  else cronRangeSlots field.

(** The recursion of [countCronFieldSlots], bounded by [fuel] nested calls. *)
Fixpoint countCronFieldSlotsFuel (fuel : nat) (field : string) (maxSlots : Q)
  : Q :=
  match fuel with
  | O => 1
  | S fuel' =>
      if Str.isEmpty field || String.eqb field "*" then 1
      else if Str.hasChar "," field then
        fold_left
          (fun sum part => sum + countCronFieldSlotsFuel fuel' part maxSlots)
          (map Str.trim (Str.split "," field)) 0
      else cronSingleSlots field maxSlots
  end.

(** A part of a comma list holds no comma, so the calls nest at most twice;
    [countCronFieldSlots_unfold] below is the source's recursive equation. *)
Definition countCronFieldSlots (field : string) (maxSlots : Q) : Q :=
  countCronFieldSlotsFuel (S (String.length field)) field maxSlots.

(** The baseline cadence chosen from the last three cron fields. *)
Definition baseRunsOf (dayOfMonthField monthField dayOfWeekField : string)
  : Q :=
  if negb (String.eqb dayOfWeekField "*") then 4
  else if negb (String.eqb dayOfMonthField "*") then 1
  else if negb (String.eqb monthField "*") then 1
  else DAYS_PER_MONTH.

(** The cron text of a schedule entry: [entry.cron], trimmed, when it is a
    string, and the empty string otherwise. *)
Definition entryCron (entry : value) : option string :=
  if Val.truthy entry then
    c <- Val.prop entry "cron" ;;
    Some (match c with VStr s => Str.trim s | _ => "" end)
  else Some "".

(** The amount one schedule entry adds to the total (the reducer). *)
Definition scheduleEntryRuns (entry : value) : option Q :=
  cron <- entryCron entry ;;
  match Str.splitSpaces cron with
  | [minuteField; hourField; dayOfMonthField; monthField; dayOfWeekField] =>
      let minuteSlots := countCronFieldSlots minuteField 60 in
      let hourSlots := countCronFieldSlots hourField 24 in
      let timeSlots := Num.max 1 (minuteSlots * hourSlots) in
      let baseRuns := baseRunsOf dayOfMonthField monthField dayOfWeekField in
      Some (Num.max 1 (Num.ceil (baseRuns * timeSlots)))
  | _ => Some 4
  end.

Fixpoint addScheduleRuns (total : Q) (schedules : list value) : option Q :=
  match schedules with
  | [] => Some total
  | entry :: rest =>
      r <- scheduleEntryRuns entry ;;
      addScheduleRuns (total + r) rest
  end.

Definition estimateScheduleRunsPerMonth (scheduleConfig : value) : option Q :=
  let schedules :=
    match scheduleConfig with
    | VArr items => items
    | _ => if Val.truthy scheduleConfig then [scheduleConfig] else []
    end in
  match schedules with
  | [] => Some 0
  | _ => addScheduleRuns 0 schedules
  end.

(** ** Run frequency *)

(** The tuning object; an absent property is [None]. *)
Record Options : Type := mkOptions {
  optPullRequestFactor : option Q;
  optManualRunsPerMonth : option Q;
  optReleaseRunsPerMonth : option Q
}.

Definition noOptions : Options := mkOptions None None None.

(** [x || fallback] on an optional number. *)
Definition orDefault (x : option Q) (fallback : Q) : Q :=
  match x with
  | Some q => if Num.isZero q then fallback else q
  | None => fallback
  end.

(** The trigger kinds a workflow reacts to. *)
Record TriggerFlags : Type := mkFlags {
  hasCommitPush : bool;
  hasPullRequest : bool;
  hasSchedule : bool;
  hasTagPush : bool;
  hasRelease : bool;
  hasCreate : bool;
  hasWorkflowDispatch : bool
}.

(** A push restricted to tags: a non-empty [tags] array and neither
    [branches] nor [branches-ignore]. *)
Definition pushIsTagOnly (triggers : list (string * value)) : option bool :=
  let hasPush := Val.hasOwn triggers "push" in
  let pushConfig :=
    if hasPush && Val.isObjectType (Val.lookup triggers "push")
    then Val.lookup triggers "push" else VNull in
  if negb (Val.truthy pushConfig) then Some false
  else
    tags <- Val.prop pushConfig "tags" ;;
    match tags with
    | VArr (_ :: _) =>
        branches <- Val.prop pushConfig "branches" ;;
        if Val.truthy branches then Some false
        else
          branchesIgnore <- Val.prop pushConfig "branches-ignore" ;;
          Some (negb (Val.truthy branchesIgnore))
    | _ => Some false
    end.

Definition triggerFlags (triggers : list (string * value))
  : option TriggerFlags :=
  let hasPush := Val.hasOwn triggers "push" in
  tagOnly <- pushIsTagOnly triggers ;;
  Some {| hasCommitPush := hasPush && negb tagOnly;
          hasPullRequest := Val.hasOwn triggers "pull_request";
          hasSchedule := Val.hasOwn triggers "schedule";
          hasTagPush := hasPush && tagOnly;
          hasRelease := Val.hasOwn triggers "release";
          hasCreate := Val.hasOwn triggers "create";
          hasWorkflowDispatch := Val.hasOwn triggers "workflow_dispatch" |}.

(** The running total [runsPerMonth] before the fallback and the final
    rounding. *)
Definition sumRuns (f : TriggerFlags) (triggers : list (string * value))
  (commitsPerMonth pullRequestFactor manualRunsPerMonth releaseRunsPerMonth : Q)
  : option Q :=
  let runsPerMonth := 0 in
  let runsPerMonth :=
    if hasCommitPush f then runsPerMonth + commitsPerMonth
    else runsPerMonth in
  let runsPerMonth :=
    if hasPullRequest f
    then runsPerMonth + Num.ceil (commitsPerMonth * pullRequestFactor)
    else runsPerMonth in
  runsPerMonth <-
    (if hasSchedule f then
       scheduled <- estimateScheduleRunsPerMonth (Val.lookup triggers "schedule") ;;
       Some (runsPerMonth + scheduled)
     else Some runsPerMonth) ;;
  let runsPerMonth :=
    if hasTagPush f || hasRelease f || hasCreate f
    then runsPerMonth + releaseRunsPerMonth
    else runsPerMonth in
  let hasOnlyManualTrigger :=
    hasWorkflowDispatch f && negb (hasCommitPush f)
    && negb (hasPullRequest f) && negb (hasSchedule f)
    && negb (hasTagPush f) && negb (hasRelease f) && negb (hasCreate f) in
  let runsPerMonth :=
    if hasOnlyManualTrigger then runsPerMonth + manualRunsPerMonth
    else runsPerMonth in
  Some runsPerMonth.

(** [normalizeTriggers(workflow && workflow.on)]. *)
Definition workflowTriggers (workflow : value)
  : option (list (string * value)) :=
  onConfig <-
    (if Val.truthy workflow then Val.prop workflow "on" else Some workflow) ;;
  Some (normalizeTriggers onConfig).

(** The fallback for a total of 0 and the final rounding. *)
Definition finishRuns (commitsPerMonth runsPerMonth : Q) : Q :=
  let runsPerMonth :=
    if Num.isZero runsPerMonth then commitsPerMonth else runsPerMonth in
  Num.max 1 (Num.ceil runsPerMonth).

(** [estimateWorkflowRunsPerMonth] from the normalized triggers on. *)
Definition runsFromTriggers
  (triggers : list (string * value)) (commitsPerDay : Q) (options : Options)
  : option Q :=
  let commitsPerMonth := Num.ceil (commitsPerDay * DAYS_PER_MONTH) in
  let pullRequestFactor :=
    orDefault (optPullRequestFactor options) DEFAULT_PULL_REQUEST_FACTOR in
  let manualRunsPerMonth :=
    orDefault (optManualRunsPerMonth options) DEFAULT_MANUAL_RUNS_PER_MONTH in
  let releaseRunsPerMonth :=
    orDefault (optReleaseRunsPerMonth options) DEFAULT_RELEASE_RUNS_PER_MONTH in
  f <- triggerFlags triggers ;;
  runsPerMonth <-
    sumRuns f triggers commitsPerMonth pullRequestFactor manualRunsPerMonth
      releaseRunsPerMonth ;;
  Some (finishRuns commitsPerMonth runsPerMonth).

Definition estimateWorkflowRunsPerMonth
  (workflow : value) (commitsPerDay : Q) (options : Options) : option Q :=
  triggers <- workflowTriggers workflow ;;
  runsFromTriggers triggers commitsPerDay options.

(** ** Monthly cost *)

(** A workflow analysis result [{ name, estimatedDuration, parsed }];
    [parsed] is [VUndefined] when the record has no parsed document.  (The
    [path] property is carried along and never read.) *)
Record Workflow : Type := mkWorkflow {
  name : string;
  estimatedDuration : Q;
  parsed : value
}.

(** The record seen as a plain object, for the reads of [wf.parsed || wf]. *)
Definition recordObject (wf : Workflow) : value :=
  VObj [("name", VStr (name wf));
        ("estimatedDuration", VNum (estimatedDuration wf));
        ("parsed", parsed wf)].

(** [{ ...wf, runsPerMonth, minutesPerMonth }]. *)
Record Enriched : Type := mkEnriched {
  source : Workflow;
  wfRunsPerMonth : Q;
  wfMinutesPerMonth : Q
}.

Record BreakdownRow : Type := mkRow {
  rowName : string;
  rowMinutesPerRun : Q;
  rowRunsPerMonth : Q;
  rowMinutesPerMonth : Q
}.

Record Budgets : Type := mkBudgets {
  target : Q;
  stretch : Q;
  withinTarget : bool;
  withinStretch : bool
}.

Record Tier : Type := mkTier {
  limit : Q;
  overage : Q;
  cost : Q;
  withinLimit : bool;
  monthlyCost : option Q
}.

Record CostReport : Type := mkReport {
  totalMinutesPerMonth : Q;
  minutesPerDay : Q;
  workflowRunsPerDay : Q;
  breakdown : list BreakdownRow;
  budgets : Budgets;
  freeTier : Tier;
  teamTier : Tier
}.

Definition enrich (commitsPerDay : Q) (options : Options) (wf : Workflow)
  : option Enriched :=
  runs <-
    estimateWorkflowRunsPerMonth
      (if Val.truthy (parsed wf) then parsed wf else recordObject wf)
      commitsPerDay options ;;
  let minutes := Num.ceil (estimatedDuration wf * runs) in
  Some {| source := wf; wfRunsPerMonth := runs; wfMinutesPerMonth := minutes |}.

(** [workflows.map(f)] for a callback that may throw. *)
Fixpoint mapM {A B : Type} (f : A -> option B) (l : list A) : option (list B) :=
  match l with
  | [] => Some []
  | x :: rest =>
      y <- f x ;;
      ys <- mapM f rest ;;
      Some (y :: ys)
  end.

(** The report built from the enriched records (the part of
    [calculateMonthlyCosts] after the first [map]). *)
Definition costReport (enrichedWorkflows : list Enriched) : CostReport :=
  let totalWorkflowRunsPerMonth :=
    fold_left (fun total wf => total + wfRunsPerMonth wf) enrichedWorkflows 0 in
  let minutesPerMonth :=
    fold_left (fun total wf => total + wfMinutesPerMonth wf) enrichedWorkflows 0 in
  let minutesPerDay := minutesPerMonth / DAYS_PER_MONTH in
  let workflowRunsPerDay := totalWorkflowRunsPerMonth / DAYS_PER_MONTH in
  let FREE_TIER_MINUTES := 2000 in
  let TEAM_TIER_MINUTES := 3000 in
  let COST_PER_MINUTE := 8 # 1000 in
  let TARGET_BUDGET_MINUTES := 1000 in
  let STRETCH_BUDGET_MINUTES := 1500 in
  let freeOverage := Num.max 0 (minutesPerMonth - FREE_TIER_MINUTES) in
  let teamOverage := Num.max 0 (minutesPerMonth - TEAM_TIER_MINUTES) in
  let freeOverageCost := freeOverage * COST_PER_MINUTE in
  let teamOverageCost := teamOverage * COST_PER_MINUTE in
  {|
    totalMinutesPerMonth := minutesPerMonth;
    minutesPerDay := minutesPerDay;
    workflowRunsPerDay := workflowRunsPerDay;
    breakdown :=
      map (fun wf =>
             {| rowName := name (source wf);
                rowMinutesPerRun := estimatedDuration (source wf);
                rowRunsPerMonth := wfRunsPerMonth wf;
                rowMinutesPerMonth := wfMinutesPerMonth wf |})
          enrichedWorkflows;
    budgets :=
      {| target := TARGET_BUDGET_MINUTES;
         stretch := STRETCH_BUDGET_MINUTES;
         withinTarget := Num.le minutesPerMonth TARGET_BUDGET_MINUTES;
         withinStretch := Num.le minutesPerMonth STRETCH_BUDGET_MINUTES |};
    freeTier :=
      {| limit := FREE_TIER_MINUTES;
         overage := freeOverage;
         cost := freeOverageCost;
         withinLimit := Num.le minutesPerMonth FREE_TIER_MINUTES;
         monthlyCost := None |};
    teamTier :=
      {| limit := TEAM_TIER_MINUTES;
         overage := teamOverage;
         cost := teamOverageCost;
         withinLimit := Num.le minutesPerMonth TEAM_TIER_MINUTES;
         monthlyCost := Some 4 |}
  |}.

Definition calculateMonthlyCosts
  (workflows : list Workflow) (commitsPerDay : Q) (options : Options)
  : option CostReport :=
  enrichedWorkflows <- mapM (enrich commitsPerDay options) workflows ;;
  Some (costReport enrichedWorkflows).

(** ** Optimization recommendations *)

Inductive RecommendationType : Type :=
| Caching | MatrixSize | Frequency | Conditional.

Inductive Priority : Type := Low | Medium | High.

(** A recommendation.  The display strings [description] and [action] are
    left out: nothing in the analysis reads them. *)
Record Recommendation : Type := mkRecommendation {
  recType : RecommendationType;
  workflow : string;
  job : option string;
  title : string;
  potentialSavings : Q;
  savingsPerRun : Q;
  priority : Priority
}.

(** The callbacks of the two [job.steps.some(...)] calls. *)
Definition usesCache (step : value) : option bool :=
  uses <- Val.prop step "uses" ;;
  if Val.truthy uses then
    cache <- Val.includes uses "actions/cache" ;;
    if cache then Some true else Val.includes uses "actions/setup-node"
  else Some false.

Definition runsInstall (step : value) : option bool :=
  run <- Val.prop step "run" ;;
  if Val.truthy run then
    npm <- Val.includes run "npm install" ;;
    if npm then Some true
    else
      yarn <- Val.includes run "yarn install" ;;
      if yarn then Some true
      else
        pnpm <- Val.includes run "pnpm install" ;;
        if pnpm then Some true else Val.includes run "pip install"
  else Some false.

(** 1. Missing dependency caching. *)
Definition detectMissingCaching
  (workflowName jobName : string) (job : value) (runsPerMonth : Q)
  : option (list Recommendation) :=
  steps <- Val.prop job "steps" ;;
  match steps with
  | VArr items =>
      hasCaching <- Val.some usesCache items ;;
      hasInstall <- Val.some runsInstall items ;;
      if hasInstall && negb hasCaching then
        let savingsPerRun := 3 in
        let savingsPerMonth := Num.ceil (savingsPerRun * runsPerMonth) in
        Some [ {| recType := Caching;
                  workflow := workflowName;
                  job := Some jobName;
                  title := "Add dependency caching";
                  potentialSavings := savingsPerMonth;
                  savingsPerRun := savingsPerRun;
                  priority := High |} ]
      else Some []
  | _ => Some []
  end.

(** 2. Oversized matrix strategies. *)
Definition detectLargeMatrix
  (wf : Workflow) (jobName : string) (job : value) (runsPerMonth : Q)
  : option (list Recommendation) :=
  strategy <- Val.prop job "strategy" ;;
  if Val.truthy strategy then
    matrix <- Val.prop strategy "matrix" ;;
    if Val.truthy matrix then
      let matrixSize := calculateMatrixSize matrix in
      if Num.le 6 matrixSize then
        let currentMinutes := estimatedDuration wf in
        let reductionFactor := 5 # 10 in
        let savingsPerMonth :=
          Num.ceil (currentMinutes * reductionFactor * runsPerMonth) in
        Some [ {| recType := MatrixSize;
                  workflow := name wf;
                  job := Some jobName;
                  title := "Reduce matrix size";
                  potentialSavings := savingsPerMonth;
                  savingsPerRun := Num.ceil (currentMinutes * reductionFactor);
                  priority := if Num.le 9 matrixSize then High else Medium |} ]
      else Some []
    else Some []
  else Some [].

(** The loop over [Object.entries(workflow.jobs)]. *)
Fixpoint jobRecommendations
  (wf : Workflow) (runsPerMonth : Q) (jobs : list (string * value))
  : option (list Recommendation) :=
  match jobs with
  | [] => Some []
  | (jobName, job) :: rest =>
      caching <- detectMissingCaching (name wf) jobName job runsPerMonth ;;
      matrix <- detectLargeMatrix wf jobName job runsPerMonth ;;
      others <- jobRecommendations wf runsPerMonth rest ;;
      Some (caching ++ matrix ++ others)%list
  end.

(** The frequency recommendations for the normalized triggers (the body of
    [if (workflow.on) { ... }] after [normalizeTriggers]). *)
Definition frequencyAdvice (wf : Workflow) (triggers : list (string * value))
  : option (list Recommendation) :=
  let hasSchedule := Val.hasOwn triggers "schedule" in
  scheduledRuns <-
    (if hasSchedule
     then estimateScheduleRunsPerMonth (Val.lookup triggers "schedule")
     else Some 0) ;;
  let weekly :=
    if Num.le 20 scheduledRuns then
      let currentRuns := scheduledRuns in
      let proposedRuns := 4 in
      let savingsPerMonth :=
        Num.ceil (estimatedDuration wf * (currentRuns - proposedRuns)) in
      [ {| recType := Frequency;
           workflow := name wf;
           job := None;
           title := "Reduce schedule frequency";
           potentialSavings := savingsPerMonth;
           savingsPerRun := 0;
           priority := if Num.lt 500 savingsPerMonth then High else Medium |} ]
    else [] in
  let monthly :=
    if Num.le 4 scheduledRuns && Num.lt scheduledRuns 20 then
      let currentRuns := scheduledRuns in
      let proposedRuns := 1 in
      let savingsPerMonth :=
        Num.ceil (estimatedDuration wf * (currentRuns - proposedRuns)) in
      if Num.lt 50 savingsPerMonth then
        [ {| recType := Frequency;
             workflow := name wf;
             job := None;
             title := "Reduce schedule frequency";
             potentialSavings := savingsPerMonth;
             savingsPerRun := 0;
             priority := Low |} ]
      else []
    else [] in
  Some (weekly ++ monthly)%list.

(** 3. High-frequency scheduled workflows. *)
Definition detectHighFrequency (wf : Workflow) (workflow : value)
  : option (list Recommendation) :=
  onConfig <- Val.prop workflow "on" ;;
  if Val.truthy onConfig then
    let triggers := normalizeTriggers onConfig in
    frequencyAdvice wf triggers
  else Some [].

(** [cfg && (cfg.paths || cfg['paths-ignore'])], as a boolean. *)
Definition filtersPaths (cfg : value) : option bool :=
  if Val.truthy cfg then
    paths <- Val.prop cfg "paths" ;;
    if Val.truthy paths then Some true
    else
      pathsIgnore <- Val.prop cfg "paths-ignore" ;;
      Some (Val.truthy pathsIgnore)
  else Some false.

(** 4. Missing path filters. *)
Definition detectMissingPathFilters
  (wf : Workflow) (workflow : value) (runsPerMonth : Q)
  : option (list Recommendation) :=
  onConfig <- Val.prop workflow "on" ;;
  if Val.truthy onConfig && Val.isObjectType onConfig then
    push <- Val.prop onConfig "push" ;;
    pullRequest <- Val.prop onConfig "pull_request" ;;
    let hasPush := Val.truthy push || Val.truthy pullRequest in
    pushFilter <- filtersPaths push ;;
    hasPathFilter <-
      (if pushFilter then Some true else filtersPaths pullRequest) ;;
    if hasPush && negb hasPathFilter
       && negb (Str.includes "release" (name wf)) then
      let wastedRuns := Binary64.times runsPerMonth (Binary64.literal (2 # 10)) in
      let savingsPerMonth :=
        Num.ceil (Binary64.times (estimatedDuration wf) wastedRuns) in
      if Num.lt 50 savingsPerMonth then
        Some [ {| recType := Conditional;
                  workflow := name wf;
                  job := None;
                  title := "Add path filters";
                  potentialSavings := savingsPerMonth;
                  savingsPerRun := 0;
                  priority := Medium |} ]
      else Some []
    else Some []
  else Some [].

(** The body of the loop over the workflows: the recommendations one
    workflow adds, in the order they are pushed. *)
Definition workflowRecommendations (commitsPerDay : Q) (wf : Workflow)
  : option (list Recommendation) :=
  let workflow := parsed wf in
  runsPerMonth <- estimateWorkflowRunsPerMonth workflow commitsPerDay noOptions ;;
  jobs <- Val.prop workflow "jobs" ;;
  if negb (Val.truthy jobs) then Some []
  else
    perJob <- jobRecommendations wf runsPerMonth (Val.entries jobs) ;;
    frequency <- detectHighFrequency wf workflow ;;
    conditional <- detectMissingPathFilters wf workflow runsPerMonth ;;
    Some (perJob ++ frequency ++ conditional)%list.

Fixpoint collectRecommendations (commitsPerDay : Q) (workflows : list Workflow)
  : option (list Recommendation) :=
  match workflows with
  | [] => Some []
  | wf :: rest =>
      here <- workflowRecommendations commitsPerDay wf ;;
      others <- collectRecommendations commitsPerDay rest ;;
      Some (here ++ others)%list
  end.

(** [Array.prototype.sort(cmp)]: the sort is stable, and [cmp a b > 0] puts
    [a] after [b].  For a consistent comparator the outcome is that of
    stable insertion. *)
Fixpoint insertBy {A : Type} (cmp : A -> A -> Q) (x : A) (sorted : list A)
  : list A :=
  match sorted with
  | [] => [x]
  | y :: rest =>
      if Num.lt 0 (cmp x y) then y :: insertBy cmp x rest
      else x :: sorted
  end.

Definition sortBy {A : Type} (cmp : A -> A -> Q) (l : list A) : list A :=
  fold_right (insertBy cmp) [] l.

Definition bySavingsDescending (a b : Recommendation) : Q :=
  potentialSavings b - potentialSavings a.

Definition analyzeOptimizations (workflows : list Workflow) (commitsPerDay : Q)
  : option (list Recommendation) :=
  recommendations <- collectRecommendations commitsPerDay workflows ;;
  Some (sortBy bySavingsDescending recommendations).

(** ** Commit frequency *)

Definition lineFeed : ascii := "010"%char.

Record CommitStats : Type := mkStats {
  statsCommitsPerDay : Q;
  statsTotalCommits : Q
}.

(** [getCommitFrequency(projectPath, days)].  [gitLog] is what [execSync]
    returns for the fixed command [git log --oneline --since="30 days ago"
    --all] run in [projectPath], and [None] when it throws; [days] is not 0.
    The debug output of the [catch] branch is left out. *)
Definition getCommitFrequency (gitLog : option string) (days : Q) : CommitStats :=
  match gitLog with
  | Some output =>
      let gitLog := Str.trim output in
      if Str.isEmpty gitLog then
        {| statsCommitsPerDay := 0; statsTotalCommits := 0 |}
      else
        let totalCommits := Num.ofNat (length (Str.split lineFeed gitLog)) in
        let commitsPerDay := totalCommits / days in
        {| statsCommitsPerDay := Num.max commitsPerDay (1 # 2);
           statsTotalCommits := totalCommits |}
  | None => {| statsCommitsPerDay := 1; statsTotalCommits := 0 |}
  end.

(** ** The command *)

(** [String.prototype.endsWith]. *)
Fixpoint endsWith (suffix s : string) : bool :=
  if String.eqb s suffix then true
  else match s with
       | EmptyString => false
       | String _ rest => endsWith suffix rest
       end.

(** [discoverWorkflows(projectPath)], by file name.  [listing] is the result
    of [readdirSync] on [.github/workflows], and [None] when that directory
    does not exist.  The [path] of a file, which only serves to read it, is
    left out. *)
Definition discoverWorkflows (listing : option (list string)) : list string :=
  match listing with
  | None => []
  | Some files =>
      filter (fun file => endsWith ".yml" file || endsWith ".yaml" file) files
  end.

(** Step 2 of [handleAnalyzeCi]: the record of every file that can be read,
    parsed and estimated.  [documents file] is the result of
    [yaml.load(readFileSync(path))], and [None] when one of the two throws;
    a file whose estimate throws is skipped with a warning as well. *)
Fixpoint parseWorkflows (documents : string -> option value)
  (workflowFiles : list string) : list Workflow :=
  match workflowFiles with
  | [] => []
  | file :: rest =>
      match documents file with
      | Some parsed =>
          match estimateWorkflowDuration parsed with
          | Some estimatedDuration =>
              mkWorkflow file estimatedDuration parsed
              :: parseWorkflows documents rest
          | None => parseWorkflows documents rest
          end
      | None => parseWorkflows documents rest
      end
  end.

(** The argument of [generateReport]. *)
Record Analysis : Type := mkAnalysis {
  analysedWorkflows : list Workflow;
  costs : CostReport;
  commitStats : CommitStats;
  optimizations : list Recommendation
}.

(** [handleAnalyzeCi()]: the exit code, and the analysis handed to
    [generateReport] when there is one.  The progress spinner and the
    console output are left out. *)
Definition handleAnalyzeCi (listing : option (list string))
  (documents : string -> option value) (gitLog : option string)
  : nat * option Analysis :=
  let workflowFiles := discoverWorkflows listing in
  if (length workflowFiles =? 0)%nat then (1%nat, None)
  else
    let workflows := parseWorkflows documents workflowFiles in
    let commitStats := getCommitFrequency gitLog 30 in
    match calculateMonthlyCosts workflows (statsCommitsPerDay commitStats)
            noOptions with
    | Some costs =>
        match analyzeOptimizations workflows (statsCommitsPerDay commitStats) with
        | Some optimizations =>
            (0%nat,
             Some {| analysedWorkflows := workflows;
                     costs := costs;
                     commitStats := commitStats;
                     optimizations := optimizations |})
        | None => (1%nat, None)
        end
    | None => (1%nat, None)
    end.

(** * Project maturity detection (lib/project-maturity.js)

    The classification of [ProjectMaturityDetector] and its table of
    levels.  The module [../config/constants] is not part of the sources at
    hand: the thresholds it exports are a parameter of the model. *)

Record Checks : Type := mkChecks {
  required : list string;
  optional : list string;
  disabled : list string
}.

(** A maturity level.  The display strings [description] and [message] are
    left out. *)
Record Level : Type := mkLevel {
  levelName : string;
  checks : Checks
}.

Definition MATURITY_LEVELS : list (string * Level) :=
  [("minimal",
    {| levelName := "Minimal";
       checks :=
         {| required := ["prettier"];
            optional := [];
            disabled := ["eslint"; "stylelint"; "tests"; "coverage";
                         "security-audit"; "documentation"] |} |});
   ("bootstrap",
    {| levelName := "Bootstrap";
       checks :=
         {| required := ["prettier"; "eslint"];
            optional := ["stylelint"];
            disabled := ["tests"; "coverage"; "security-audit";
                         "documentation"] |} |});
   ("development",
    {| levelName := "Development";
       checks :=
         {| required := ["prettier"; "eslint"; "stylelint"; "tests"];
            optional := ["coverage"; "security-audit"];
            disabled := ["documentation"] |} |});
   ("production-ready",
    {| levelName := "Production Ready";
       checks :=
         {| required := ["prettier"; "eslint"; "stylelint"; "tests";
                         "coverage"; "security-audit"; "documentation"];
            optional := ["lighthouse"];
            disabled := [] |} |})].

(** [MATURITY_THRESHOLDS], as far as [detect] reads it. *)
Record Thresholds : Type := mkThresholds {
  MIN_BOOTSTRAP_FILES : nat;
  MIN_PRODUCTION_FILES : nat;
  MIN_PRODUCTION_TESTS : nat
}.

(** The statistics of [analyzeProject] that [detect] reads. *)
Record ProjectStats : Type := mkProjectStats {
  totalSourceFiles : nat;
  testFiles : nat;
  hasDocumentation : bool;
  hasDependencies : bool
}.

(** [detect()], from the statistics on.  The verbose output is left out. *)
Definition detect (thresholds : Thresholds) (stats : ProjectStats) : string :=
  let maturity := "minimal" in
  if (totalSourceFiles stats =? 0)%nat then "minimal"
  else if ((totalSourceFiles stats <? MIN_BOOTSTRAP_FILES thresholds)
           && (testFiles stats =? 0))%nat
  then "bootstrap"
  else if ((totalSourceFiles stats <? MIN_BOOTSTRAP_FILES thresholds)
           && (0 <? testFiles stats))%nat
  then "bootstrap"
  else if ((0 <? testFiles stats)
           && (MIN_BOOTSTRAP_FILES thresholds <=? totalSourceFiles stats)
           && (totalSourceFiles stats <? MIN_PRODUCTION_FILES thresholds))%nat
  then "development"
  else if ((MIN_PRODUCTION_TESTS thresholds <=? testFiles stats)%nat
           && (MIN_PRODUCTION_FILES thresholds <=? totalSourceFiles stats)%nat
           && (hasDocumentation stats || hasDependencies stats))
  then "production-ready"
  else if (MIN_BOOTSTRAP_FILES thresholds <=? totalSourceFiles stats)%nat
  then "development"
  else maturity.

(** [MATURITY_LEVELS[maturity]], for a name that is not one of the
    properties every object inherits. *)
Fixpoint levelOf (levels : list (string * Level)) (maturity : string)
  : option Level :=
  match levels with
  | [] => None
  | (key, level) :: rest =>
      if String.eqb key maturity then Some level else levelOf rest maturity
  end.

Definition minimalLevel : Level :=
  {| levelName := "Minimal";
     checks :=
       {| required := ["prettier"];
          optional := [];
          disabled := ["eslint"; "stylelint"; "tests"; "coverage";
                       "security-audit"; "documentation"] |} |}.

(** [getMaturityDetails(maturity)]: [MATURITY_LEVELS[maturity] ||
    MATURITY_LEVELS.minimal]. *)
Definition getMaturityDetails (maturity : string) : Level :=
  match levelOf MATURITY_LEVELS maturity with
  | Some level => level
  | None => minimalLevel
  end.

Definition getRecommendedChecks (maturity : string) : Checks :=
  checks (getMaturityDetails maturity).

(** ** File counts *)

(** An entry of a directory as [readdirSync(dir, { withFileTypes: true })]
    gives it.  A directory carries what reading it gives in turn: its
    entries, or [None] when [readdirSync] throws. *)
Inductive DirEntry : Type :=
| SymbolicLink (entryName : string)
| Directory (entryName : string) (contents : option (list DirEntry))
| File (entryName : string)
| Special (entryName : string).

(** The options of [countFilesRecursive]; [currentDepth] is an argument of
    its own. *)
Record CountOptions : Type := mkCountOptions {
  extensions : list string;
  excludeDirs : list string;
  includePatterns : list string;
  excludePatterns : list string;
  maxDepth : nat
}.

(** The three filters on a file, [path.extname] given. *)
Definition passesFilters (extname : string -> string) (options : CountOptions)
  (fileName : string) : bool :=
  let ext := Str.toLowerCase (extname fileName) in
  if (0 <? length (extensions options))%nat
     && negb (existsb (String.eqb ext) (extensions options))
  then false
  else if (0 <? length (includePatterns options))%nat
          && negb (existsb (fun pattern => Str.includes pattern fileName)
                     (includePatterns options))
  then false
  else if (0 <? length (excludePatterns options))%nat
          && existsb (fun pattern => Str.includes pattern fileName)
               (excludePatterns options)
  then false
  else true.

(** What one entry of a directory read at depth [currentDepth] adds to the
    count (the body of the loop); for a directory this is the recursive
    call at depth [currentDepth + 1]. *)
Fixpoint countEntry (extname : string -> string) (options : CountOptions)
  (currentDepth : nat) (entry : DirEntry) {struct entry} : nat :=
  match entry with
  | SymbolicLink _ => 0
  | Directory entryName contents =>
      if existsb (String.eqb entryName) (excludeDirs options) then 0
      else if (maxDepth options <? S currentDepth)%nat then 0
      else
        match contents with
        | Some entries =>
            fold_left
              (fun count entry =>
                 count + countEntry extname options (S currentDepth) entry)
              entries 0
        | None => 0
        end
  | File entryName =>
      if passesFilters extname options entryName then 1 else 0
  | Special _ => 0
  end%nat.

(** [countFilesRecursive(dir, options)], [contents] being what reading
    [dir] gives.  The warnings of the [catch] branch are left out. *)
Definition countFilesRecursive (extname : string -> string)
  (options : CountOptions) (currentDepth : nat)
  (contents : option (list DirEntry)) : nat :=
  if (maxDepth options <? currentDepth)%nat then 0%nat
  else
    match contents with
    | Some entries =>
        fold_left
          (fun count entry =>
             (count + countEntry extname options currentDepth entry)%nat)
          entries 0%nat
    | None => 0%nat
    end.

Definition sourceExtensions : list string :=
  [".js"; ".jsx"; ".ts"; ".tsx"; ".mjs"; ".cjs"].

(** [countSourceFiles()] and [countTestFiles()]; [excluded] is
    [EXCLUDE_DIRECTORIES.PROJECT_MATURITY] and [project] what reading the
    project directory gives. *)
Definition countSourceFiles (extname : string -> string)
  (excluded : list string) (project : option (list DirEntry)) : nat :=
  let extensions := sourceExtensions in
  let testPatterns := [".test."; ".spec."; "__tests__"; "__mocks__"] in
  countFilesRecursive extname
    {| extensions := extensions;
       excludeDirs := excluded;
       includePatterns := [];
       excludePatterns := testPatterns;
       maxDepth := 5 |}
    0 project.

Definition countTestFiles (extname : string -> string)
  (excluded : list string) (project : option (list DirEntry)) : nat :=
  let extensions := sourceExtensions in
  let testPatterns := [".test."; ".spec."; "__tests__"] in
  countFilesRecursive extname
    {| extensions := extensions;
       excludeDirs := excluded;
       includePatterns := testPatterns;
       excludePatterns := [];
       maxDepth := 5 |}
    0 project.

(** * The analysis over an object store

    The functions above compute on values.  To speak about mutation the two
    entry points are given a second time over a store of objects with
    identity, in a state monad that can allocate, read and overwrite
    objects.  The inputs (the workflows array, the workflow records, the
    options) are objects of the store.  Every object the source creates and
    then mutates or hands out is allocated: the accumulator of
    [normalizeTriggers], the default [options = {}], the enriched records
    and their array, the report, the [recommendations] array and each
    recommendation pushed on it.  The assignments of the source are the
    overwrites of the model: [acc[eventName] = true],
    [recommendations.push(...)] and [recommendations.sort(...)].  The
    read-only parts are the functions above. *)

Module Store.

Definition loc : Type := nat.

(** What a location holds.  A parsed document sits inside its workflow
    record as a value. *)
Inductive object : Type :=
| OWorkflow (wf : Workflow)
| OOptions (o : Options)
| OPlain (props : list (string * value))
| OEnriched (e : Enriched)
| ORecommendation (r : Recommendation)
| OReport (r : CostReport)
| OArray (items : list loc).

Definition store : Type := list object.

(** Computations that may throw. *)
Definition M (A : Type) : Type := store -> option (A * store).

Definition ret {A : Type} (a : A) : M A := fun h => Some (a, h).

Definition bind {A B : Type} (m : M A) (k : A -> M B) : M B :=
  fun h =>
    match m h with
    | Some (a, h') => k a h'
    | None => None
    end.

Definition throw {A : Type} : M A := fun _ => None.

Definition liftOption {A : Type} (o : option A) : M A :=
  match o with
  | Some a => ret a
  | None => throw
  end.

(** A new object, at the first unused location. *)
Definition alloc (o : object) : M loc :=
  fun h => Some (length h, (h ++ [o])%list).

Definition read (l : loc) : M object :=
  fun h =>
    match nth_error h l with
    | Some o => Some (o, h)
    | None => None
    end.

Fixpoint update (h : store) (l : loc) (o : object) : store :=
  match h, l with
  | [], _ => []
  | _ :: rest, O => o :: rest
  | x :: rest, S l' => x :: update rest l' o
  end.

Definition write (l : loc) (o : object) : M unit :=
  fun h => if (l <? length h)%nat then Some (tt, update h l o) else None.

End Store.

Notation "x <~ e ;; k" :=
  (Store.bind e (fun x => k))
    (at level 61, e at next level, right associativity).

Module Imperative.

Import Store.

Definition readWorkflow (l : loc) : M Workflow :=
  o <~ read l ;;
  match o with OWorkflow wf => ret wf | _ => throw end.

Definition readOptions (l : loc) : M Options :=
  o <~ read l ;;
  match o with OOptions opts => ret opts | _ => throw end.

Definition readPlain (l : loc) : M (list (string * value)) :=
  o <~ read l ;;
  match o with OPlain props => ret props | _ => throw end.

Definition readEnriched (l : loc) : M Enriched :=
  o <~ read l ;;
  match o with OEnriched e => ret e | _ => throw end.

Definition readRecommendation (l : loc) : M Recommendation :=
  o <~ read l ;;
  match o with ORecommendation r => ret r | _ => throw end.

Definition readArray (l : loc) : M (list loc) :=
  o <~ read l ;;
  match o with OArray items => ret items | _ => throw end.

(** [for (const x of items) body(x)]. *)
Fixpoint forEach {A : Type} (body : A -> M unit) (items : list A) : M unit :=
  match items with
  | [] => ret tt
  | x :: rest => _ <~ body x ;; forEach body rest
  end.

(** [items.map(f)], collecting the results. *)
Fixpoint forM {A B : Type} (f : A -> M B) (items : list A) : M (list B) :=
  match items with
  | [] => ret []
  | x :: rest =>
      y <~ f x ;;
      ys <~ forM f rest ;;
      ret (y :: ys)
  end.

(** [normalizeTriggers]: a fresh object in every case but that of a
    mapping, which is returned as it is.  The result is handed on as the
    list of its properties. *)
Definition normalizeTriggers (onConfig : value) : M (list (string * value)) :=
  if negb (Val.truthy onConfig) then
    fresh <~ alloc (OPlain []) ;; readPlain fresh
  else
    match onConfig with
    | VStr s =>
        fresh <~ alloc (OPlain [(s, VBool true)]) ;; readPlain fresh
    | VArr items =>
        acc <~ alloc (OPlain []) ;;
        _ <~ forEach
               (fun eventName =>
                  match eventName with
                  | VStr s =>
                      props <~ readPlain acc ;;
                      write acc (OPlain (Val.assign props s (VBool true)))
                  | _ => ret tt
                  end)
               items ;;
        readPlain acc
    | VObj props => ret props
    | _ => fresh <~ alloc (OPlain []) ;; readPlain fresh
    end.

Definition estimateWorkflowRunsPerMonth
  (workflow : value) (commitsPerDay : Q) (options : loc) : M Q :=
  onConfig <~
    liftOption
      (if Val.truthy workflow then Val.prop workflow "on" else Some workflow) ;;
  triggers <~ normalizeTriggers onConfig ;;
  opts <~ readOptions options ;;
  liftOption (runsFromTriggers triggers commitsPerDay opts).

(** The callback of [workflows.map]: reads the record and creates the
    enriched copy [{ ...wf, runsPerMonth, minutesPerMonth }]. *)
Definition enrich (commitsPerDay : Q) (options : loc) (wfLoc : loc) : M loc :=
  wf <~ readWorkflow wfLoc ;;
  runs <~
    estimateWorkflowRunsPerMonth
      (if Val.truthy (parsed wf) then parsed wf else recordObject wf)
      commitsPerDay options ;;
  let minutes := Num.ceil (estimatedDuration wf * runs) in
  alloc (OEnriched {| source := wf;
                      wfRunsPerMonth := runs;
                      wfMinutesPerMonth := minutes |}).

Definition calculateMonthlyCosts
  (workflows : loc) (commitsPerDay : Q) (options : loc) : M loc :=
  wfLocs <~ readArray workflows ;;
  enrichedLocs <~ forM (enrich commitsPerDay options) wfLocs ;;
  enrichedWorkflows <~ alloc (OArray enrichedLocs) ;;
  items <~ readArray enrichedWorkflows ;;
  enriched <~ forM readEnriched items ;;
  alloc (OReport (costReport enriched)).

(** [recommendations.push({ ... })] for each recommendation of a detector. *)
Definition pushAll (recommendations : loc) (found : list Recommendation)
  : M unit :=
  forEach
    (fun r =>
       fresh <~ alloc (ORecommendation r) ;;
       items <~ readArray recommendations ;;
       write recommendations (OArray (items ++ [fresh])%list))
    found.

Definition detectHighFrequency (wf : Workflow) (workflow : value)
  : M (list Recommendation) :=
  onConfig <~ liftOption (Val.prop workflow "on") ;;
  if Val.truthy onConfig then
    triggers <~ normalizeTriggers onConfig ;;
    liftOption (frequencyAdvice wf triggers)
  else ret [].

(** The body of the loop over the workflows. *)
Definition workflowRecommendations
  (commitsPerDay : Q) (recommendations : loc) (wfLoc : loc) : M unit :=
  wf <~ readWorkflow wfLoc ;;
  let workflow := parsed wf in
  options <~ alloc (OOptions noOptions) ;;
  runsPerMonth <~ estimateWorkflowRunsPerMonth workflow commitsPerDay options ;;
  jobs <~ liftOption (Val.prop workflow "jobs") ;;
  if negb (Val.truthy jobs) then ret tt
  else
    _ <~ forEach
           (fun entry =>
              let jobName := fst entry in
              let job := snd entry in
              caching <~
                liftOption
                  (detectMissingCaching (name wf) jobName job runsPerMonth) ;;
              _ <~ pushAll recommendations caching ;;
              matrix <~
                liftOption (detectLargeMatrix wf jobName job runsPerMonth) ;;
              pushAll recommendations matrix)
           (Val.entries jobs) ;;
    frequency <~ detectHighFrequency wf workflow ;;
    _ <~ pushAll recommendations frequency ;;
    conditional <~
      liftOption (detectMissingPathFilters wf workflow runsPerMonth) ;;
    pushAll recommendations conditional.

(** [recommendations.sort(cmp)], in place. *)
Definition sortInPlace (recommendations : loc) : M unit :=
  items <~ readArray recommendations ;;
  found <~ forM readRecommendation items ;;
  let sorted :=
    sortBy (fun a b => bySavingsDescending (snd a) (snd b))
           (combine items found) in
  write recommendations (OArray (map fst sorted)).

Definition analyzeOptimizations (workflows : loc) (commitsPerDay : Q) : M loc :=
  recommendations <~ alloc (OArray []) ;;
  wfLocs <~ readArray workflows ;;
  _ <~ forEach (workflowRecommendations commitsPerDay recommendations) wfLocs ;;
  _ <~ sortInPlace recommendations ;;
  ret recommendations.

End Imperative.

(** * Definitions used to state the properties *)

(** The sum of the entry contributions, as a plain fold. *)
Fixpoint entriesTotal (schedules : list value) : Q :=
  match schedules with
  | [] => 0
  | entry :: rest =>
      match scheduleEntryRuns entry with
      | Some r => r + entriesTotal rest
      | None => entriesTotal rest
      end
  end.

(** The baseline cadence as the specification words it: 30 a month when
    day-of-month, month and day-of-week are all [*]; 4 when day-of-week is
    restricted; else 1, day-of-month or month being restricted. *)
Definition baselineCadence (dayOfMonth month dayOfWeek : string) : Q :=
  if String.eqb dayOfMonth "*" && String.eqb month "*"
     && String.eqb dayOfWeek "*"
  then 30
  else if negb (String.eqb dayOfWeek "*") then 4
  else 1.

(** A schedule with the single entry [{ cron }]. *)
Definition singleCron (cron : string) : value :=
  VArr [VObj [("cron", VStr cron)]].

(** How many of the release-like trigger kinds (tag-only push, [release],
    [create]) a workflow has. *)
Definition releaseTypesPresent (f : TriggerFlags) : nat :=
  Nat.b2n (hasTagPush f) + Nat.b2n (hasRelease f) + Nat.b2n (hasCreate f).

(** The runs contributed by commit-scoped pushes, pull requests and
    schedules. *)
Definition otherRuns (f : TriggerFlags) (triggers : list (string * value))
  (commitsPerMonth pullRequestFactor : Q) : Q :=
  (if hasCommitPush f then commitsPerMonth else 0)
  + (if hasPullRequest f
     then Num.ceil (commitsPerMonth * pullRequestFactor) else 0)
  + (if hasSchedule f then
       match estimateScheduleRunsPerMonth (Val.lookup triggers "schedule") with
       | Some scheduled => scheduled
       | None => 0
       end
     else 0).

(** A trigger configuration carries a path filter: it is a mapping with a
    truthy [paths] or [paths-ignore]. *)
Definition hasPathFilter (cfg : value) : bool :=
  match cfg with
  | VObj props =>
      Val.truthy (Val.lookup props "paths")
      || Val.truthy (Val.lookup props "paths-ignore")
  | _ => false
  end.

(** The savings of the fourth detector, as it computes them:
    [Math.ceil(duration * (runsPerMonth * 0.2))] on doubles. *)
Definition pathFilterSavings (wf : Workflow) (runsPerMonth : Q) : Q :=
  Num.ceil
    (Binary64.times (estimatedDuration wf)
       (Binary64.times runsPerMonth (Binary64.literal (2 # 10)))).

(** The savings as the specification words them, over the reals:
    [ceil(duration * runsPerMonth * 0.2)]. *)
Definition realPathFilterSavings (wf : Workflow) (runsPerMonth : Q) : Q :=
  Num.ceil (estimatedDuration wf * runsPerMonth * (2 # 10)).

(** The recommendation of the fourth detector. *)
Definition pathFilterAdvice (wf : Workflow) (runsPerMonth : Q) : Recommendation :=
  {| recType := Conditional;
     workflow := name wf;
     job := None;
     title := "Add path filters";
     potentialSavings := pathFilterSavings wf runsPerMonth;
     savingsPerRun := 0;
     priority := Medium |}.

(** ** The documented shape of a job map

    [jobs: map<jobName, { steps?: [{name?, run?, uses?}],
                          strategy?: { matrix: map<axis, value[]> } }>]:
    a key-unique map, the keys in any order, other keys ([runs-on],
    [needs], [with], ...) allowed beside the documented ones.  A document
    is read into this shape through the documented keys alone. *)

Record StepSpec : Type := mkStep {
  stepName : option string;
  stepRun : option string;
  stepUses : option string
}.

(** A matrix axis: a sequence of values, or a single value. *)
Inductive AxisSpec : Type :=
| AxisValues (items : list value)
| AxisSingle (v : value).

Record JobSpec : Type := mkJob {
  jobSteps : option (list StepSpec);
  jobMatrix : option (list (string * AxisSpec))
}.

(** An optional text: a string, or nothing when the property is absent,
    null or otherwise falsy.  Any other value is not a text. *)
Definition readText (v : value) : option (option string) :=
  match v with
  | VStr s => Some (Some s)
  | _ => if Val.truthy v then None else Some None
  end.

(** A step: any value that is not null with [name], [run] and [uses]
    optional texts. *)
Definition readStep (step : value) : option StepSpec :=
  name <- Val.prop step "name" ;;
  run <- Val.prop step "run" ;;
  uses <- Val.prop step "uses" ;;
  n <- readText name ;;
  r <- readText run ;;
  u <- readText uses ;;
  Some (mkStep n r u).

Definition readAxis (v : value) : AxisSpec :=
  match v with
  | VArr items => AxisValues items
  | _ => AxisSingle v
  end.

Definition readMatrix (matrix : value) : list (string * AxisSpec) :=
  map (fun axis => (fst axis, readAxis (snd axis))) (Val.entries matrix).

(** A job: its steps when [steps] is a sequence, its matrix when
    [strategy.matrix] is given. *)
Definition readJob (job : value) : option JobSpec :=
  steps <- Val.prop job "steps" ;;
  strategy <- Val.prop job "strategy" ;;
  listed <-
    match steps with
    | VArr items => typed <- mapM readStep items ;; Some (Some typed)
    | _ => Some None
    end ;;
  let axes :=
    if Val.truthy strategy then
      match Val.prop strategy "matrix" with
      | Some matrix =>
          if Val.truthy matrix then Some (readMatrix matrix) else None
      | None => None
      end
    else None in
  Some (mkJob listed axes).

Definition readEntry (entry : string * value) : option (string * JobSpec) :=
  j <- readJob (snd entry) ;;
  Some (fst entry, j).

(** The job map, empty when [jobs] is absent. *)
Definition readJobs (jobs : value) : option (list (string * JobSpec)) :=
  if Val.truthy jobs then mapM readEntry (Val.entries jobs) else Some [].

(** ** The reference duration, as the specification words it *)

(** Keyword classes in priority order, each with its weight in minutes. *)
Definition keywordWeights : list (list string * Q) :=
  [(["test"; "e2e"], 10);
   (["build"; "compile"], 5);
   (["deploy"; "publish"], 3);
   (["install"; "setup"], 2)].

(** The weight of the first class one of whose keywords occurs in [name];
    1 when none does. *)
Fixpoint firstMatchingWeight (name : string) (classes : list (list string * Q))
  : Q :=
  match classes with
  | [] => 1
  | (keywords, weight) :: rest =>
      if existsb (fun keyword => Str.includes keyword name) keywords
      then weight
      else firstMatchingWeight name rest
  end.

Definition stepWeight (s : StepSpec) : Q :=
  match stepName s with
  | Some n => firstMatchingWeight (Str.toLowerCase n) keywordWeights
  | None => 1
  end.

Definition sumQ (l : list Q) : Q := fold_right Qplus 0 l.

Definition productQ (l : list Q) : Q := fold_right Qmult 1 l.

Definition axisFactor (a : AxisSpec) : Q :=
  match a with
  | AxisValues items => Num.ofNat (length items)
  | AxisSingle _ => 1
  end.

Definition combinationCount (axes : list (string * AxisSpec)) : Q :=
  productQ (map (fun axis => axisFactor (snd axis)) axes).

(** Base 5 plus the step weights, clamped to 60, times the combinations. *)
Definition referenceJobMinutes (j : JobSpec) : Q :=
  let steps := match jobSteps j with Some steps => steps | None => [] end in
  let clamped := Qmin (5 + sumQ (map stepWeight steps)) 60 in
  match jobMatrix j with
  | Some axes => clamped * combinationCount axes
  | None => clamped
  end.

Definition referenceDuration (jobs : list (string * JobSpec)) : Q :=
  Num.ceil (sumQ (map (fun entry => referenceJobMinutes (snd entry)) jobs)).

(** ** Frames

    [unchangedOutside W h h']: the store [h'] extends [h], and every object
    of [h] is found unchanged in [h'], the locations in [W] set aside. *)
Definition unchangedOutside (W : list Store.loc) (h h' : Store.store) : Prop :=
  (length h <= length h')%nat
  /\ forall l o, nth_error h l = Some o -> ~ In l W -> nth_error h' l = Some o.

(** A computation that overwrites, among the objects that exist when it
    starts, at most those at the locations in [W]. *)
Definition frames {A : Type} (W : list Store.loc) (m : Store.M A) : Prop :=
  forall h a h', m h = Some (a, h') -> unchangedOutside W h h'.

(** The array at [arr] holds, in order, recommendation objects with the
    contents [recs]. *)
Definition holdsRecommendations
  (h : Store.store) (arr : Store.loc) (recs : list Recommendation) : Prop :=
  exists locs,
    nth_error h arr = Some (Store.OArray locs)
    /\ Forall2 (fun l r => nth_error h l = Some (Store.ORecommendation r))
         locs recs.

(** The outcome of a store-level step against that of the value-level
    function: the same recommendations pushed on the array, or both throw. *)
Definition pushes (arr : Store.loc) (recs : list Recommendation)
  (expected : option (list Recommendation))
  (outcome : option (unit * Store.store)) : Prop :=
  match expected with
  | Some found =>
      exists h', outcome = Some (tt, h')
                 /\ holdsRecommendations h' arr (recs ++ found)
  | None => outcome = None
  end.

(** A workflow record whose parsed document has a job map of the
    documented shape (and any [on] declaration). *)
Definition hasDocumentedShape (wf : Workflow) : Prop :=
  exists jobsValue jobs,
    Val.prop (parsed wf) "jobs" = Some jobsValue
    /\ readJobs jobsValue = Some jobs.

(** Workflows of the repository's tests (tests/analyze-ci.test.js). *)

(** The minimal workflow: a job with [runs-on] beside its steps. *)
Definition minimalTestWorkflow : value :=
  VObj [("name", VStr "test");
        ("on", VStr "push");
        ("jobs",
         VObj [("build",
                VObj [("runs-on", VStr "ubuntu-latest");
                      ("steps",
                       VArr [VObj [("name", VStr "Checkout");
                                   ("uses", VStr "actions/checkout@v2")]])])])].

(** The matrix workflow: [strategy] written before [steps]. *)
Definition matrixTestWorkflow : value :=
  VObj [("jobs",
         VObj [("test",
                VObj [("strategy",
                       VObj [("matrix",
                              VObj [("node",
                                     VArr [VStr "14"; VStr "16"; VStr "18"]);
                                    ("os",
                                     VArr [VStr "ubuntu"; VStr "windows"])])]);
                      ("steps",
                       VArr [VObj [("name", VStr "Checkout")];
                             VObj [("name", VStr "Test")]])])])].

(** The workflow with an oversized matrix, as a record. *)
Definition oversizedMatrixWorkflow : Workflow :=
  mkWorkflow "ci.yml" 100
    (VObj [("jobs",
            VObj [("test",
                   VObj [("strategy",
                          VObj [("matrix",
                                 VObj [("node",
                                        VArr [VStr "14"; VStr "16";
                                              VStr "18"; VStr "20"]);
                                       ("os",
                                        VArr [VStr "ubuntu"; VStr "windows";
                                              VStr "macos"])])]);
                         ("steps",
                          VArr [VObj [("name", VStr "Test");
                                      ("run", VStr "npm test")]])])])]).

(** The optimal workflow: path filters, a cache set up through [with]. *)
Definition optimalWorkflow : Workflow :=
  mkWorkflow "ci.yml" 5
    (VObj [("on",
            VObj [("push",
                   VObj [("paths", VArr [VStr "src/**"; VStr "tests/**"])])]);
           ("jobs",
            VObj [("test",
                   VObj [("strategy",
                          VObj [("matrix", VObj [("node", VArr [VStr "20"])])]);
                         ("steps",
                          VArr [VObj [("uses", VStr "actions/checkout@v2")];
                                VObj [("uses", VStr "actions/setup-node@v3");
                                      ("with", VObj [("cache", VStr "npm")])];
                                VObj [("run", VStr "npm ci")];
                                VObj [("run", VStr "npm test")]])])])]).

(** ** Sample workflows *)

Definition installStep : value :=
  VObj [("name", VStr "Install"); ("run", VStr "npm install")].

Definition testStep : value :=
  VObj [("name", VStr "Test"); ("run", VStr "npm test")].

(** [ci.yml]: pushes to [main], two jobs that install without a cache. *)
Definition ciWorkflow : Workflow :=
  mkWorkflow "ci.yml" 20
    (VObj [("on", VObj [("push", VObj [("branches", VArr [VStr "main"])])]);
           ("jobs",
            VObj [("test", VObj [("steps", VArr [installStep; testStep])]);
                  ("lint", VObj [("steps", VArr [installStep])])])]).

(** [on: push], the trigger given as a single event name. *)
Definition pushStringWorkflow : Workflow :=
  mkWorkflow "ci.yml" 100
    (VObj [("on", VStr "push");
           ("jobs", VObj [("test", VObj [("steps", VArr [testStep])])])]).

(** A workflow of 15 minutes run on pushes to any branch. *)
Definition quarterHourWorkflow : Workflow :=
  mkWorkflow "deploy.yml" 15
    (VObj [("on", VObj [("push", VObj [("branches", VArr [VStr "**"])])]);
           ("jobs", VObj [("deploy", VObj [("steps", VArr [testStep])])])]).

(** [on: [workflow_dispatch]], a list of events without push. *)
Definition dispatchListWorkflow : Workflow :=
  mkWorkflow "manual.yml" 300
    (VObj [("on", VArr [VStr "workflow_dispatch"]);
           ("jobs", VObj [("test", VObj [("steps", VArr [testStep])])])]).

(** A bare [push:] key, which parses to [null]. *)
Definition barePushWorkflow : Workflow :=
  mkWorkflow "ci.yml" 100
    (VObj [("on", VObj [("push", VNull)]);
           ("jobs", VObj [("test", VObj [("steps", VArr [testStep])])])]).

(** ** Cron fields as the schedule estimate meets them *)

(** A string without white space, as every field of a split cron text is. *)
Definition noSpace (s : string) : bool :=
  forallb (fun c => negb (Str.isSpace c)) (list_ascii_of_string s).

(** An integral number. *)
Definition isInteger (x : Q) : Prop := exists z : Z, x == inject_Z z.

(** A cron token free of the list, step and range separators. *)
Definition isPlain (s : string) : bool :=
  negb (Str.hasChar "," s) && negb (Str.hasChar "/" s)
  && negb (Str.hasChar "-" s).

(** ** Duration: what the properties speak about *)

(** The factor by which the matrix of a job multiplies its minutes; 1 for a
    job without a matrix. *)
Definition matrixFactor (job : value) : Q :=
  match Val.prop job "strategy" with
  | Some strategy =>
      if Val.truthy strategy then
        match Val.prop strategy "matrix" with
        | Some matrix =>
            if Val.truthy matrix then calculateMatrixSize matrix else 1
        | None => 1
        end
      else 1
  | None => 1
  end.

(** ** Recommendations: what the properties speak about *)

(** What every recommendation of a kind has in common. *)
Definition wellFormed (r : Recommendation) : Prop :=
  isInteger (potentialSavings r)
  /\ match recType r with
     | Caching =>
         job r <> None /\ priority r = High /\ savingsPerRun r = 3
         /\ 3 <= potentialSavings r
     | MatrixSize =>
         job r <> None /\ priority r <> Low /\ isInteger (savingsPerRun r)
     | Frequency =>
         job r = None /\ savingsPerRun r = 0
         /\ (priority r = Low -> 50 < potentialSavings r)
         /\ (priority r = High -> 500 < potentialSavings r)
     | Conditional =>
         job r = None /\ savingsPerRun r = 0 /\ priority r = Medium
         /\ 50 < potentialSavings r
     end.

(** A step of the documented shape uses a caching action. *)
Definition stepCaches (s : StepSpec) : bool :=
  match stepUses s with
  | Some uses =>
      Str.includes "actions/cache" uses
      || Str.includes "actions/setup-node" uses
  | None => false
  end.

(** A step of the documented shape runs an install command. *)
Definition stepInstalls (s : StepSpec) : bool :=
  match stepRun s with
  | Some run =>
      Str.includes "npm install" run
      || Str.includes "yarn install" run
      || Str.includes "pnpm install" run
      || Str.includes "pip install" run
  | None => false
  end.

Definition installsWithoutCache (j : JobSpec) : bool :=
  match jobSteps j with
  | Some steps => existsb stepInstalls steps && negb (existsb stepCaches steps)
  | None => false
  end.

Definition cachingAdvice (workflowName jobName : string) (runsPerMonth : Q)
  : Recommendation :=
  {| recType := Caching;
     workflow := workflowName;
     job := Some jobName;
     title := "Add dependency caching";
     potentialSavings := Num.ceil (3 * runsPerMonth);
     savingsPerRun := 3;
     priority := High |}.

Definition matrixAdvice (wf : Workflow) (jobName : string)
  (combinations runsPerMonth : Q) : Recommendation :=
  {| recType := MatrixSize;
     workflow := name wf;
     job := Some jobName;
     title := "Reduce matrix size";
     potentialSavings :=
       Num.ceil (estimatedDuration wf * (5 # 10) * runsPerMonth);
     savingsPerRun := Num.ceil (estimatedDuration wf * (5 # 10));
     priority := if Num.le 9 combinations then High else Medium |}.

(** The advice a job of the documented shape calls for: caching when it
    installs without a cache, a smaller matrix from 6 combinations on. *)
Definition jobAdvice (wf : Workflow) (runsPerMonth : Q)
  (entry : string * JobSpec) : list Recommendation :=
  ((if installsWithoutCache (snd entry)
    then [cachingAdvice (name wf) (fst entry) runsPerMonth] else [])
   ++ match jobMatrix (snd entry) with
      | Some axes =>
          if Num.le 6 (combinationCount axes)
          then [matrixAdvice wf (fst entry) (combinationCount axes) runsPerMonth]
          else []
      | None => []
      end)%list.

(** ** The git log: what the properties speak about *)

(** The output of [git log --oneline] for the given commit lines: each line
    is followed by a line feed. *)
Fixpoint logText (lines : list string) : string :=
  match lines with
  | [] => EmptyString
  | line :: rest => line ++ String lineFeed (logText rest)
  end.

Definition startsTidy (s : string) : bool :=
  match s with
  | EmptyString => false
  | String c _ => negb (Str.isSpace c)
  end.

Fixpoint endsTidy (s : string) : bool :=
  match s with
  | EmptyString => false
  | String c EmptyString => negb (Str.isSpace c)
  | String _ rest => endsTidy rest
  end.

(** A commit line: no line feed inside, and neither the first nor the last
    character is white space. *)
Definition commitLine (s : string) : bool :=
  startsTidy s && endsTidy s && negb (Str.hasChar lineFeed s).

(** The lines with a line feed between them. *)
Fixpoint joinLines (lines : list string) : string :=
  match lines with
  | [] => EmptyString
  | [line] => line
  | line :: rest => line ++ String lineFeed (joinLines rest)
  end.

(** ** Maturity: what the properties speak about *)

(** The place of a maturity level in the progression. *)
Definition rank (maturity : string) : nat :=
  if String.eqb maturity "production-ready" then 3
  else if String.eqb maturity "development" then 2
  else if String.eqb maturity "bootstrap" then 1
  else 0.

(** [later] has at least the files, tests, documentation and dependencies
    of [earlier]. *)
Definition grownFrom (earlier later : ProjectStats) : Prop :=
  (totalSourceFiles earlier <= totalSourceFiles later)%nat
  /\ (testFiles earlier <= testFiles later)%nat
  /\ (hasDocumentation earlier = true -> hasDocumentation later = true)
  /\ (hasDependencies earlier = true -> hasDependencies later = true).

(** The files with a source extension, whatever their name; and those
    among them that are mocks but not tests. *)
Definition countCodeFiles (extname : string -> string)
  (excluded : list string) (project : option (list DirEntry)) : nat :=
  countFilesRecursive extname
    {| extensions := sourceExtensions;
       excludeDirs := excluded;
       includePatterns := [];
       excludePatterns := [];
       maxDepth := 5 |}
    0 project.

Definition countMockFiles (extname : string -> string)
  (excluded : list string) (project : option (list DirEntry)) : nat :=
  countFilesRecursive extname
    {| extensions := sourceExtensions;
       excludeDirs := excluded;
       includePatterns := ["__mocks__"];
       excludePatterns := [".test."; ".spec."; "__tests__"];
       maxDepth := 5 |}
    0 project.

(** ** Run frequency: what the properties speak about *)

(** None of the six trigger kinds the estimate knows is declared. *)
Definition noKnownTrigger (triggers : list (string * value)) : bool :=
  negb (Val.hasOwn triggers "push")
  && negb (Val.hasOwn triggers "pull_request")
  && negb (Val.hasOwn triggers "schedule")
  && negb (Val.hasOwn triggers "workflow_dispatch")
  && negb (Val.hasOwn triggers "release")
  && negb (Val.hasOwn triggers "create").

(** The normalized triggers hold [workflow_dispatch] and none of the other
    recognised events. *)
Definition onlyManualTrigger (triggers : list (string * value)) : bool :=
  Val.hasOwn triggers "workflow_dispatch"
  && negb (Val.hasOwn triggers "push")
  && negb (Val.hasOwn triggers "pull_request")
  && negb (Val.hasOwn triggers "schedule")
  && negb (Val.hasOwn triggers "release")
  && negb (Val.hasOwn triggers "create").

(** Every property of a trigger object is [true], as in the object built
    from an event name or a list of event names. *)
Definition allTrue (triggers : list (string * value)) : Prop :=
  Forall (fun kv => snd kv = VBool true) triggers.

(** The element of an [on] list is the event name [key]. *)
Definition isEvent (key : string) (eventName : value) : bool :=
  match eventName with
  | VStr s => String.eqb s key
  | _ => false
  end.

(** A tuning value, when given, is not negative. *)
Definition notNegative (x : option Q) : Prop :=
  match x with
  | Some q => 0 <= q
  | None => True
  end.

(** The part of the running total that does not depend on the commit
    cadence: schedule, release-like and manual runs. *)
Definition cadenceFreeRuns (f : TriggerFlags) (triggers : list (string * value))
  (manualRunsPerMonth releaseRunsPerMonth : Q) : Q :=
  (if hasSchedule f then
     match estimateScheduleRunsPerMonth (Val.lookup triggers "schedule") with
     | Some scheduled => scheduled
     | None => 0
     end
   else 0)
  + (if hasTagPush f || hasRelease f || hasCreate f
     then releaseRunsPerMonth else 0)
  + (if hasWorkflowDispatch f && negb (hasCommitPush f)
        && negb (hasPullRequest f) && negb (hasSchedule f)
        && negb (hasTagPush f) && negb (hasRelease f) && negb (hasCreate f)
     then manualRunsPerMonth else 0).

(** * Properties *)

(** ** Arithmetic helpers *)

Lemma pow2_positive (k : Z) : 0 < Binary64.pow2 k.
Proof. apply Qpower_0_lt. reflexivity. Qed.

Lemma pow2_add (a b : Z) :
  Binary64.pow2 (a + b) == Binary64.pow2 a * Binary64.pow2 b.
Proof. apply Qpower_plus. discriminate. Qed.

Lemma pow2_of_Z (a : Z) : (0 <= a)%Z -> Binary64.pow2 a == inject_Z (2 ^ a).
Proof. intros Ha. unfold Binary64.pow2. now rewrite Zpower_Qpower. Qed.

(** The exponent chosen for a positive number is not too large. *)
Lemma exponent_below (x : Q) : 0 < x -> Binary64.pow2 (Binary64.exponent x) <= x.
Proof.
  intros Hx. unfold Binary64.exponent.
  set (k := (Z.log2 (Qnum x) - Z.log2 (Z.pos (Qden x)))%Z).
  destruct (Qle_bool (Binary64.pow2 k) x) eqn:Htest.
  - now apply Qle_bool_iff.
  - destruct x as [n d]. cbn [Qnum Qden] in k.
    assert (Hn : (0 < n)%Z) by (unfold Qlt in Hx; cbn in Hx; lia).
    pose proof (Z.log2_spec n Hn) as [Hlow _].
    pose proof (Z.log2_spec (Z.pos d) (Pos2Z.is_pos d)) as [_ Hhigh].
    pose proof (Z.log2_nonneg n) as Ha.
    pose proof (Z.log2_nonneg (Z.pos d)) as Hb.
    set (a := Z.log2 n) in *. set (b := Z.log2 (Z.pos d)) in *.
    assert (Hsplit : Binary64.pow2 a
                     == Binary64.pow2 (k - 1) * Binary64.pow2 (b + 1)).
    { rewrite <- pow2_add. unfold k.
      now replace (a - b - 1 + (b + 1))%Z with a by lia. }
    rewrite (Qmake_Qdiv n d). apply Qle_shift_div_l; [reflexivity|].
    apply Qle_trans with (Binary64.pow2 (k - 1) * Binary64.pow2 (b + 1)).
    + apply Qmult_le_l; [apply pow2_positive|].
      rewrite pow2_of_Z by lia. rewrite <- Zle_Qle.
      replace (b + 1)%Z with (Z.succ b) by lia. lia.
    + rewrite <- Hsplit, pow2_of_Z by lia. now rewrite <- Zle_Qle.
Qed.

Lemma nearestEven_bounds (x : Q) :
  0 <= x ->
  (0 <= Binary64.nearestEven x)%Z
  /\ inject_Z (Binary64.nearestEven x) <= x + (1 # 2).
Proof.
  intros Hx. unfold Binary64.nearestEven.
  pose proof (Qfloor_le x) as Hfloor.
  assert (Hpos : (0 <= Qfloor x)%Z).
  { change 0%Z with (Qfloor 0). now apply Qfloor_resp_le. }
  destruct (Qcompare (x - inject_Z (Qfloor x)) (1 # 2)) eqn:Hc.
  - apply Qeq_alt in Hc.
    destruct (Z.even (Qfloor x)); (split; [lia|]);
      try (rewrite inject_Z_plus; change (inject_Z 1) with 1); lra.
  - split; [lia|lra].
  - apply Qgt_alt in Hc.
    split; [lia|]. rewrite inject_Z_plus. change (inject_Z 1) with 1. lra.
Qed.

Lemma roundPositive_bounds (x : Q) :
  0 < x ->
  0 <= Binary64.roundPositive x
  /\ Binary64.roundPositive x <= x * (1 + Binary64.unitRoundoff).
Proof.
  intros Hx. unfold Binary64.roundPositive.
  set (e := (Binary64.exponent x - 52)%Z).
  pose proof (pow2_positive e) as He.
  set (s := x / Binary64.pow2 e).
  assert (Hs : x == s * Binary64.pow2 e).
  { unfold s. field. lra. }
  assert (Hbig : inject_Z (2 ^ 52) <= s).
  { unfold s. apply Qle_shift_div_l; [exact He|].
    rewrite <- pow2_of_Z by lia. rewrite <- pow2_add.
    replace (52 + e)%Z with (Binary64.exponent x) by (unfold e; lia).
    now apply exponent_below. }
  assert (Hs0 : 0 <= s).
  { apply Qle_trans with (inject_Z (2 ^ 52)); [discriminate|exact Hbig]. }
  destruct (nearestEven_bounds s Hs0) as [Hm0 Hm].
  split.
  - apply Qmult_le_0_compat; [|lra].
    change 0 with (inject_Z 0). now rewrite <- Zle_Qle.
  - apply Qle_trans with ((s + (1 # 2)) * Binary64.pow2 e).
    + apply Qmult_le_compat_r; [exact Hm|lra].
    + change (inject_Z (2 ^ 52)) with 4503599627370496 in Hbig.
      assert (Hhalf : (1 # 2) <= s * Binary64.unitRoundoff)
        by (unfold Binary64.unitRoundoff; lra).
      clearbody s. rewrite Hs. nra.
Qed.

(** Rounding keeps a number that is not negative so, and raises it by at
    most the unit roundoff, relatively. *)
Lemma round_bounds (x : Q) :
  0 <= x ->
  0 <= Binary64.round x /\ Binary64.round x <= x * (1 + Binary64.unitRoundoff).
Proof.
  intros Hx. unfold Binary64.round.
  destruct (Qcompare x 0) eqn:Hc.
  - apply Qeq_alt in Hc. split; [apply Qle_refl|]. rewrite Hc. discriminate.
  - apply Qlt_alt in Hc. lra.
  - apply Qgt_alt in Hc. now apply roundPositive_bounds.
Qed.

(** The rounding agrees with the multiplication of the kernel's binary64
    floats, here on the products of the path-filter savings for 24 and for
    60 runs. *)
Lemma binary64_products_agree :
  Binary64.ofFloat 0.2%float = Some (Binary64.literal (2 # 10))
  /\ Binary64.ofFloat (24 * 0.2)%float
     = Some (Binary64.times 24 (Binary64.literal (2 # 10)))
  /\ Binary64.ofFloat (15 * (24 * 0.2))%float
     = Some (Binary64.times 15
               (Binary64.times 24 (Binary64.literal (2 # 10))))
  /\ Binary64.ofFloat (20 * (60 * 0.2))%float
     = Some (Binary64.times 20
               (Binary64.times 60 (Binary64.literal (2 # 10))))
  /\ Binary64.ofFloat (100 * (30 * 0.2))%float
     = Some (Binary64.times 100
               (Binary64.times 30 (Binary64.literal (2 # 10)))).
Proof. repeat split; vm_compute; reflexivity. Qed.

Lemma max_ge_left (x y : Q) : x <= Num.max x y.
Proof. unfold Num.max. apply Q.le_max_l. Qed.

Lemma max_ge_right (x y : Q) : y <= Num.max x y.
Proof. unfold Num.max. apply Q.le_max_r. Qed.

Lemma max_absorb (x y : Q) : x <= y -> Num.max x y == y.
Proof. unfold Num.max. intros H. apply Q.max_r. exact H. Qed.

Lemma ceil_ge (x : Q) : x <= Num.ceil x.
Proof. unfold Num.ceil. apply Qle_ceiling. Qed.

Lemma ceil_compat (x y : Q) : x == y -> Num.ceil x = Num.ceil y.
Proof. unfold Num.ceil. intros H. now rewrite (Qceiling_comp x y H). Qed.

Lemma ceil_of_Z (z : Z) : Num.ceil (inject_Z z) = inject_Z z.
Proof. unfold Num.ceil. now rewrite Qceiling_Z. Qed.

Lemma lt_true (x y : Q) : Num.lt x y = true <-> x < y.
Proof.
  unfold Num.lt. rewrite negb_true_iff. split; intros H.
  - apply Qnot_le_lt. intros C. apply Qle_bool_iff in C. congruence.
  - destruct (Qle_bool y x) eqn:E; [|reflexivity].
    apply Qle_bool_iff in E. exfalso. exact (Qlt_not_le _ _ H E).
Qed.

Lemma lt_false (x y : Q) : Num.lt x y = false <-> y <= x.
Proof.
  unfold Num.lt. rewrite negb_false_iff. apply Qle_bool_iff.
Qed.

Lemma le_true (x y : Q) : Num.le x y = true <-> x <= y.
Proof. unfold Num.le. apply Qle_bool_iff. Qed.

Lemma le_false (x y : Q) : Num.le x y = false <-> y < x.
Proof.
  unfold Num.le. split; intros H.
  - apply Qnot_le_lt. intros C. apply Qle_bool_iff in C. congruence.
  - destruct (Qle_bool x y) eqn:E; [|reflexivity].
    apply Qle_bool_iff in E. exfalso. exact (Qlt_not_le _ _ H E).
Qed.

(** ** The runtime never throws on a truthy receiver *)

Lemma prop_defined (v : value) (key : string) :
  Val.truthy v = true -> exists r, Val.prop v key = Some r.
Proof.
  destruct v; simpl; intros H; try discriminate; eauto.
Qed.


(** ** Strings: characters of a split or trimmed string *)

Lemma hasChar_cons (c a : ascii) (s : string) :
  Str.hasChar c (String a s) = Ascii.eqb c a || Str.hasChar c s.
Proof.
  unfold Str.hasChar. simpl.
  destruct (ascii_dec c a) as [->|N].
  - rewrite Ascii.eqb_refl. now destruct s.
  - apply Ascii.eqb_neq in N. rewrite N. reflexivity.
Qed.

Lemma hasChar_empty (c : ascii) : Str.hasChar c EmptyString = false.
Proof. reflexivity. Qed.

Lemma hasChar_append (c : ascii) (s t : string) :
  Str.hasChar c (s ++ t) = Str.hasChar c s || Str.hasChar c t.
Proof.
  induction s as [|a s IH]; [reflexivity|].
  change (String a s ++ t)%string with (String a (s ++ t)).
  rewrite !hasChar_cons, IH. now rewrite orb_assoc.
Qed.

Lemma hasChar_trimStart (c : ascii) (s : string) :
  Str.hasChar c s = false -> Str.hasChar c (Str.trimStart s) = false.
Proof.
  induction s as [|a s IH]; intros H; [reflexivity|].
  simpl. destruct (Str.isSpace a); [|exact H].
  rewrite hasChar_cons in H. apply orb_false_iff in H. now apply IH.
Qed.

Lemma hasChar_trimEnd (c : ascii) (s : string) :
  Str.hasChar c s = false -> Str.hasChar c (Str.trimEnd s) = false.
Proof.
  induction s as [|a s IH]; intros H; [reflexivity|].
  rewrite hasChar_cons in H. apply orb_false_iff in H. destruct H as [Ha Hs].
  simpl. destruct (Str.isSpace a && Str.isEmpty (Str.trimEnd s)).
  - reflexivity.
  - rewrite hasChar_cons, Ha. simpl. now apply IH.
Qed.

Lemma hasChar_trim (c : ascii) (s : string) :
  Str.hasChar c s = false -> Str.hasChar c (Str.trim s) = false.
Proof.
  intros H. unfold Str.trim. now apply hasChar_trimEnd, hasChar_trimStart.
Qed.

Lemma splitAcc_parts (sep : ascii) (s cur p : string) :
  Str.hasChar sep cur = false ->
  In p (Str.splitAcc sep cur s) -> Str.hasChar sep p = false.
Proof.
  revert cur. induction s as [|a s IH]; intros cur Hcur Hin.
  - simpl in Hin. destruct Hin as [<-|[]]. exact Hcur.
  - simpl in Hin. destruct (Ascii.eqb a sep) eqn:E.
    + destruct Hin as [<-|Hin]; [exact Hcur|].
      now apply (IH EmptyString).
    + apply (IH (cur ++ String a EmptyString)%string); [|exact Hin].
      rewrite hasChar_append, Hcur, hasChar_cons, hasChar_empty.
      rewrite Ascii.eqb_sym, E. reflexivity.
Qed.

Lemma split_parts (sep : ascii) (s p : string) :
  In p (Str.split sep s) -> Str.hasChar sep p = false.
Proof. apply splitAcc_parts. reflexivity. Qed.

Lemma splitAcc_nonempty (sep : ascii) (s cur : string) :
  Str.splitAcc sep cur s <> [].
Proof.
  revert cur. induction s as [|a s IH]; intros cur; simpl.
  - discriminate.
  - destruct (Ascii.eqb a sep); [discriminate|apply IH].
Qed.

(** ** Cron fields *)

Lemma cronRangeSlots_ge_1 (field : string) : 1 <= cronRangeSlots field.
Proof.
  unfold cronRangeSlots.
  destruct (Str.hasChar "-" field); [|apply Qle_refl].
  destruct (numberOf _); [|apply Qle_refl].
  destruct (numberOf _); [|apply Qle_refl].
  destruct (Num.lt _ _); [apply Qle_refl|apply max_ge_left].
Qed.

Lemma cronSingleSlots_ge_1 (field : string) (maxSlots : Q) :
  1 <= cronSingleSlots field maxSlots.
Proof.
  unfold cronSingleSlots.
  destruct (Str.hasChar "/" field); [|apply cronRangeSlots_ge_1].
  destruct (numberOf _) as [step|]; [|apply Qle_refl].
  destruct (Num.le step 0); [apply Qle_refl|].
  destruct (_ || _); [apply max_ge_left|].
  destruct (Str.hasChar "-" _); [|apply cronRangeSlots_ge_1].
  destruct (numberOf _); [|apply Qle_refl].
  destruct (numberOf _); [|apply Qle_refl].
  destruct (Num.lt _ _); [apply Qle_refl|apply max_ge_left].
Qed.

Lemma fold_sum_ge {A : Type} (f : A -> Q) (l : list A) (acc : Q) :
  (forall x, In x l -> 1 <= f x) ->
  acc + Num.ofNat (length l) <= fold_left (fun sum x => sum + f x) l acc.
Proof.
  revert acc. induction l as [|x l IH]; intros acc H.
  - simpl. unfold Num.ofNat. simpl. rewrite Qplus_0_r. apply Qle_refl.
  - simpl fold_left. eapply Qle_trans; [|apply IH; intros y Hy; apply H; now right].
    assert (Hx : 1 <= f x) by (apply H; now left).
    unfold Num.ofNat. simpl length. rewrite Nat2Z.inj_succ. unfold Z.succ.
    rewrite inject_Z_plus.
    setoid_replace (acc + (inject_Z (Z.of_nat (length l)) + inject_Z 1))
      with (acc + 1 + inject_Z (Z.of_nat (length l))) by ring.
    apply Qplus_le_l. apply Qplus_le_r. exact Hx.
Qed.

Lemma fold_sum_ext {A : Type} (f g : A -> Q) (l : list A) (acc : Q) :
  (forall x, In x l -> f x = g x) ->
  fold_left (fun sum x => sum + f x) l acc
  = fold_left (fun sum x => sum + g x) l acc.
Proof.
  revert acc. induction l as [|x l IH]; intros acc H; [reflexivity|].
  simpl. rewrite (H x) by now left. apply IH. intros y Hy. apply H. now right.
Qed.

Lemma countCronFieldSlotsFuel_ge_1 (fuel : nat) (field : string) (maxSlots : Q) :
  1 <= countCronFieldSlotsFuel fuel field maxSlots.
Proof.
  revert field. induction fuel as [|fuel IH]; intros field; simpl.
  - apply Qle_refl.
  - destruct (_ || _); [apply Qle_refl|].
    destruct (Str.hasChar "," field); [|apply cronSingleSlots_ge_1].
    eapply Qle_trans; [|apply fold_sum_ge; intros; apply IH].
    rewrite Qplus_0_l, length_map.
    destruct (Str.split "," field) eqn:E.
    + exfalso. exact (splitAcc_nonempty _ _ _ E).
    + simpl length. unfold Num.ofNat.
      change 1 with (inject_Z 1). rewrite <- Zle_Qle. lia.
Qed.

Lemma countCronFieldSlots_ge_1 (field : string) (maxSlots : Q) :
  1 <= countCronFieldSlots field maxSlots.
Proof. apply countCronFieldSlotsFuel_ge_1. Qed.

(** With no comma in the field one call suffices, whatever the fuel. *)
Lemma countCronFieldSlotsFuel_simple (fuel : nat) (field : string) (maxSlots : Q) :
  Str.hasChar "," field = false ->
  countCronFieldSlotsFuel (S fuel) field maxSlots
  = if Str.isEmpty field || String.eqb field "*" then 1
    else cronSingleSlots field maxSlots.
Proof. intros H. simpl. now rewrite H. Qed.

(** The recursive equation of the source function. *)
Lemma countCronFieldSlots_unfold (field : string) (maxSlots : Q) :
  countCronFieldSlots field maxSlots
  = if Str.isEmpty field || String.eqb field "*" then 1
    else if Str.hasChar "," field then
      fold_left
        (fun sum part => sum + countCronFieldSlots part maxSlots)
        (map Str.trim (Str.split "," field)) 0
    else cronSingleSlots field maxSlots.
Proof.
  unfold countCronFieldSlots at 1. simpl countCronFieldSlotsFuel.
  destruct (_ || _) eqn:E1; [reflexivity|].
  destruct (Str.hasChar "," field) eqn:E2; [|reflexivity].
  destruct field as [|a rest]; [discriminate|].
  apply fold_sum_ext. intros part Hin.
  apply in_map_iff in Hin. destruct Hin as [raw [<- Hraw]].
  assert (Hno : Str.hasChar "," (Str.trim raw) = false)
    by (apply hasChar_trim; exact (split_parts _ _ _ Hraw)).
  unfold countCronFieldSlots. simpl String.length.
  now rewrite !countCronFieldSlotsFuel_simple.
Qed.

(** ** Schedule entries *)

Lemma entryCron_total (entry : value) : exists cron, entryCron entry = Some cron.
Proof.
  unfold entryCron. destruct (Val.truthy entry) eqn:E; [|eauto].
  destruct (prop_defined entry "cron" E) as [c ->]. eauto.
Qed.

Lemma product_ge_1 (x y : Q) : 1 <= x -> 1 <= y -> 1 <= x * y.
Proof.
  intros Hx Hy.
  setoid_replace 1 with (1 * 1) at 1 by ring.
  apply Qle_trans with (x * 1).
  - apply Qmult_le_compat_r; [exact Hx|discriminate].
  - rewrite !(Qmult_comm x). apply Qmult_le_compat_r; [exact Hy|].
    apply Qle_trans with 1; [discriminate|exact Hx].
Qed.

Lemma baseRunsOf_ge_1 (dom mo dow : string) : 1 <= baseRunsOf dom mo dow.
Proof.
  unfold baseRunsOf.
  destruct (negb _); [discriminate|].
  destruct (negb _); [discriminate|].
  destruct (negb _); discriminate.
Qed.

Lemma scheduleEntryRuns_total (entry : value) :
  exists r, scheduleEntryRuns entry = Some r /\ 1 <= r.
Proof.
  unfold scheduleEntryRuns.
  destruct (entryCron_total entry) as [cron ->].
  destruct (Str.splitSpaces cron) as [|f1 [|f2 [|f3 [|f4 [|f5 [|f6 l]]]]]];
    try (exists 4; split; [reflexivity|discriminate]).
  eexists. split; [reflexivity|]. apply max_ge_left.
Qed.

Lemma entriesTotal_app (a b : list value) :
  entriesTotal (a ++ b) == entriesTotal a + entriesTotal b.
Proof.
  induction a as [|e a IH]; simpl.
  - ring.
  - destruct (scheduleEntryRuns e); rewrite IH; ring.
Qed.

Lemma entriesTotal_nonneg (l : list value) : 0 <= entriesTotal l.
Proof.
  induction l as [|e l IH]; simpl; [discriminate|].
  destruct (scheduleEntryRuns_total e) as [r [-> Hr]].
  setoid_replace 0 with (0 + 0) by ring.
  apply Qplus_le_compat; [|exact IH].
  apply Qle_trans with 1; [discriminate|exact Hr].
Qed.

Lemma addScheduleRuns_total (schedules : list value) (total : Q) :
  exists r, addScheduleRuns total schedules = Some r
            /\ r == total + entriesTotal schedules.
Proof.
  revert total. induction schedules as [|e l IH]; intros total; simpl.
  - exists total. split; [reflexivity|ring].
  - destruct (scheduleEntryRuns_total e) as [r [-> _]].
    destruct (IH (total + r)) as [r' [-> Hr']].
    exists r'. split; [reflexivity|]. rewrite Hr'. ring.
Qed.

Lemma estimateSchedule_array (items : list value) :
  estimateScheduleRunsPerMonth (VArr items) = addScheduleRuns 0 items.
Proof. destruct items; reflexivity. Qed.

Lemma estimateSchedule_total (scheduleConfig : value) :
  exists r, estimateScheduleRunsPerMonth scheduleConfig = Some r /\ 0 <= r.
Proof.
  assert (H : forall l, exists r, addScheduleRuns 0 l = Some r /\ 0 <= r).
  { intros l. destruct (addScheduleRuns_total l 0) as [r [E Hr]].
    exists r. split; [exact E|]. rewrite Hr, Qplus_0_l.
    apply entriesTotal_nonneg. }
  unfold estimateScheduleRunsPerMonth.
  match goal with
  | |- context [match ?l with [] => Some 0 | _ :: _ => _ end] =>
      destruct l as [|e l'] eqn:E
  end.
  - exists 0. split; [reflexivity|discriminate].
  - apply H.
Qed.

(** C5. Cron estimation never fails: [estimateScheduleRunsPerMonth] returns
    a number for every schedule configuration; an entry whose cron text does
    not split into exactly five white-space separated fields adds the fixed
    amount 4 to the total; and a field [base/step] whose step is not a
    finite number or is not positive counts as one slot. *)
Theorem cron_estimation_never_fails :
  (forall scheduleConfig,
      exists r, estimateScheduleRunsPerMonth scheduleConfig = Some r)
  /\ (forall before entry after cron,
         entryCron entry = Some cron ->
         length (Str.splitSpaces cron) <> 5%nat ->
         exists r r',
           estimateScheduleRunsPerMonth (VArr (before ++ entry :: after)) = Some r
           /\ estimateScheduleRunsPerMonth (VArr (before ++ after)) = Some r'
           /\ r == r' + 4)
  /\ (forall field maxSlots,
         Str.hasChar "," field = false ->
         Str.hasChar "/" field = true ->
         (forall step,
             numberOf (nth_error (Str.split "/" field) 1) = Some step ->
             step <= 0) ->
         countCronFieldSlots field maxSlots = 1).
Proof.
  split; [|split].
  - intros cfg. destruct (estimateSchedule_total cfg) as [r [E _]]. eauto.
  - intros before entry after cron Hcron Hlen.
    rewrite !estimateSchedule_array.
    destruct (addScheduleRuns_total (before ++ entry :: after) 0) as [r [-> Hr]].
    destruct (addScheduleRuns_total (before ++ after) 0) as [r' [-> Hr']].
    exists r, r'. repeat split.
    rewrite Hr, Hr', !entriesTotal_app. simpl entriesTotal.
    assert (E : scheduleEntryRuns entry = Some 4).
    { unfold scheduleEntryRuns. rewrite Hcron.
      destruct (Str.splitSpaces cron) as [|f1 [|f2 [|f3 [|f4 [|f5 [|f6 l]]]]]];
        try reflexivity.
      exfalso. apply Hlen. reflexivity. }
    rewrite E. ring.
  - intros field maxSlots Hcomma Hslash Hstep.
    rewrite countCronFieldSlots_unfold, Hcomma.
    destruct (Str.isEmpty field || String.eqb field "*"); [reflexivity|].
    unfold cronSingleSlots. rewrite Hslash.
    destruct (numberOf _) as [step|]; [|reflexivity].
    assert (L : Num.le step 0 = true) by (apply le_true, Hstep; reflexivity).
    now rewrite L.
Qed.

Lemma cron_estimation_never_fails_witness :
  (exists r r',
      estimateScheduleRunsPerMonth
        (VArr ([] ++ VObj [("cron", VStr "@daily")] :: [])) = Some r
      /\ estimateScheduleRunsPerMonth (VArr ([] ++ [])) = Some r'
      /\ r == r' + 4)
  /\ countCronFieldSlots "*/0" 60 = 1.
Proof.
  split.
  - apply (proj1 (proj2 cron_estimation_never_fails)
             [] (VObj [("cron", VStr "@daily")]) [] "@daily").
    + reflexivity.
    + vm_compute. lia.
  - apply (proj2 (proj2 cron_estimation_never_fails) "*/0" 60).
    + reflexivity.
    + reflexivity.
    + intros step H. vm_compute in H. injection H as <-. apply Qle_refl.
Defined.

Lemma baseRunsOf_baseline (dom mo dow : string) :
  baseRunsOf dom mo dow = baselineCadence dom mo dow.
Proof.
  unfold baseRunsOf, baselineCadence.
  destruct (String.eqb dow "*"), (String.eqb dom "*"), (String.eqb mo "*");
    reflexivity.
Qed.

(** C4. A single all-[*] cron entry gives 30 runs a month, the weekly cron
    [0 2 * * 0] gives 4 and the monthly cron [0 0 1 * *] gives 1; in general
    a single five-field entry gives the baseline cadence (30, 4 or 1) times
    the minute and hour slot counts, rounded up. *)
Theorem schedule_runs_follow_baseline_cadence :
  estimateScheduleRunsPerMonth (singleCron "* * * * *") = Some 30
  /\ estimateScheduleRunsPerMonth (singleCron "0 2 * * 0") = Some 4
  /\ estimateScheduleRunsPerMonth (singleCron "0 0 1 * *") = Some 1
  /\ (forall entry cron minute hour dayOfMonth month dayOfWeek,
         entryCron entry = Some cron ->
         Str.splitSpaces cron = [minute; hour; dayOfMonth; month; dayOfWeek] ->
         exists r,
           estimateScheduleRunsPerMonth (VArr [entry]) = Some r
           /\ r == Num.ceil (baselineCadence dayOfMonth month dayOfWeek
                             * (countCronFieldSlots minute 60
                                * countCronFieldSlots hour 24))).
Proof.
  split; [reflexivity|]. split; [reflexivity|]. split; [reflexivity|].
  intros entry cron mi h dom mo dow Hcron Hsplit.
  rewrite estimateSchedule_array.
  unfold addScheduleRuns, scheduleEntryRuns. rewrite Hcron, Hsplit.
  eexists. split; [reflexivity|].
  rewrite Qplus_0_l, baseRunsOf_baseline.
  pose proof (countCronFieldSlots_ge_1 mi 60) as Hm.
  pose proof (countCronFieldSlots_ge_1 h 24) as Hh.
  pose proof (product_ge_1 _ _ Hm Hh) as Hp.
  assert (Hb : 1 <= baselineCadence dom mo dow)
    by (rewrite <- baseRunsOf_baseline; apply baseRunsOf_ge_1).
  rewrite (ceil_compat _ _
             (Qmult_comp _ _ (Qeq_refl _) _ _ (max_absorb _ _ Hp))).
  apply max_absorb.
  eapply Qle_trans; [|apply ceil_ge].
  now apply product_ge_1.
Qed.

Lemma schedule_runs_follow_baseline_cadence_witness :
  exists r,
    estimateScheduleRunsPerMonth (VArr [VObj [("cron", VStr "*/15 9-17 * * 1-5")]])
    = Some r
    /\ r == Num.ceil (baselineCadence "*" "*" "1-5"
                      * (countCronFieldSlots "*/15" 60
                         * countCronFieldSlots "9-17" 24)).
Proof.
  apply (proj2 (proj2 (proj2 schedule_runs_follow_baseline_cadence))
           (VObj [("cron", VStr "*/15 9-17 * * 1-5")]) "*/15 9-17 * * 1-5");
    reflexivity.
Defined.

(** ** Run frequency *)

Lemma pushIsTagOnly_total (triggers : list (string * value)) :
  exists b, pushIsTagOnly triggers = Some b.
Proof.
  unfold pushIsTagOnly.
  match goal with
  | |- context [Val.truthy ?c] => set (pushConfig := c)
  end.
  destruct (Val.truthy pushConfig) eqn:T; simpl; [|eauto].
  destruct (prop_defined pushConfig "tags" T) as [tags ->].
  destruct (prop_defined pushConfig "branches" T) as [branches ->].
  destruct (prop_defined pushConfig "branches-ignore" T) as [ignore ->].
  destruct tags as [| | | | |[|t ts]| |]; eauto.
  destruct (Val.truthy branches); eauto.
Qed.

Lemma triggerFlags_total (triggers : list (string * value)) :
  exists f, triggerFlags triggers = Some f.
Proof.
  unfold triggerFlags. destruct (pushIsTagOnly_total triggers) as [b ->]. eauto.
Qed.

Lemma sumRuns_total (f : TriggerFlags) (triggers : list (string * value))
  (commitsPerMonth pullRequestFactor manualRuns releaseRuns : Q) :
  exists r,
    sumRuns f triggers commitsPerMonth pullRequestFactor manualRuns releaseRuns
    = Some r.
Proof.
  unfold sumRuns. destruct (hasSchedule f); [|eauto].
  destruct (estimateSchedule_total (Val.lookup triggers "schedule"))
    as [s [-> _]].
  eauto.
Qed.

Lemma workflowTriggers_total (workflow : value) :
  exists triggers, workflowTriggers workflow = Some triggers.
Proof.
  unfold workflowTriggers. destruct (Val.truthy workflow) eqn:T; [|eauto].
  destruct (prop_defined _ "on" T) as [onConfig ->]. eauto.
Qed.

Lemma estimateWorkflowRunsPerMonth_total
  (workflow : value) (commitsPerDay : Q) (options : Options) :
  exists r, estimateWorkflowRunsPerMonth workflow commitsPerDay options = Some r
            /\ 1 <= r.
Proof.
  unfold estimateWorkflowRunsPerMonth, runsFromTriggers.
  destruct (workflowTriggers_total workflow) as [triggers ->].
  destruct (triggerFlags_total triggers) as [f ->].
  match goal with
  | |- context [sumRuns f ?t ?c ?p ?m ?r] =>
      destruct (sumRuns_total f t c p m r) as [runs ->]
  end.
  eexists. split; [reflexivity|apply max_ge_left].
Qed.

(** C2. For every workflow, trigger declaration present or not, every
    tuning and every commit cadence [commitsPerDay >= 0],
    [estimateWorkflowRunsPerMonth] returns a number that is at least 1. *)
Theorem runs_per_month_at_least_one
  (workflow : value) (commitsPerDay : Q) (options : Options) :
  0 <= commitsPerDay ->
  exists r,
    estimateWorkflowRunsPerMonth workflow commitsPerDay options = Some r
    /\ 1 <= r.
Proof. intros _. apply estimateWorkflowRunsPerMonth_total. Qed.

Lemma runs_per_month_at_least_one_witness :
  0 <= 0
  /\ (exists r, estimateWorkflowRunsPerMonth (VObj []) 0 noOptions = Some r
                /\ 1 <= r)
  /\ (exists r,
         estimateWorkflowRunsPerMonth (VObj [("on", VObj [])]) 0 noOptions
         = Some r
         /\ 1 <= r).
Proof.
  split; [apply Qle_refl|].
  split; apply runs_per_month_at_least_one; apply Qle_refl.
Defined.

Lemma prop_object_inv (v : value) (key : string) (props : list (string * value)) :
  Val.prop v key = Some (VObj props) ->
  exists fields, v = VObj fields /\ Val.lookup fields key = VObj props.
Proof.
  destruct v; simpl; try discriminate.
  - destruct (String.eqb key "push"); discriminate.
  - intros H. injection H as H. eauto.
Qed.

(** C6. With the default tuning, a workflow whose only trigger is a push
    that lists tag patterns and no branch patterns is estimated at exactly
    one run a month, whatever the commit cadence. *)
Theorem tag_only_push_runs_once
  (workflow : value) (pushConfig : list (string * value))
  (tag : value) (tags : list value) (commitsPerDay : Q) :
  Val.prop workflow "on" = Some (VObj [("push", VObj pushConfig)]) ->
  Val.lookup pushConfig "tags" = VArr (tag :: tags) ->
  Val.truthy (Val.lookup pushConfig "branches") = false ->
  Val.truthy (Val.lookup pushConfig "branches-ignore") = false ->
  estimateWorkflowRunsPerMonth workflow commitsPerDay noOptions = Some 1.
Proof.
  intros Hon Htags Hbranches Hignore.
  destruct (prop_object_inv _ _ _ Hon) as [fields [-> Hfields]].
  unfold estimateWorkflowRunsPerMonth, runsFromTriggers, workflowTriggers.
  change (Val.truthy (VObj fields)) with true. cbv iota. rewrite Hon.
  assert (Htag : pushIsTagOnly (normalizeTriggers (VObj [("push", VObj pushConfig)]))
                 = Some true).
  { unfold pushIsTagOnly. simpl. rewrite Htags, Hbranches, Hignore. reflexivity. }
  unfold triggerFlags. rewrite Htag.
  reflexivity.
Qed.

Lemma tag_only_push_runs_once_witness :
  estimateWorkflowRunsPerMonth
    (VObj [("on", VObj [("push", VObj [("tags", VArr [VStr "v*"])])])])
    3 noOptions = Some 1.
Proof.
  apply (tag_only_push_runs_once _ [("tags", VArr [VStr "v*"])] (VStr "v*") []);
    reflexivity.
Defined.

Lemma finishRuns_compat (commitsPerMonth x y : Q) :
  x == y -> finishRuns commitsPerMonth x = finishRuns commitsPerMonth y.
Proof.
  intros H. unfold finishRuns, Num.isZero.
  rewrite (Qeqb_comp x y H 0 0 (Qeq_refl 0)).
  destruct (Qeq_bool y 0); [reflexivity|].
  now rewrite (ceil_compat x y H).
Qed.

Lemma sumRuns_release_once
  (f : TriggerFlags) (triggers : list (string * value))
  (commitsPerMonth pullRequestFactor manualRuns releaseRuns : Q) :
  (1 <= releaseTypesPresent f)%nat ->
  exists total,
    sumRuns f triggers commitsPerMonth pullRequestFactor manualRuns releaseRuns
    = Some total
    /\ total == otherRuns f triggers commitsPerMonth pullRequestFactor
                + releaseRuns.
Proof.
  intros Hpresent. unfold sumRuns, otherRuns.
  destruct (estimateSchedule_total (Val.lookup triggers "schedule"))
    as [scheduled [-> _]].
  destruct f as [cp pr sc tp rl cr wd].
  unfold releaseTypesPresent in Hpresent. simpl in *.
  destruct tp, rl, cr; simpl in Hpresent; try lia;
    destruct cp, pr, sc, wd; simpl;
    (eexists; split; [reflexivity|ring]).
Qed.

(** C1 (as the code has it). When at least one of tag-only push, [release]
    and [create] is present, [estimateWorkflowRunsPerMonth] adds
    [releaseRunsPerMonth] exactly once to the runs of the other triggers,
    however many of the three are present. *)
Theorem release_runs_added_once
  (workflow : value) (commitsPerDay : Q) (options : Options)
  (triggers : list (string * value)) (f : TriggerFlags) :
  workflowTriggers workflow = Some triggers ->
  triggerFlags triggers = Some f ->
  (1 <= releaseTypesPresent f)%nat ->
  let commitsPerMonth := Num.ceil (commitsPerDay * DAYS_PER_MONTH) in
  let pullRequestFactor :=
    orDefault (optPullRequestFactor options) DEFAULT_PULL_REQUEST_FACTOR in
  let releaseRunsPerMonth :=
    orDefault (optReleaseRunsPerMonth options) DEFAULT_RELEASE_RUNS_PER_MONTH in
  estimateWorkflowRunsPerMonth workflow commitsPerDay options
  = Some (finishRuns commitsPerMonth
            (otherRuns f triggers commitsPerMonth pullRequestFactor
             + releaseRunsPerMonth)).
Proof.
  intros Htriggers Hflags Hpresent cpm prf rel.
  unfold estimateWorkflowRunsPerMonth, runsFromTriggers.
  rewrite Htriggers, Hflags.
  destruct (sumRuns_release_once f triggers cpm prf
              (orDefault (optManualRunsPerMonth options)
                 DEFAULT_MANUAL_RUNS_PER_MONTH) rel Hpresent)
    as [total [E Htotal]].
  fold cpm prf rel. rewrite E.
  now rewrite (finishRuns_compat cpm _ _ Htotal).
Qed.

Lemma release_runs_added_once_witness :
  estimateWorkflowRunsPerMonth
    (VObj [("on", VObj [("release", VBool true); ("create", VBool true)])])
    3 (mkOptions None None (Some 5))
  = Some 5.
Proof.
  apply (release_runs_added_once
           (VObj [("on", VObj [("release", VBool true); ("create", VBool true)])])
           3 (mkOptions None None (Some 5))
           [("release", VBool true); ("create", VBool true)]
           (mkFlags false false false false true true false)).
  - reflexivity.
  - reflexivity.
  - unfold releaseTypesPresent. simpl. lia.
Defined.

(** C1 (as stated) fails: with [release] and [create] both configured the
    estimate holds one [releaseRunsPerMonth], not one per type present. *)
Lemma release_and_create_not_added_per_type :
  let workflow :=
    VObj [("on", VObj [("release", VBool true); ("create", VBool true)])] in
  let options := mkOptions None None (Some 5) in
  let commitsPerMonth := Num.ceil (3 * DAYS_PER_MONTH) in
  exists triggers f r,
    workflowTriggers workflow = Some triggers
    /\ triggerFlags triggers = Some f
    /\ releaseTypesPresent f = 2%nat
    /\ estimateWorkflowRunsPerMonth workflow 3 options = Some r
    /\ r == 5
    /\ ~ r == finishRuns commitsPerMonth
                (otherRuns f triggers commitsPerMonth DEFAULT_PULL_REQUEST_FACTOR
                 + Num.ofNat (releaseTypesPresent f) * 5).
Proof.
  exists [("release", VBool true); ("create", VBool true)],
    (mkFlags false false false false true true false), 5.
  repeat split; try reflexivity.
  vm_compute. discriminate.
Qed.

(** ** Monthly cost *)

(** C7. One workflow of 100 minutes a run with no trigger declaration, at
    one commit a day: 3000 minutes a month, 1000 minutes over the free
    tier's limit of 2000, and a free-tier overage cost of exactly 8, that is
    1000 minutes at 0.008 a minute. *)
Theorem monthly_cost_of_one_hundred_minute_workflow (workflowName : string) :
  exists report,
    calculateMonthlyCosts [mkWorkflow workflowName 100 VUndefined] 1 noOptions
    = Some report
    /\ totalMinutesPerMonth report == 3000
    /\ limit (freeTier report) == 2000
    /\ overage (freeTier report) == 1000
    /\ cost (freeTier report) == 1000 * (8 # 1000)
    /\ cost (freeTier report) == 8.
Proof.
  eexists. split; [reflexivity|].
  repeat split; reflexivity.
Qed.

(** The same figures in binary64 arithmetic, which the runtime uses: the
    products of C7 are exact there too, [0.008] being the nearest double. *)
Lemma monthly_cost_in_binary64 :
  PrimFloat.eqb (PrimFloat.mul 100 30) 3000 = true
  /\ PrimFloat.eqb (PrimFloat.sub 3000 2000) 1000 = true
  /\ PrimFloat.eqb (PrimFloat.mul 1000 0.008) 8 = true.
Proof. repeat split; reflexivity. Qed.

(** ** Sorting by a numeric key, highest first *)

Section SortByKey.

Context {A : Type}.
Variable key : A -> Q.

Let cmp (a b : A) : Q := key b - key a.
Let descending (a b : A) : Prop := key b <= key a.
Let hasKey (k : Q) (a : A) : bool := Qeq_bool (key a) k.

Lemma cmp_positive (x y : A) : Num.lt 0 (cmp x y) = true <-> key x < key y.
Proof.
  rewrite lt_true. unfold cmp. split; intros H.
  - apply Qplus_lt_l with (z := - key x).
    rewrite Qplus_opp_r. exact H.
  - apply Qplus_lt_l with (z := - key x) in H.
    rewrite Qplus_opp_r in H. exact H.
Qed.

Lemma cmp_not_positive (x y : A) :
  Num.lt 0 (cmp x y) = false <-> key y <= key x.
Proof.
  split; intros H.
  - apply Qnot_lt_le. intros C. apply cmp_positive in C. congruence.
  - destruct (Num.lt 0 (cmp x y)) eqn:E; [|reflexivity].
    apply cmp_positive in E. exfalso. exact (Qlt_not_le _ _ E H).
Qed.

Lemma insertBy_permutation (x : A) (l : list A) :
  Permutation (x :: l) (insertBy cmp x l).
Proof.
  induction l as [|y l IH]; simpl; [apply Permutation_refl|].
  destruct (Num.lt 0 (cmp x y)); [|apply Permutation_refl].
  eapply Permutation_trans; [apply perm_swap|].
  now apply perm_skip.
Qed.

Lemma sortBy_permutation (l : list A) : Permutation l (sortBy cmp l).
Proof.
  induction l as [|x l IH]; simpl; [apply Permutation_refl|].
  eapply Permutation_trans; [|apply insertBy_permutation].
  now apply perm_skip.
Qed.

Lemma insertBy_sorted (x : A) (l : list A) :
  StronglySorted descending l -> StronglySorted descending (insertBy cmp x l).
Proof.
  induction l as [|y l IH]; intros Hs; simpl.
  - constructor; constructor.
  - inversion Hs as [|y' l' Hl Hy]; subst.
    destruct (Num.lt 0 (cmp x y)) eqn:E.
    + apply cmp_positive in E. constructor; [now apply IH|].
      apply (Permutation_Forall (insertBy_permutation x l)).
      constructor; [apply Qlt_le_weak; exact E|exact Hy].
    + apply cmp_not_positive in E. constructor; [exact Hs|].
      constructor; [exact E|].
      eapply Forall_impl; [|exact Hy].
      intros z Hz. unfold descending in *. now apply Qle_trans with (key y).
Qed.

Lemma sortBy_sorted (l : list A) : StronglySorted descending (sortBy cmp l).
Proof.
  induction l as [|x l IH]; simpl; [constructor|now apply insertBy_sorted].
Qed.

(** Elements with the same key keep their relative order. *)
Lemma insertBy_stable (k : Q) (x : A) (l : list A) :
  filter (hasKey k) (insertBy cmp x l) = filter (hasKey k) (x :: l).
Proof.
  induction l as [|y l IH]; [reflexivity|].
  simpl insertBy. destruct (Num.lt 0 (cmp x y)) eqn:E; [|reflexivity].
  apply cmp_positive in E.
  simpl filter in *. rewrite IH.
  destruct (hasKey k x) eqn:Hx, (hasKey k y) eqn:Hy; try reflexivity.
  exfalso. unfold hasKey in *.
  apply Qeq_bool_iff in Hx. apply Qeq_bool_iff in Hy.
  rewrite Hx, Hy in E. exact (Qlt_irrefl _ E).
Qed.

Lemma sortBy_stable (k : Q) (l : list A) :
  filter (hasKey k) (sortBy cmp l) = filter (hasKey k) l.
Proof.
  induction l as [|x l IH]; [reflexivity|].
  simpl sortBy. rewrite insertBy_stable. simpl. now rewrite IH.
Qed.

End SortByKey.

(** C9. The list returned by [analyzeOptimizations] holds the
    recommendations the detectors produced, ordered by descending
    [potentialSavings]; recommendations with equal savings keep the order in
    which they were produced. *)
Theorem recommendations_sorted_by_savings
  (workflows : list Workflow) (commitsPerDay : Q)
  (recommendations : list Recommendation) :
  analyzeOptimizations workflows commitsPerDay = Some recommendations ->
  exists found,
    collectRecommendations commitsPerDay workflows = Some found
    /\ Permutation found recommendations
    /\ StronglySorted
         (fun a b => potentialSavings b <= potentialSavings a) recommendations
    /\ forall savings,
         filter (fun r => Qeq_bool (potentialSavings r) savings) recommendations
         = filter (fun r => Qeq_bool (potentialSavings r) savings) found.
Proof.
  unfold analyzeOptimizations. intros H.
  destruct (collectRecommendations commitsPerDay workflows) as [found|];
    [|discriminate].
  injection H as <-. exists found. split; [reflexivity|].
  split; [apply (sortBy_permutation potentialSavings)|].
  split; [apply (sortBy_sorted potentialSavings)|].
  intros savings. apply (sortBy_stable potentialSavings).
Qed.

Lemma recommendations_sorted_by_savings_witness :
  exists found,
    collectRecommendations 2 [ciWorkflow] = Some found
    /\ Permutation found
         [mkRecommendation Conditional "ci.yml" None "Add path filters"
            240 0 Medium;
          mkRecommendation Caching "ci.yml" (Some "test")
            "Add dependency caching" 180 3 High;
          mkRecommendation Caching "ci.yml" (Some "lint")
            "Add dependency caching" 180 3 High]
    /\ StronglySorted
         (fun a b => potentialSavings b <= potentialSavings a)
         [mkRecommendation Conditional "ci.yml" None "Add path filters"
            240 0 Medium;
          mkRecommendation Caching "ci.yml" (Some "test")
            "Add dependency caching" 180 3 High;
          mkRecommendation Caching "ci.yml" (Some "lint")
            "Add dependency caching" 180 3 High]
    /\ forall savings,
         filter (fun r => Qeq_bool (potentialSavings r) savings)
           [mkRecommendation Conditional "ci.yml" None "Add path filters"
              240 0 Medium;
            mkRecommendation Caching "ci.yml" (Some "test")
              "Add dependency caching" 180 3 High;
            mkRecommendation Caching "ci.yml" (Some "lint")
              "Add dependency caching" 180 3 High]
         = filter (fun r => Qeq_bool (potentialSavings r) savings) found.
Proof.
  apply (recommendations_sorted_by_savings [ciWorkflow] 2). reflexivity.
Defined.

(** ** Path-filter advice *)

Lemma filtersPaths_spec (cfg : value) :
  filtersPaths cfg = Some (hasPathFilter cfg).
Proof.
  unfold filtersPaths, hasPathFilter.
  destruct cfg as [| |b|n|s|items|props|]; simpl; try reflexivity.
  - now destruct b.
  - now destruct (negb (Num.isZero n)).
  - now destruct (negb (Str.isEmpty s)).
  - now destruct (Val.truthy (Val.lookup props "paths")).
Qed.

(** What the fourth detector returns when [workflow.on] can be read. *)
Lemma detectMissingPathFilters_spec
  (wf : Workflow) (workflow onConfig push pullRequest : value) (runs : Q) :
  Val.prop workflow "on" = Some onConfig ->
  Val.prop onConfig "push" = Some push ->
  Val.prop onConfig "pull_request" = Some pullRequest ->
  detectMissingPathFilters wf workflow runs
  = Some (if Val.truthy onConfig && Val.isObjectType onConfig
             && (Val.truthy push || Val.truthy pullRequest)
             && negb (hasPathFilter push || hasPathFilter pullRequest)
             && negb (Str.includes "release" (name wf))
             && Num.lt 50 (pathFilterSavings wf runs)
          then [pathFilterAdvice wf runs]
          else []).
Proof.
  intros Hon Hpush Hpr. unfold detectMissingPathFilters.
  rewrite Hon. destruct (Val.truthy onConfig && Val.isObjectType onConfig);
    [|reflexivity].
  rewrite Hpush, Hpr, !filtersPaths_spec. simpl andb.
  fold (pathFilterSavings wf runs).
  destruct (hasPathFilter push); simpl.
  - now rewrite andb_false_r.
  - destruct (Val.truthy push || Val.truthy pullRequest); simpl; [|reflexivity].
    destruct (hasPathFilter pullRequest); simpl; [reflexivity|].
    destruct (negb (Str.includes "release" (name wf))); simpl; [|reflexivity].
    now destruct (Num.lt 50 (pathFilterSavings wf runs)).
Qed.

Lemma detectMissingPathFilters_falsy
  (wf : Workflow) (workflow onConfig : value) (runs : Q) :
  Val.prop workflow "on" = Some onConfig ->
  Val.truthy onConfig = false ->
  detectMissingPathFilters wf workflow runs = Some [].
Proof.
  intros Hon Hfalsy. unfold detectMissingPathFilters. now rewrite Hon, Hfalsy.
Qed.

(** The other detectors give recommendations of other types. *)
Lemma detectMissingCaching_type
  (workflowName jobName : string) (job : value) (runs : Q)
  (l : list Recommendation) (r : Recommendation) :
  detectMissingCaching workflowName jobName job runs = Some l ->
  In r l -> recType r = Caching.
Proof.
  unfold detectMissingCaching. intros H Hin.
  destruct (Val.prop job "steps") as [steps|]; [|discriminate].
  destruct steps; try (injection H as <-; destruct Hin).
  destruct (Val.some usesCache items) as [c|]; [|discriminate].
  destruct (Val.some runsInstall items) as [i|]; [|discriminate].
  destruct (i && negb c); injection H as <-; [|destruct Hin].
  destruct Hin as [<-|[]]. reflexivity.
Qed.



Lemma detectHighFrequency_type
  (wf : Workflow) (workflow : value)
  (l : list Recommendation) (r : Recommendation) :
  detectHighFrequency wf workflow = Some l -> In r l -> recType r = Frequency.
Proof.
  unfold detectHighFrequency. intros H Hin.
  destruct (Val.prop workflow "on") as [onConfig|]; [|discriminate].
  destruct (Val.truthy onConfig); [|injection H as <-; destruct Hin].
  unfold frequencyAdvice in H.
  match type of H with
  | context [x <- ?e ;; _] => destruct e as [scheduled|]; [|discriminate]
  end.
  injection H as <-.
  apply in_app_or in Hin. destruct Hin as [Hin|Hin].
  - destruct (Num.le 20 scheduled); [|destruct Hin].
    destruct Hin as [<-|[]]. reflexivity.
  - destruct (Num.le 4 scheduled && Num.lt scheduled 20); [|destruct Hin].
    match type of Hin with
    | context [if ?c then _ else _] => destruct c; [|destruct Hin]
    end.
    destruct Hin as [<-|[]]. reflexivity.
Qed.

Lemma collectRecommendations_in
  (commitsPerDay : Q) (workflows : list Workflow)
  (found : list Recommendation) (r : Recommendation) :
  collectRecommendations commitsPerDay workflows = Some found ->
  (In r found <->
   exists wf l, In wf workflows
                /\ workflowRecommendations commitsPerDay wf = Some l
                /\ In r l).
Proof.
  revert found. induction workflows as [|wf rest IH]; intros found H.
  - injection H as <-. split; [intros []|intros [wf [l [[] _]]]].
  - simpl in H.
    destruct (workflowRecommendations commitsPerDay wf) as [here|] eqn:E;
      [|discriminate].
    destruct (collectRecommendations commitsPerDay rest) as [others|];
      [|discriminate].
    injection H as <-. specialize (IH others eq_refl).
    rewrite in_app_iff, IH. split.
    + intros [Hin|[wf' [l [Hwf [Hl Hin]]]]].
      * exists wf, here. repeat split; [now left|exact E|exact Hin].
      * exists wf', l. repeat split; [now right|exact Hl|exact Hin].
    + intros [wf' [l [[<-|Hwf] [Hl Hin]]]].
      * left. rewrite E in Hl. now injection Hl as <-.
      * right. eauto.
Qed.

Lemma collectRecommendations_each
  (commitsPerDay : Q) (workflows : list Workflow)
  (found : list Recommendation) (wf : Workflow) :
  collectRecommendations commitsPerDay workflows = Some found ->
  In wf workflows ->
  exists l, workflowRecommendations commitsPerDay wf = Some l.
Proof.
  revert found. induction workflows as [|wf' rest IH]; intros found H Hin.
  - destruct Hin.
  - simpl in H.
    destruct (workflowRecommendations commitsPerDay wf') as [here|] eqn:E;
      [|discriminate].
    destruct (collectRecommendations commitsPerDay rest) as [others|];
      [|discriminate].
    destruct Hin as [<-|Hin]; [eauto|]. eapply IH; eauto.
Qed.

Lemma workflowRecommendations_inv
  (commitsPerDay : Q) (wf : Workflow) (l : list Recommendation) :
  workflowRecommendations commitsPerDay wf = Some l ->
  exists runs jobs,
    estimateWorkflowRunsPerMonth (parsed wf) commitsPerDay noOptions = Some runs
    /\ Val.prop (parsed wf) "jobs" = Some jobs
    /\ ((Val.truthy jobs = false /\ l = [])
        \/ (Val.truthy jobs = true
            /\ exists perJob frequency conditional,
                jobRecommendations wf runs (Val.entries jobs) = Some perJob
                /\ detectHighFrequency wf (parsed wf) = Some frequency
                /\ detectMissingPathFilters wf (parsed wf) runs = Some conditional
                /\ l = (perJob ++ frequency ++ conditional)%list)).
Proof.
  unfold workflowRecommendations. intros H.
  destruct (estimateWorkflowRunsPerMonth _ _ _) as [runs|]; [|discriminate].
  destruct (Val.prop (parsed wf) "jobs") as [jobs|]; [|discriminate].
  exists runs, jobs. split; [reflexivity|]. split; [reflexivity|].
  destruct (Val.truthy jobs); simpl in H.
  - right. split; [reflexivity|].
    destruct (jobRecommendations _ _ _) as [perJob|]; [|discriminate].
    destruct (detectHighFrequency _ _) as [frequency|]; [|discriminate].
    destruct (detectMissingPathFilters _ _ _) as [conditional|]; [|discriminate].
    injection H as <-. exists perJob, frequency, conditional. auto.
  - left. injection H as <-. auto.
Qed.

Lemma analyzeOptimizations_found
  (workflows : list Workflow) (commitsPerDay : Q)
  (recommendations : list Recommendation) :
  analyzeOptimizations workflows commitsPerDay = Some recommendations ->
  exists found,
    collectRecommendations commitsPerDay workflows = Some found
    /\ Permutation found recommendations.
Proof.
  unfold analyzeOptimizations. intros H.
  destruct (collectRecommendations commitsPerDay workflows) as [found|];
    [|discriminate].
  injection H as <-. exists found. split; [reflexivity|].
  apply (sortBy_permutation potentialSavings).
Qed.




(** The same happens for a bare [push:] key in a trigger mapping. *)
Lemma bare_push_key_gets_no_path_filter_advice :
  exists triggers runs,
    workflowTriggers (parsed barePushWorkflow) = Some triggers
    /\ Val.hasOwn triggers "push" = true
    /\ estimateWorkflowRunsPerMonth (parsed barePushWorkflow) 1 noOptions
       = Some runs
    /\ realPathFilterSavings barePushWorkflow runs == 600
    /\ analyzeOptimizations [barePushWorkflow] 1 = Some [].
Proof.
  exists [("push", VNull)], 30. repeat split; vm_compute; reflexivity.
Qed.

(** C8 (as stated) fails on the amount as well: for a workflow of 15
    minutes that runs 24 times a month, [ceil(15 * 24 * 0.2)] is 72, while
    the recommendation carries 73, the product [24 * 0.2] being rounded up
    to the next double. *)
Lemma path_filter_savings_follow_binary64 :
  estimateWorkflowRunsPerMonth (parsed quarterHourWorkflow) (8 # 10) noOptions
  = Some 24
  /\ realPathFilterSavings quarterHourWorkflow 24 == 72
  /\ pathFilterSavings quarterHourWorkflow 24 == 73
  /\ analyzeOptimizations [quarterHourWorkflow] (8 # 10)
     = Some [pathFilterAdvice quarterHourWorkflow 24]
  /\ option_map Qceiling (Binary64.ofFloat (15 * (24 * 0.2))%float) = Some 73%Z.
Proof. repeat split; vm_compute; reflexivity. Qed.

(** A list of events gets the advice whatever it lists: [on] being an
    array, [workflow.on.push] is the array's own [push] method. *)
Lemma event_list_gets_path_filter_advice :
  analyzeOptimizations [dispatchListWorkflow] 2
  = Some [pathFilterAdvice dispatchListWorkflow 1].
Proof. vm_compute. reflexivity. Qed.

(** ** Duration estimate against the reference *)

Lemma readText_cases (v : value) (t : option string) :
  readText v = Some t ->
  (t = None /\ Val.truthy v = false) \/ (exists text, v = VStr text /\ t = Some text).
Proof.
  destruct v; cbn; try (intros E; injection E as <-; auto; fail);
    try discriminate.
  - destruct b; [discriminate|]. intros E. injection E as <-. auto.
  - destruct (negb (Num.isZero n)) eqn:Hn; [discriminate|].
    intros E. injection E as <-. auto.
  - intros E. injection E as <-. right. eauto.
Qed.

Lemma mapM_inv_cons {A B : Type} (f : A -> option B) (x : A) (rest : list A)
  (ys : list B) :
  mapM f (x :: rest) = Some ys ->
  exists y ys', f x = Some y /\ mapM f rest = Some ys' /\ ys = y :: ys'.
Proof.
  simpl. destruct (f x) as [y|]; [|discriminate].
  destruct (mapM f rest) as [ys'|]; [|discriminate].
  intros E. injection E as <-. eauto.
Qed.

Lemma readStep_inv (step : value) (s : StepSpec) :
  readStep step = Some s ->
  exists name run uses,
    Val.prop step "name" = Some name
    /\ Val.prop step "run" = Some run
    /\ Val.prop step "uses" = Some uses
    /\ readText name = Some (stepName s)
    /\ readText run = Some (stepRun s)
    /\ readText uses = Some (stepUses s).
Proof.
  unfold readStep.
  destruct (Val.prop step "name") as [name|]; [|discriminate].
  destruct (Val.prop step "run") as [run|]; [|discriminate].
  destruct (Val.prop step "uses") as [uses|]; [|discriminate].
  destruct (readText name) as [n|] eqn:Hn; [|discriminate].
  destruct (readText run) as [r|] eqn:Hr; [|discriminate].
  destruct (readText uses) as [u|] eqn:Hu; [|discriminate].
  intros E. injection E as <-. exists name, run, uses.
  repeat split; assumption.
Qed.

Lemma stepMinutes_reference (step : value) (s : StepSpec) :
  readStep step = Some s -> stepMinutes step = Some (stepWeight s).
Proof.
  intros Hread.
  destruct (readStep_inv _ _ Hread) as [name [run [uses [Hname [_ [_ [Ht _]]]]]]].
  unfold stepMinutes, stepWeight. rewrite Hname.
  destruct (readText_cases _ _ Ht) as [[-> Hfalsy]|[text [-> ->]]].
  - now rewrite Hfalsy.
  - destruct text as [|c n]; [reflexivity|].
    change (Val.truthy (VStr (String c n))) with true. cbv iota.
    set (lowered := Str.toLowerCase (String c n)).
    unfold firstMatchingWeight, keywordWeights, existsb.
    rewrite !orb_false_r.
    destruct (_ || _); [reflexivity|].
    destruct (_ || _); [reflexivity|].
    destruct (_ || _); [reflexivity|].
    destruct (_ || _); reflexivity.
Qed.

Lemma addStepMinutes_reference
  (items : list value) (steps : list StepSpec) (acc : Q) :
  mapM readStep items = Some steps ->
  exists r,
    addStepMinutes acc items = Some r
    /\ r == acc + sumQ (map stepWeight steps).
Proof.
  revert steps acc. induction items as [|item items IH]; intros steps acc.
  - intros E. injection E as <-. exists acc. split; [reflexivity|].
    unfold sumQ. simpl. ring.
  - intros Hread.
    destruct (mapM_inv_cons _ _ _ _ Hread) as [s [rest [Hs [Hrest ->]]]].
    cbn [addStepMinutes]. rewrite (stepMinutes_reference _ _ Hs).
    destruct (IH rest (acc + stepWeight s) Hrest) as [r [-> Hr]].
    exists r. split; [reflexivity|]. rewrite Hr. unfold sumQ. simpl. ring.
Qed.

Lemma matrixFold_reference (axes : list (string * value)) (size : Q) :
  fold_left
    (fun size values =>
       match values with
       | VArr items => size * Num.ofNat (length items)
       | _ => size
       end)
    (map snd axes) size
  == size
     * combinationCount (map (fun axis => (fst axis, readAxis (snd axis))) axes).
Proof.
  revert size. induction axes as [|[k a] axes IH]; intros size.
  - unfold combinationCount, productQ. simpl. ring.
  - simpl fold_left. rewrite IH.
    unfold combinationCount, productQ. simpl.
    destruct a; simpl; ring.
Qed.

Lemma calculateMatrixSize_reference (matrix : value) :
  calculateMatrixSize matrix == combinationCount (readMatrix matrix).
Proof.
  unfold calculateMatrixSize, readMatrix, Val.values.
  rewrite matrixFold_reference. ring.
Qed.

Lemma min_compat (x y bound : Q) :
  x == y -> Num.min x bound == Qmin y bound.
Proof. intros H. unfold Num.min. now rewrite H. Qed.

(** What [readJob] found, against what the code reads. *)
Lemma readJob_inv (job : value) (j : JobSpec) :
  readJob job = Some j ->
  exists steps strategy,
    Val.prop job "steps" = Some steps
    /\ Val.prop job "strategy" = Some strategy
    /\ match steps with
       | VArr items =>
           exists typed, mapM readStep items = Some typed
                         /\ jobSteps j = Some typed
       | _ => jobSteps j = None
       end
    /\ ((jobMatrix j = None
         /\ (Val.truthy strategy = false
             \/ exists matrix, Val.prop strategy "matrix" = Some matrix
                               /\ Val.truthy matrix = false))
        \/ (exists matrix,
               Val.truthy strategy = true
               /\ Val.prop strategy "matrix" = Some matrix
               /\ Val.truthy matrix = true
               /\ jobMatrix j = Some (readMatrix matrix))).
Proof.
  unfold readJob.
  destruct (Val.prop job "steps") as [steps|]; [|discriminate].
  destruct (Val.prop job "strategy") as [strategy|]; [|discriminate].
  intros Hread. exists steps, strategy.
  split; [reflexivity|]. split; [reflexivity|].
  assert (Hmatrix :
            forall listed,
              j = mkJob listed
                    (if Val.truthy strategy then
                       match Val.prop strategy "matrix" with
                       | Some matrix =>
                           if Val.truthy matrix
                           then Some (readMatrix matrix) else None
                       | None => None
                       end
                     else None) ->
              (jobMatrix j = None
               /\ (Val.truthy strategy = false
                   \/ exists matrix, Val.prop strategy "matrix" = Some matrix
                                     /\ Val.truthy matrix = false))
              \/ (exists matrix,
                     Val.truthy strategy = true
                     /\ Val.prop strategy "matrix" = Some matrix
                     /\ Val.truthy matrix = true
                     /\ jobMatrix j = Some (readMatrix matrix))).
  { intros listed ->. cbn [jobMatrix].
    destruct (Val.truthy strategy) eqn:Hs; [|left; auto].
    destruct (prop_defined strategy "matrix" Hs) as [matrix Hm]. rewrite Hm.
    destruct (Val.truthy matrix) eqn:Ht.
    - right. exists matrix. auto.
    - left. split; [reflexivity|]. right. eauto. }
  destruct steps;
    try (injection Hread as <-; split; [reflexivity|];
         now apply (Hmatrix None)).
  destruct (mapM readStep items) as [typed|]; [|discriminate].
  injection Hread as <-. split; [exists typed; auto|].
  now apply (Hmatrix (Some typed)).
Qed.

Lemma jobMinutes_reference (job : value) (j : JobSpec) :
  readJob job = Some j ->
  exists m, jobMinutes job = Some m /\ m == referenceJobMinutes j.
Proof.
  intros Hread.
  destruct (readJob_inv _ _ Hread)
    as [steps [strategy [Hsteps [Hstrategy [Hlisted Hmatrix]]]]].
  unfold jobMinutes, referenceJobMinutes. rewrite Hsteps, Hstrategy.
  assert (Hbase :
            exists base,
              match steps with
              | VArr items =>
                  m <- addStepMinutes 5 items ;; Some (Num.min m 60)
              | _ => Some 5
              end = Some base
              /\ base
                 == Qmin (5 + sumQ (map stepWeight
                                      match jobSteps j with
                                      | Some typed => typed
                                      | None => []
                                      end)) 60).
  { destruct steps;
      try (rewrite Hlisted; exists 5; split; reflexivity).
    destruct Hlisted as [typed [Htyped ->]].
    destruct (addStepMinutes_reference _ _ 5 Htyped) as [r [-> Hr]].
    eexists. split; [reflexivity|]. exact (min_compat _ _ 60 Hr). }
  destruct Hbase as [base [-> Hbase]].
  destruct Hmatrix as [[-> [Hfalsy|[matrix [Hm Hfalsy]]]]
                      |[matrix [Htruthy [Hm [Hgiven ->]]]]].
  - rewrite Hfalsy. eauto.
  - destruct (Val.truthy strategy); [|eauto].
    rewrite Hm, Hfalsy. eauto.
  - rewrite Htruthy, Hm, Hgiven. eexists. split; [reflexivity|].
    now rewrite calculateMatrixSize_reference, Hbase.
Qed.

Lemma addJobMinutes_reference
  (entries : list (string * value)) (jobs : list (string * JobSpec)) (acc : Q) :
  mapM readEntry entries = Some jobs ->
  exists r,
    addJobMinutes acc (map snd entries) = Some r
    /\ r == acc + sumQ (map (fun entry => referenceJobMinutes (snd entry)) jobs).
Proof.
  revert jobs acc. induction entries as [|[k job] entries IH]; intros jobs acc.
  - intros E. injection E as <-. exists acc. split; [reflexivity|].
    unfold sumQ. simpl. ring.
  - intros Hread.
    destruct (mapM_inv_cons _ _ _ _ Hread) as [[k' j] [rest [Hj [Hrest ->]]]].
    unfold readEntry in Hj. cbn [fst snd] in Hj.
    destruct (readJob job) as [j'|] eqn:Hjob; [|discriminate].
    injection Hj as <- <-.
    cbn [map snd addJobMinutes].
    destruct (jobMinutes_reference _ _ Hjob) as [m [-> Hm]].
    destruct (IH rest (acc + m) Hrest) as [r [-> Hr]].
    exists r. split; [reflexivity|]. rewrite Hr, Hm. unfold sumQ. simpl. ring.
Qed.

Lemma estimateWorkflowDuration_documented
  (workflow jobsValue : value) (jobs : list (string * JobSpec)) :
  Val.prop workflow "jobs" = Some jobsValue ->
  readJobs jobsValue = Some jobs ->
  exists d,
    estimateWorkflowDuration workflow = Some d
    /\ d == referenceDuration jobs.
Proof.
  intros Hjobs Hread. unfold estimateWorkflowDuration. rewrite Hjobs.
  unfold readJobs in Hread. destruct (Val.truthy jobsValue); cbn [negb].
  - unfold Val.values.
    destruct (addJobMinutes_reference _ _ 0 Hread) as [r [-> Hr]].
    eexists. split; [reflexivity|].
    unfold referenceDuration. rewrite (ceil_compat _ _ Hr).
    rewrite (ceil_compat (0 + _) _ (Qplus_0_l _)). reflexivity.
  - injection Hread as <-. exists 0. split; reflexivity.
Qed.

(** C3. On a job map of the documented shape, whatever the order of its
    keys and whatever other keys it holds, [estimateWorkflowDuration]
    equals the reference computation: per job 5 minutes plus the weight of
    each step (first matching keyword class of the lower-cased name, 1 for
    other and unnamed steps), clamped to 60, times the product of the
    lengths of the sequence-valued matrix axes; the workflow duration is the
    ceiling of the sum.  A workflow without jobs has duration 0, and matrix
    axes of 3 and 2 values multiply the clamped job minutes by 6. *)
Theorem duration_matches_reference :
  (forall workflow jobsValue jobs,
      Val.prop workflow "jobs" = Some jobsValue ->
      readJobs jobsValue = Some jobs ->
      exists d,
        estimateWorkflowDuration workflow = Some d
        /\ d == referenceDuration jobs)
  /\ (forall workflow jobs,
         Val.prop workflow "jobs" = Some jobs ->
         Val.truthy jobs = false ->
         estimateWorkflowDuration workflow = Some 0)
  /\ referenceDuration [] == 0
  /\ (forall job steps axis1 axis2 a1 a2 a3 b1 b2,
         readJob job
         = Some (mkJob steps
                   (Some [(axis1, AxisValues [a1; a2; a3]);
                          (axis2, AxisValues [b1; b2])])) ->
         exists m,
           jobMinutes job = Some m
           /\ m == referenceJobMinutes (mkJob steps None) * 6).
Proof.
  split; [|split; [|split]].
  - intros workflow jobsValue jobs.
    apply estimateWorkflowDuration_documented.
  - intros workflow jobs Hjobs Hfalsy. unfold estimateWorkflowDuration.
    now rewrite Hjobs, Hfalsy.
  - reflexivity.
  - intros job steps axis1 axis2 a1 a2 a3 b1 b2 Hread.
    destruct (jobMinutes_reference _ _ Hread) as [m [-> Hm]].
    exists m. split; [reflexivity|]. rewrite Hm.
    unfold referenceJobMinutes. cbn [jobSteps jobMatrix].
    assert (E : combinationCount [(axis1, AxisValues [a1; a2; a3]);
                                  (axis2, AxisValues [b1; b2])] == 6)
      by reflexivity.
    now rewrite E.
Qed.

Lemma duration_matches_reference_witness :
  (exists d,
      estimateWorkflowDuration minimalTestWorkflow = Some d
      /\ d == referenceDuration
                [("build",
                  mkJob (Some [mkStep (Some "Checkout") None
                                 (Some "actions/checkout@v2")])
                    None)])
  /\ (exists d,
         estimateWorkflowDuration (parsed optimalWorkflow) = Some d
         /\ d == referenceDuration
                   [("test",
                     mkJob
                       (Some [mkStep None None (Some "actions/checkout@v2");
                              mkStep None None (Some "actions/setup-node@v3");
                              mkStep None (Some "npm ci") None;
                              mkStep None (Some "npm test") None])
                       (Some [("node", AxisValues [VStr "20"])]))])
  /\ (exists m,
         jobMinutes
           (VObj [("strategy",
                   VObj [("matrix",
                          VObj [("node",
                                 VArr [VStr "14"; VStr "16"; VStr "18"]);
                                ("os",
                                 VArr [VStr "ubuntu"; VStr "windows"])])]);
                  ("steps",
                   VArr [VObj [("name", VStr "Checkout")];
                         VObj [("name", VStr "Test")]])])
         = Some m
         /\ m == referenceJobMinutes
                   (mkJob (Some [mkStep (Some "Checkout") None None;
                                 mkStep (Some "Test") None None])
                      None) * 6).
Proof.
  split; [|split].
  - apply (proj1 duration_matches_reference minimalTestWorkflow
             (VObj [("build",
                     VObj [("runs-on", VStr "ubuntu-latest");
                           ("steps",
                            VArr [VObj [("name", VStr "Checkout");
                                        ("uses",
                                         VStr "actions/checkout@v2")]])])]));
      reflexivity.
  - apply (proj1 duration_matches_reference (parsed optimalWorkflow)
             (VObj [("test",
                     VObj [("strategy",
                            VObj [("matrix",
                                   VObj [("node", VArr [VStr "20"])])]);
                           ("steps",
                            VArr [VObj [("uses", VStr "actions/checkout@v2")];
                                  VObj [("uses", VStr "actions/setup-node@v3");
                                        ("with", VObj [("cache", VStr "npm")])];
                                  VObj [("run", VStr "npm ci")];
                                  VObj [("run", VStr "npm test")]])])]));
      reflexivity.
  - apply (proj2 (proj2 (proj2 duration_matches_reference)) _ _
             "node" "os" (VStr "14") (VStr "16") (VStr "18")
             (VStr "ubuntu") (VStr "windows")).
    reflexivity.
Defined.

(** The job maps of the repository's tests, as they are read. *)
Lemma test_workflows_are_documented :
  (exists jobsValue,
      Val.prop minimalTestWorkflow "jobs" = Some jobsValue
      /\ readJobs jobsValue
         = Some [("build",
                  mkJob (Some [mkStep (Some "Checkout") None
                                 (Some "actions/checkout@v2")])
                    None)])
  /\ (exists jobsValue,
         Val.prop matrixTestWorkflow "jobs" = Some jobsValue
         /\ readJobs jobsValue
            = Some [("test",
                     mkJob (Some [mkStep (Some "Checkout") None None;
                                  mkStep (Some "Test") None None])
                       (Some [("node",
                               AxisValues [VStr "14"; VStr "16"; VStr "18"]);
                              ("os",
                               AxisValues [VStr "ubuntu"; VStr "windows"])]))])
  /\ (exists jobsValue,
         Val.prop (parsed oversizedMatrixWorkflow) "jobs" = Some jobsValue
         /\ readJobs jobsValue
            = Some [("test",
                     mkJob (Some [mkStep (Some "Test") (Some "npm test") None])
                       (Some [("node",
                               AxisValues [VStr "14"; VStr "16";
                                           VStr "18"; VStr "20"]);
                              ("os",
                               AxisValues [VStr "ubuntu"; VStr "windows";
                                           VStr "macos"])]))])
  /\ hasDocumentedShape optimalWorkflow
  /\ hasDocumentedShape ciWorkflow
  /\ estimateWorkflowDuration minimalTestWorkflow = Some 6
  /\ estimateWorkflowDuration matrixTestWorkflow = Some 96.
Proof.
  repeat split; try (eexists; split; reflexivity);
    try (eexists; eexists; split; reflexivity).
Qed.

(** ** The store: frame rules *)

Section FrameRules.

Import Store.

Lemma unchangedOutside_refl (W : list loc) (h : store) : unchangedOutside W h h.
Proof. split; [apply Nat.le_refl|auto]. Qed.

Lemma unchangedOutside_trans (W : list loc) (h1 h2 h3 : store) :
  unchangedOutside W h1 h2 -> unchangedOutside W h2 h3 ->
  unchangedOutside W h1 h3.
Proof.
  intros [L1 U1] [L2 U2]. split; [lia|].
  intros l o Hl Hw. apply U2; [|exact Hw]. now apply U1.
Qed.

Lemma unchangedOutside_alloc (W : list loc) (h : store) (o : object) :
  unchangedOutside W h (h ++ [o])%list.
Proof.
  split; [rewrite length_app; simpl; lia|].
  intros l x Hl _. rewrite nth_error_app1; [exact Hl|].
  apply nth_error_Some. congruence.
Qed.

(** Objects allocated after [h] may be overwritten freely. *)
Lemma unchangedOutside_fresh (W : list loc) (fresh : loc) (h h1 h2 : store) :
  (length h <= fresh)%nat ->
  unchangedOutside W h h1 ->
  unchangedOutside (fresh :: W) h1 h2 ->
  unchangedOutside W h h2.
Proof.
  intros Hfresh [L1 U1] [L2 U2]. split; [lia|].
  intros l o Hl Hw. apply U2; [now apply U1|].
  intros [E|C]; [|contradiction].
  assert (l < length h)%nat by (apply nth_error_Some; congruence). lia.
Qed.

Lemma update_length (h : store) (l : loc) (o : object) :
  length (update h l o) = length h.
Proof.
  revert l. induction h as [|x h IH]; intros [|l]; simpl; auto.
Qed.

Lemma update_same (h : store) (l : loc) (o : object) :
  (l < length h)%nat -> nth_error (update h l o) l = Some o.
Proof.
  revert l. induction h as [|x h IH]; intros [|l] H; simpl in *; try lia.
  - reflexivity.
  - apply IH. lia.
Qed.

Lemma update_other (h : store) (l l' : loc) (o : object) :
  l <> l' -> nth_error (update h l o) l' = nth_error h l'.
Proof.
  revert l l'. induction h as [|x h IH]; intros [|l] [|l'] H; simpl;
    try reflexivity; try congruence.
  apply IH. congruence.
Qed.

Lemma frames_ret {A : Type} (W : list loc) (a : A) : frames W (ret a).
Proof.
  intros h a' h' H. injection H as _ <-. apply unchangedOutside_refl.
Qed.

Lemma frames_throw {A : Type} (W : list loc) : frames W (@throw A).
Proof. intros h a h' H. discriminate. Qed.

Lemma frames_liftOption {A : Type} (W : list loc) (o : option A) :
  frames W (liftOption o).
Proof. destruct o; [apply frames_ret|apply frames_throw]. Qed.

Lemma frames_bind {A B : Type} (W : list loc) (m : M A) (k : A -> M B) :
  frames W m -> (forall a, frames W (k a)) -> frames W (bind m k).
Proof.
  intros Hm Hk h b h' H. unfold bind in H.
  destruct (m h) as [[a h1]|] eqn:E; [|discriminate].
  eapply unchangedOutside_trans; [exact (Hm _ _ _ E)|exact (Hk _ _ _ _ H)].
Qed.

Lemma frames_alloc (W : list loc) (o : object) : frames W (alloc o).
Proof.
  intros h a h' H. injection H as _ <-. apply unchangedOutside_alloc.
Qed.

(** The continuation of an allocation may overwrite the new object. *)
Lemma frames_alloc_scope {B : Type} (W : list loc) (o : object) (k : loc -> M B) :
  (forall fresh, frames (fresh :: W) (k fresh)) -> frames W (bind (alloc o) k).
Proof.
  intros Hk h b h' H. unfold bind, alloc in H.
  eapply unchangedOutside_fresh;
    [apply Nat.le_refl|apply unchangedOutside_alloc|exact (Hk _ _ _ _ H)].
Qed.

Lemma frames_read (W : list loc) (l : loc) : frames W (read l).
Proof.
  intros h a h' H. unfold read in H.
  destruct (nth_error h l); [|discriminate].
  injection H as _ <-. apply unchangedOutside_refl.
Qed.

Lemma frames_write (W : list loc) (l : loc) (o : object) :
  In l W -> frames W (write l o).
Proof.
  intros Hin h a h' H. unfold write in H.
  destruct (l <? length h)%nat; [|discriminate].
  injection H as _ <-. split; [rewrite update_length; lia|].
  intros l' x Hl Hw. rewrite update_other; [exact Hl|].
  intros ->. contradiction.
Qed.

Lemma frames_forEach {A : Type} (W : list loc) (body : A -> M unit)
  (items : list A) :
  (forall x, frames W (body x)) -> frames W (Imperative.forEach body items).
Proof.
  intros Hbody. induction items as [|x items IH]; simpl.
  - apply frames_ret.
  - apply frames_bind; [apply Hbody|intros _; exact IH].
Qed.

Lemma frames_forM {A B : Type} (W : list loc) (f : A -> M B) (items : list A) :
  (forall x, frames W (f x)) -> frames W (Imperative.forM f items).
Proof.
  intros Hf. induction items as [|x items IH]; simpl.
  - apply frames_ret.
  - apply frames_bind; [apply Hf|intros y].
    apply frames_bind; [exact IH|intros ys; apply frames_ret].
Qed.

End FrameRules.

Create HintDb frames.

#[local] Hint Resolve frames_ret frames_throw frames_liftOption frames_read
  frames_alloc frames_bind frames_forEach frames_forM : frames.

(** ** The analysis writes to new objects only *)

Section Frames.

Import Store.

Ltac frame_read :=
  apply frames_bind; [apply frames_read|];
  intros [ | | | | | | ]; auto with frames.

Lemma frames_readWorkflow (W : list loc) (l : loc) :
  frames W (Imperative.readWorkflow l).
Proof. unfold Imperative.readWorkflow. frame_read. Qed.

Lemma frames_readOptions (W : list loc) (l : loc) :
  frames W (Imperative.readOptions l).
Proof. unfold Imperative.readOptions. frame_read. Qed.

Lemma frames_readPlain (W : list loc) (l : loc) :
  frames W (Imperative.readPlain l).
Proof. unfold Imperative.readPlain. frame_read. Qed.

Lemma frames_readEnriched (W : list loc) (l : loc) :
  frames W (Imperative.readEnriched l).
Proof. unfold Imperative.readEnriched. frame_read. Qed.

Lemma frames_readRecommendation (W : list loc) (l : loc) :
  frames W (Imperative.readRecommendation l).
Proof. unfold Imperative.readRecommendation. frame_read. Qed.

Lemma frames_readArray (W : list loc) (l : loc) :
  frames W (Imperative.readArray l).
Proof. unfold Imperative.readArray. frame_read. Qed.

Lemma frames_fresh_plain (W : list loc) (props : list (string * value)) :
  frames W (fresh <~ alloc (OPlain props) ;; Imperative.readPlain fresh).
Proof.
  apply frames_bind; [apply frames_alloc|intros; apply frames_readPlain].
Qed.

(** [normalizeTriggers] overwrites its own accumulator only. *)
Lemma frames_normalizeTriggers (W : list loc) (onConfig : value) :
  frames W (Imperative.normalizeTriggers onConfig).
Proof.
  unfold Imperative.normalizeTriggers.
  destruct (negb (Val.truthy onConfig)); [apply frames_fresh_plain|].
  destruct onConfig; try apply frames_fresh_plain; [|apply frames_ret].
  apply frames_alloc_scope. intros acc.
  apply frames_bind; [|intros; apply frames_readPlain].
  apply frames_forEach. intros eventName.
  destruct eventName; try apply frames_ret.
  apply frames_bind; [apply frames_readPlain|intros props].
  apply frames_write. now left.
Qed.

Lemma frames_estimateWorkflowRunsPerMonth
  (W : list loc) (workflow : value) (commitsPerDay : Q) (options : loc) :
  frames W (Imperative.estimateWorkflowRunsPerMonth workflow commitsPerDay options).
Proof.
  unfold Imperative.estimateWorkflowRunsPerMonth.
  apply frames_bind; [apply frames_liftOption|intros onConfig].
  apply frames_bind; [apply frames_normalizeTriggers|intros triggers].
  apply frames_bind; [apply frames_readOptions|intros opts].
  apply frames_liftOption.
Qed.

Lemma frames_enrich (W : list loc) (commitsPerDay : Q) (options wfLoc : loc) :
  frames W (Imperative.enrich commitsPerDay options wfLoc).
Proof.
  unfold Imperative.enrich.
  apply frames_bind; [apply frames_readWorkflow|intros wf].
  apply frames_bind; [apply frames_estimateWorkflowRunsPerMonth|intros runs].
  apply frames_alloc.
Qed.

Lemma frames_calculateMonthlyCosts
  (workflows : loc) (commitsPerDay : Q) (options : loc) :
  frames [] (Imperative.calculateMonthlyCosts workflows commitsPerDay options).
Proof.
  unfold Imperative.calculateMonthlyCosts.
  apply frames_bind; [apply frames_readArray|intros wfLocs].
  apply frames_bind; [apply frames_forM; intros; apply frames_enrich|].
  intros enrichedLocs.
  apply frames_bind; [apply frames_alloc|intros enrichedWorkflows].
  apply frames_bind; [apply frames_readArray|intros items].
  apply frames_bind; [apply frames_forM; intros; apply frames_readEnriched|].
  intros enriched. apply frames_alloc.
Qed.

(** [push] overwrites the [recommendations] array and nothing else. *)
Lemma frames_pushAll (W : list loc) (recommendations : loc)
  (found : list Recommendation) :
  In recommendations W -> frames W (Imperative.pushAll recommendations found).
Proof.
  intros Hin. unfold Imperative.pushAll. apply frames_forEach. intros r.
  apply frames_bind; [apply frames_alloc|intros fresh].
  apply frames_bind; [apply frames_readArray|intros items].
  now apply frames_write.
Qed.

Lemma frames_detectHighFrequency (W : list loc) (wf : Workflow) (workflow : value) :
  frames W (Imperative.detectHighFrequency wf workflow).
Proof.
  unfold Imperative.detectHighFrequency.
  apply frames_bind; [apply frames_liftOption|intros onConfig].
  destruct (Val.truthy onConfig); [|apply frames_ret].
  apply frames_bind; [apply frames_normalizeTriggers|intros triggers].
  apply frames_liftOption.
Qed.

Lemma frames_workflowRecommendations
  (W : list loc) (commitsPerDay : Q) (recommendations wfLoc : loc) :
  In recommendations W ->
  frames W (Imperative.workflowRecommendations commitsPerDay recommendations wfLoc).
Proof.
  intros Hin. unfold Imperative.workflowRecommendations.
  apply frames_bind; [apply frames_readWorkflow|intros wf].
  apply frames_bind; [apply frames_alloc|intros options].
  apply frames_bind; [apply frames_estimateWorkflowRunsPerMonth|intros runs].
  apply frames_bind; [apply frames_liftOption|intros jobs].
  destruct (negb (Val.truthy jobs)); [apply frames_ret|].
  apply frames_bind.
  { apply frames_forEach. intros entry.
    apply frames_bind; [apply frames_liftOption|intros caching].
    apply frames_bind; [now apply frames_pushAll|intros _].
    apply frames_bind; [apply frames_liftOption|intros matrix].
    now apply frames_pushAll. }
  intros _.
  apply frames_bind; [apply frames_detectHighFrequency|intros frequency].
  apply frames_bind; [now apply frames_pushAll|intros _].
  apply frames_bind; [apply frames_liftOption|intros conditional].
  now apply frames_pushAll.
Qed.

Lemma frames_sortInPlace (W : list loc) (recommendations : loc) :
  In recommendations W -> frames W (Imperative.sortInPlace recommendations).
Proof.
  intros Hin. unfold Imperative.sortInPlace.
  apply frames_bind; [apply frames_readArray|intros items].
  apply frames_bind;
    [apply frames_forM; intros; apply frames_readRecommendation|intros found].
  now apply frames_write.
Qed.

Lemma frames_analyzeOptimizations (workflows : loc) (commitsPerDay : Q) :
  frames [] (Imperative.analyzeOptimizations workflows commitsPerDay).
Proof.
  unfold Imperative.analyzeOptimizations.
  apply frames_alloc_scope. intros recommendations.
  apply frames_bind; [apply frames_readArray|intros wfLocs].
  apply frames_bind.
  { apply frames_forEach. intros wfLoc.
    apply frames_workflowRecommendations. now left. }
  intros _.
  apply frames_bind; [apply frames_sortInPlace; now left|intros _].
  apply frames_ret.
Qed.

End Frames.

Section Freshness.

Import Store.

Lemma bind_inv {A B : Type} (m : M A) (k : A -> M B) (h h' : store) (b : B) :
  bind m k h = Some (b, h') ->
  exists a h1, m h = Some (a, h1) /\ k a h1 = Some (b, h').
Proof.
  unfold bind. destruct (m h) as [[a h1]|]; [eauto|discriminate].
Qed.

Lemma unchangedOutside_nil (h h' : store) :
  unchangedOutside [] h h' ->
  forall l o, nth_error h l = Some o -> nth_error h' l = Some o.
Proof. intros [_ U] l o Hl. apply U; [exact Hl|intros []]. Qed.

Lemma alloc_inv (o : object) (h h' : store) (l : loc) :
  alloc o h = Some (l, h') ->
  l = length h /\ h' = (h ++ [o])%list /\ nth_error h' l = Some o.
Proof.
  unfold alloc. intros H. injection H as <- <-.
  repeat split. rewrite nth_error_app2, Nat.sub_diag; [reflexivity|lia].
Qed.

Lemma fresh_location (h : store) (l : loc) :
  (length h <= l)%nat -> nth_error h l = None.
Proof. apply nth_error_None. Qed.

Lemma readWorkflow_inv (l : loc) (h h' : store) (wf : Workflow) :
  Imperative.readWorkflow l h = Some (wf, h') ->
  h' = h /\ nth_error h l = Some (OWorkflow wf).
Proof.
  unfold Imperative.readWorkflow, bind, read.
  destruct (nth_error h l) as [[]|]; try discriminate.
  intros H. injection H as <- <-. auto.
Qed.

(** The enriched record is a new object that carries a copy of the
    workflow record it was made from. *)
Lemma enrich_fresh_copy
  (commitsPerDay : Q) (options wfLoc : loc) (h h' : store) (enriched : loc) :
  Imperative.enrich commitsPerDay options wfLoc h = Some (enriched, h') ->
  nth_error h enriched = None
  /\ exists e,
      nth_error h' enriched = Some (OEnriched e)
      /\ nth_error h wfLoc = Some (OWorkflow (source e))
      /\ nth_error h' wfLoc = Some (OWorkflow (source e)).
Proof.
  intros H.
  pose proof (frames_enrich [] _ _ _ _ _ _ H) as Hframe.
  unfold Imperative.enrich in H.
  apply bind_inv in H. destruct H as [wf [h1 [Hread H]]].
  apply readWorkflow_inv in Hread. destruct Hread as [-> Hwf].
  apply bind_inv in H. destruct H as [runs [h2 [Hruns H]]].
  pose proof (frames_estimateWorkflowRunsPerMonth [] _ _ _ _ _ _ Hruns)
    as [Hlen _].
  apply alloc_inv in H. destruct H as [-> [-> Hnew]].
  split; [now apply fresh_location|].
  eexists. split; [exact Hnew|]. simpl. split; [exact Hwf|].
  exact (unchangedOutside_nil _ _ Hframe _ _ Hwf).
Qed.

Lemma calculateMonthlyCosts_fresh
  (workflows : loc) (commitsPerDay : Q) (options : loc) (h h' : store)
  (report : loc) :
  Imperative.calculateMonthlyCosts workflows commitsPerDay options h
  = Some (report, h') ->
  nth_error h report = None
  /\ exists r, nth_error h' report = Some (OReport r).
Proof.
  unfold Imperative.calculateMonthlyCosts. intros H.
  apply bind_inv in H. destruct H as [wfLocs [h1 [H1 H]]].
  apply frames_readArray with (W := []) in H1. destruct H1 as [L1 _].
  apply bind_inv in H. destruct H as [enrichedLocs [h2 [H2 H]]].
  apply (frames_forM [] _ _ (fun x => frames_enrich [] _ _ x)) in H2.
  destruct H2 as [L2 _].
  apply bind_inv in H. destruct H as [arr [h3 [H3 H]]].
  apply frames_alloc with (W := []) in H3. destruct H3 as [L3 _].
  apply bind_inv in H. destruct H as [items [h4 [H4 H]]].
  apply frames_readArray with (W := []) in H4. destruct H4 as [L4 _].
  apply bind_inv in H. destruct H as [enriched [h5 [H5 H]]].
  apply (frames_forM [] _ _ (fun x => frames_readEnriched [] x)) in H5.
  destruct H5 as [L5 _].
  apply alloc_inv in H. destruct H as [-> [-> Hnew]].
  split; [apply fresh_location; lia|eauto].
Qed.

Lemma analyzeOptimizations_fresh
  (workflows : loc) (commitsPerDay : Q) (h h' : store) (recommendations : loc) :
  Imperative.analyzeOptimizations workflows commitsPerDay h
  = Some (recommendations, h') ->
  nth_error h recommendations = None.
Proof.
  unfold Imperative.analyzeOptimizations. intros H.
  apply bind_inv in H. destruct H as [arr [h1 [H1 H]]].
  apply alloc_inv in H1. destruct H1 as [-> _].
  apply bind_inv in H. destruct H as [wfLocs [h2 [_ H]]].
  apply bind_inv in H. destruct H as [u1 [h3 [_ H]]].
  apply bind_inv in H. destruct H as [u2 [h4 [_ H]]].
  injection H as <- _. now apply fresh_location.
Qed.

End Freshness.

(** C10. [calculateMonthlyCosts] and [analyzeOptimizations] leave their
    inputs as they were: every object of the store the call starts from,
    workflow records, the workflows array and the options among them, is
    found unchanged in the store it ends with; the report, the enriched
    records and the recommendations array are new objects, an enriched
    record carrying a copy of its workflow record. *)
Theorem analysis_leaves_inputs_unchanged :
  (forall workflows commitsPerDay options h report h',
      Imperative.calculateMonthlyCosts workflows commitsPerDay options h
      = Some (report, h') ->
      (forall l o, nth_error h l = Some o -> nth_error h' l = Some o)
      /\ nth_error h report = None
      /\ exists r, nth_error h' report = Some (Store.OReport r))
  /\ (forall commitsPerDay options wfLoc h enriched h',
         Imperative.enrich commitsPerDay options wfLoc h = Some (enriched, h') ->
         (forall l o, nth_error h l = Some o -> nth_error h' l = Some o)
         /\ nth_error h enriched = None
         /\ exists e,
             nth_error h' enriched = Some (Store.OEnriched e)
             /\ nth_error h wfLoc = Some (Store.OWorkflow (source e)))
  /\ (forall workflows commitsPerDay h recommendations h',
         Imperative.analyzeOptimizations workflows commitsPerDay h
         = Some (recommendations, h') ->
         (forall l o, nth_error h l = Some o -> nth_error h' l = Some o)
         /\ nth_error h recommendations = None).
Proof.
  split; [|split].
  - intros workflows commitsPerDay options h report h' H. split.
    + apply unchangedOutside_nil.
      exact (frames_calculateMonthlyCosts _ _ _ _ _ _ H).
    + exact (calculateMonthlyCosts_fresh _ _ _ _ _ _ H).
  - intros commitsPerDay options wfLoc h enriched h' H. split.
    + apply unchangedOutside_nil. exact (frames_enrich [] _ _ _ _ _ _ H).
    + destruct (enrich_fresh_copy _ _ _ _ _ _ H) as [Hnew [e [He [Hwf _]]]].
      split; [exact Hnew|eauto].
  - intros workflows commitsPerDay h recommendations h' H. split.
    + apply unchangedOutside_nil.
      exact (frames_analyzeOptimizations _ _ _ _ _ H).
    + exact (analyzeOptimizations_fresh _ _ _ _ _ H).
Qed.

(** ** The store-level functions compute what the value-level ones do *)

Section Agreement.

Import Store.

Lemma read_at (h : store) (l : loc) (o : object) :
  nth_error h l = Some o -> read l h = Some (o, h).
Proof. unfold read. now intros ->. Qed.

Lemma readPlain_at (h : store) (l : loc) (props : list (string * value)) :
  nth_error h l = Some (OPlain props) ->
  Imperative.readPlain l h = Some (props, h).
Proof. intros H. unfold Imperative.readPlain, bind. now rewrite (read_at _ _ _ H). Qed.

Lemma readOptions_at (h : store) (l : loc) (opts : Options) :
  nth_error h l = Some (OOptions opts) ->
  Imperative.readOptions l h = Some (opts, h).
Proof. intros H. unfold Imperative.readOptions, bind. now rewrite (read_at _ _ _ H). Qed.

Lemma readWorkflow_at (h : store) (l : loc) (wf : Workflow) :
  nth_error h l = Some (OWorkflow wf) ->
  Imperative.readWorkflow l h = Some (wf, h).
Proof. intros H. unfold Imperative.readWorkflow, bind. now rewrite (read_at _ _ _ H). Qed.

Lemma readArray_at (h : store) (l : loc) (items : list loc) :
  nth_error h l = Some (OArray items) ->
  Imperative.readArray l h = Some (items, h).
Proof. intros H. unfold Imperative.readArray, bind. now rewrite (read_at _ _ _ H). Qed.

Lemma nth_error_new (h : store) (o : object) :
  nth_error (h ++ [o])%list (length h) = Some o.
Proof. rewrite nth_error_app2, Nat.sub_diag; [reflexivity|lia]. Qed.

Lemma fresh_plain_run (props : list (string * value)) (h : store) :
  (fresh <~ alloc (OPlain props) ;; Imperative.readPlain fresh) h
  = Some (props, (h ++ [OPlain props])%list).
Proof.
  unfold bind at 1, alloc. apply readPlain_at, nth_error_new.
Qed.

Lemma write_at (h : store) (l : loc) (old o : object) :
  nth_error h l = Some old -> write l o h = Some (tt, update h l o).
Proof.
  intros H. unfold write.
  assert (L : (l < length h)%nat) by (apply nth_error_Some; congruence).
  apply Nat.ltb_lt in L. now rewrite L.
Qed.

(** The loop of [normalizeTriggers] over an array of event names leaves in
    the accumulator what the value-level fold computes. *)
Lemma normalizeTriggers_loop
  (acc : loc) (items : list value) (props : list (string * value)) (h : store) :
  nth_error h acc = Some (OPlain props) ->
  exists h',
    Imperative.forEach
      (fun eventName =>
         match eventName with
         | VStr s =>
             props <~ Imperative.readPlain acc ;;
             write acc (OPlain (Val.assign props s (VBool true)))
         | _ => ret tt
         end)
      items h
    = Some (tt, h')
    /\ nth_error h' acc
       = Some (OPlain
                 (fold_left
                    (fun acc eventName =>
                       match eventName with
                       | VStr s => Val.assign acc s (VBool true)
                       | _ => acc
                       end)
                    items props)).
Proof.
  revert props h. induction items as [|e items IH]; intros props h Hacc.
  - exists h. split; [reflexivity|exact Hacc].
  - simpl Imperative.forEach. simpl fold_left. unfold bind at 1.
    assert (Hnone : forall h0 p, nth_error h0 acc = Some (OPlain p) ->
                    exists h', (ret tt : M unit) h0 = Some (tt, h')
                               /\ nth_error h' acc = Some (OPlain p))
      by (intros h0 p Hp; exists h0; auto).
    destruct e as [| |b|n|s|xs|ps|];
      try (destruct (Hnone h props Hacc) as [h1 [-> H1]]; now apply IH).
    unfold bind at 1. rewrite (readPlain_at _ _ _ Hacc).
    rewrite (write_at _ _ _ _ Hacc).
    apply IH. apply update_same. apply nth_error_Some. congruence.
Qed.

Lemma normalizeTriggers_agrees (onConfig : value) (h : store) :
  exists h',
    Imperative.normalizeTriggers onConfig h
    = Some (normalizeTriggers onConfig, h').
Proof.
  unfold Imperative.normalizeTriggers, normalizeTriggers.
  destruct (negb (Val.truthy onConfig));
    [eexists; apply fresh_plain_run|].
  destruct onConfig as [| |b|n|s|items|props|];
    try (eexists; apply fresh_plain_run).
  - unfold bind at 1, alloc.
    destruct (normalizeTriggers_loop (length h) items []
                (h ++ [OPlain []])%list (nth_error_new _ _)) as [h' [E Hacc]].
    unfold bind at 1. rewrite E. exists h'. now apply readPlain_at.
  - eexists. reflexivity.
Qed.

Lemma estimateWorkflowRunsPerMonth_agrees
  (workflow : value) (commitsPerDay : Q) (options : loc) (opts : Options)
  (h : store) :
  nth_error h options = Some (OOptions opts) ->
  exists runs h',
    estimateWorkflowRunsPerMonth workflow commitsPerDay opts = Some runs
    /\ Imperative.estimateWorkflowRunsPerMonth workflow commitsPerDay options h
       = Some (runs, h').
Proof.
  intros Hopts.
  destruct (estimateWorkflowRunsPerMonth_total workflow commitsPerDay opts)
    as [runs [Hruns _]].
  unfold estimateWorkflowRunsPerMonth, workflowTriggers in Hruns.
  unfold Imperative.estimateWorkflowRunsPerMonth.
  destruct (if Val.truthy workflow then Val.prop workflow "on" else Some workflow)
    as [onConfig|] eqn:Eon; [|discriminate].
  destruct (normalizeTriggers_agrees onConfig h) as [h1 Hnorm].
  pose proof (frames_normalizeTriggers [] _ _ _ _ Hnorm) as Hframe.
  exists runs, h1. split.
  - unfold estimateWorkflowRunsPerMonth, workflowTriggers. now rewrite Eon.
  - unfold bind at 1. simpl liftOption. unfold ret.
    unfold bind at 1. rewrite Hnorm.
    unfold bind at 1.
    rewrite (readOptions_at _ _ _ (unchangedOutside_nil _ _ Hframe _ _ Hopts)).
    now rewrite Hruns.
Qed.

Lemma enrich_agrees
  (commitsPerDay : Q) (options wfLoc : loc) (opts : Options) (wf : Workflow)
  (h : store) :
  nth_error h options = Some (OOptions opts) ->
  nth_error h wfLoc = Some (OWorkflow wf) ->
  exists e l h',
    enrich commitsPerDay opts wf = Some e
    /\ Imperative.enrich commitsPerDay options wfLoc h = Some (l, h')
    /\ nth_error h' l = Some (OEnriched e).
Proof.
  intros Hopts Hwf. unfold enrich, Imperative.enrich.
  destruct (estimateWorkflowRunsPerMonth_agrees
              (if Val.truthy (parsed wf) then parsed wf else recordObject wf)
              commitsPerDay options opts h Hopts) as [runs [h1 [-> Hrun]]].
  unfold bind at 1. rewrite (readWorkflow_at _ _ _ Hwf).
  unfold bind at 1. rewrite Hrun.
  eexists. exists (length h1). eexists.
  split; [reflexivity|]. split; [reflexivity|]. apply nth_error_new.
Qed.

Lemma forM_enrich_agrees
  (commitsPerDay : Q) (options : loc) (opts : Options)
  (locs : list loc) (wfs : list Workflow) (h : store) :
  nth_error h options = Some (OOptions opts) ->
  Forall2 (fun l wf => nth_error h l = Some (OWorkflow wf)) locs wfs ->
  exists es elocs h',
    mapM (enrich commitsPerDay opts) wfs = Some es
    /\ Imperative.forM (Imperative.enrich commitsPerDay options) locs h
       = Some (elocs, h')
    /\ Forall2 (fun l e => nth_error h' l = Some (OEnriched e)) elocs es
    /\ unchangedOutside [] h h'.
Proof.
  revert wfs h. induction locs as [|l locs IH]; intros wfs h Hopts Hwfs.
  - inversion Hwfs; subst. exists [], [], h.
    repeat split; try constructor; auto.
  - inversion Hwfs as [|l' wf locs' wfs' Hl Hrest]; subst.
    destruct (enrich_agrees commitsPerDay options l opts wf h Hopts Hl)
      as [e [el [h1 [He [Hrun Hel]]]]].
    pose proof (frames_enrich [] _ _ _ _ _ _ Hrun) as F1.
    assert (Hopts1 : nth_error h1 options = Some (OOptions opts))
      by exact (unchangedOutside_nil _ _ F1 _ _ Hopts).
    assert (Hrest1 : Forall2 (fun l wf => nth_error h1 l = Some (OWorkflow wf))
                       locs wfs').
    { eapply Forall2_impl; [|exact Hrest].
      intros a b Hab. exact (unchangedOutside_nil _ _ F1 _ _ Hab). }
    destruct (IH wfs' h1 Hopts1 Hrest1) as [es [elocs [h2 [Hes [Hrun2 [Hcells F2]]]]]].
    exists (e :: es), (el :: elocs), h2. repeat split.
    + simpl. now rewrite He, Hes.
    + simpl. unfold bind at 1. rewrite Hrun. unfold bind at 1. now rewrite Hrun2.
    + constructor; [exact (unchangedOutside_nil _ _ F2 _ _ Hel)|exact Hcells].
    + apply (proj1 (unchangedOutside_trans [] _ _ _ F1 F2)).
    + intros l0 o Hl0 _. exact (unchangedOutside_nil _ _ F2 _ _
                                  (unchangedOutside_nil _ _ F1 _ _ Hl0)).
Qed.

Lemma forM_readEnriched_at (locs : list loc) (es : list Enriched) (h : store) :
  Forall2 (fun l e => nth_error h l = Some (OEnriched e)) locs es ->
  Imperative.forM Imperative.readEnriched locs h = Some (es, h).
Proof.
  induction 1 as [|l e locs es Hl Hrest IH]; [reflexivity|].
  simpl. unfold bind at 1.
  unfold Imperative.readEnriched at 1, bind at 1. rewrite (read_at _ _ _ Hl).
  unfold ret at 1. unfold bind at 1. now rewrite IH.
Qed.

(** On a store that holds the workflow records, their array and the
    options, the store-level [calculateMonthlyCosts] returns a new report
    object whose content is the value-level report. *)
Lemma calculateMonthlyCosts_agrees
  (workflows options : loc) (commitsPerDay : Q) (opts : Options)
  (locs : list loc) (wfs : list Workflow) (h : store) :
  nth_error h workflows = Some (OArray locs) ->
  Forall2 (fun l wf => nth_error h l = Some (OWorkflow wf)) locs wfs ->
  nth_error h options = Some (OOptions opts) ->
  exists r report h',
    calculateMonthlyCosts wfs commitsPerDay opts = Some r
    /\ Imperative.calculateMonthlyCosts workflows commitsPerDay options h
       = Some (report, h')
    /\ nth_error h' report = Some (OReport r).
Proof.
  intros Harr Hwfs Hopts.
  destruct (forM_enrich_agrees commitsPerDay options opts locs wfs h Hopts Hwfs)
    as [es [elocs [h1 [Hes [Hrun [Hcells _]]]]]].
  exists (costReport es), (S (length h1)), ((h1 ++ [OArray elocs]) ++ [OReport (costReport es)])%list.
  split; [unfold calculateMonthlyCosts; now rewrite Hes|].
  split.
  - unfold Imperative.calculateMonthlyCosts.
    unfold bind at 1. rewrite (readArray_at _ _ _ Harr).
    unfold bind at 1. rewrite Hrun.
    unfold bind at 1. unfold alloc at 1.
    unfold bind at 1. rewrite (readArray_at _ _ _ (nth_error_new h1 _)).
    unfold bind at 1.
    rewrite (forM_readEnriched_at elocs es (h1 ++ [OArray elocs])%list).
    + unfold alloc. rewrite length_app. simpl. now rewrite Nat.add_1_r.
    + eapply Forall2_impl; [|exact Hcells].
      intros a b Hab. rewrite nth_error_app1; [exact Hab|].
      apply nth_error_Some. congruence.
  - replace (S (length h1)) with (length (h1 ++ [OArray elocs])%list)
      by (rewrite length_app; simpl; lia).
    apply nth_error_new.
Qed.

End Agreement.

Section AgreementOfAdvice.

Import Store.

Lemma holdsRecommendations_frame
  (h h' : store) (arr : loc) (recs : list Recommendation) :
  holdsRecommendations h arr recs -> unchangedOutside [] h h' ->
  holdsRecommendations h' arr recs.
Proof.
  intros [locs [Harr Hcells]] F. exists locs. split.
  - exact (unchangedOutside_nil _ _ F _ _ Harr).
  - eapply Forall2_impl; [|exact Hcells].
    intros a b Hab. exact (unchangedOutside_nil _ _ F _ _ Hab).
Qed.

Lemma push_agrees
  (arr : loc) (r : Recommendation) (recs : list Recommendation) (h : store) :
  holdsRecommendations h arr recs ->
  exists h',
    (fresh <~ alloc (ORecommendation r) ;;
     items <~ Imperative.readArray arr ;;
     write arr (OArray (items ++ [fresh])%list)) h
    = Some (tt, h')
    /\ holdsRecommendations h' arr (recs ++ [r]).
Proof.
  intros [locs [Harr Hcells]].
  assert (Larr : (arr < length h)%nat) by (apply nth_error_Some; congruence).
  set (h1 := (h ++ [ORecommendation r])%list).
  assert (Harr1 : nth_error h1 arr = Some (OArray locs))
    by (unfold h1; now rewrite nth_error_app1).
  exists (update h1 arr (OArray (locs ++ [length h]))). split.
  - unfold bind at 1, alloc. fold h1.
    unfold bind at 1. rewrite (readArray_at _ _ _ Harr1).
    apply (write_at _ _ _ _ Harr1).
  - exists (locs ++ [length h])%list. split.
    + apply update_same. unfold h1. rewrite length_app. simpl. lia.
    + apply Forall2_app.
      * eapply Forall2_impl; [|exact Hcells].
        intros l x Hl. rewrite update_other by congruence.
        unfold h1. rewrite nth_error_app1; [exact Hl|].
        apply nth_error_Some. congruence.
      * constructor; [|constructor].
        rewrite update_other by lia. apply nth_error_new.
Qed.

Lemma pushAll_agrees
  (arr : loc) (found recs : list Recommendation) (h : store) :
  holdsRecommendations h arr recs ->
  exists h',
    Imperative.pushAll arr found h = Some (tt, h')
    /\ holdsRecommendations h' arr (recs ++ found).
Proof.
  revert recs h. induction found as [|r found IH]; intros recs h Hholds.
  - exists h. rewrite app_nil_r. split; [reflexivity|exact Hholds].
  - destruct (push_agrees arr r recs h Hholds) as [h1 [Hpush H1]].
    destruct (IH (recs ++ [r])%list h1 H1) as [h2 [Hrest H2]].
    exists h2. split.
    + unfold Imperative.pushAll in *. simpl Imperative.forEach.
      unfold bind at 1. rewrite Hpush. exact Hrest.
    + now rewrite <- app_assoc in H2.
Qed.

Lemma bind_run {A B : Type} (m : M A) (k : A -> M B) (h h1 : store) (a : A) :
  m h = Some (a, h1) -> bind m k h = k a h1.
Proof. intros E. unfold bind. now rewrite E. Qed.

Lemma bind_fail {A B : Type} (m : M A) (k : A -> M B) (h : store) :
  m h = None -> bind m k h = None.
Proof. intros E. unfold bind. now rewrite E. Qed.

Lemma bind_lift {A B : Type} (o : option A) (k : A -> M B) (h : store) :
  bind (liftOption o) k h
  = match o with Some a => k a h | None => None end.
Proof. destruct o; reflexivity. Qed.

Lemma jobs_loop_agrees
  (arr : loc) (wf : Workflow) (runs : Q) (jobs : list (string * value))
  (recs : list Recommendation) (h : store) :
  holdsRecommendations h arr recs ->
  pushes arr recs (jobRecommendations wf runs jobs)
    (Imperative.forEach
       (fun entry =>
          let jobName := fst entry in
          let job := snd entry in
          caching <~
            liftOption (detectMissingCaching (name wf) jobName job runs) ;;
          _ <~ Imperative.pushAll arr caching ;;
          matrix <~ liftOption (detectLargeMatrix wf jobName job runs) ;;
          Imperative.pushAll arr matrix)
       jobs h).
Proof.
  revert recs h. induction jobs as [|[jobName job] jobs IH]; intros recs h Hholds.
  - simpl. exists h. rewrite app_nil_r. split; [reflexivity|exact Hholds].
  - simpl jobRecommendations. simpl Imperative.forEach.
    unfold bind at 1. rewrite bind_lift.
    destruct (detectMissingCaching (name wf) jobName job runs) as [caching|];
      [|reflexivity].
    destruct (pushAll_agrees arr caching recs h Hholds) as [h1 [E1 H1]].
    rewrite (bind_run _ _ _ _ _ E1), bind_lift.
    destruct (detectLargeMatrix wf jobName job runs) as [matrix|];
      [|reflexivity].
    destruct (pushAll_agrees arr matrix _ h1 H1) as [h2 [E2 H2]].
    rewrite E2.
    specialize (IH _ h2 H2). unfold pushes in *.
    destruct (jobRecommendations wf runs jobs) as [others|].
    + destruct IH as [h3 [E3 H3]]. exists h3. split; [exact E3|].
      now rewrite <- !app_assoc in H3.
    + exact IH.
Qed.

Lemma detectHighFrequency_agrees (wf : Workflow) (workflow : value) (h : store) :
  match detectHighFrequency wf workflow with
  | Some found =>
      exists h', Imperative.detectHighFrequency wf workflow h = Some (found, h')
                 /\ unchangedOutside [] h h'
  | None => Imperative.detectHighFrequency wf workflow h = None
  end.
Proof.
  unfold detectHighFrequency, Imperative.detectHighFrequency.
  rewrite bind_lift.
  destruct (Val.prop workflow "on") as [onConfig|]; [|reflexivity].
  destruct (Val.truthy onConfig).
  - destruct (normalizeTriggers_agrees onConfig h) as [h1 E].
    rewrite (bind_run _ _ _ _ _ E).
    pose proof (frames_normalizeTriggers [] _ _ _ _ E) as F.
    destruct (frequencyAdvice wf (normalizeTriggers onConfig)) as [found|];
      [|reflexivity].
    exists h1. split; [reflexivity|exact F].
  - exists h. split; [reflexivity|apply unchangedOutside_refl].
Qed.

Lemma workflowRecommendations_agrees
  (commitsPerDay : Q) (arr wfLoc : loc) (wf : Workflow)
  (recs : list Recommendation) (h : store) :
  nth_error h wfLoc = Some (OWorkflow wf) ->
  holdsRecommendations h arr recs ->
  pushes arr recs (workflowRecommendations commitsPerDay wf)
    (Imperative.workflowRecommendations commitsPerDay arr wfLoc h).
Proof.
  intros Hwf Hholds.
  unfold workflowRecommendations, Imperative.workflowRecommendations.
  rewrite (bind_run _ _ _ _ _ (readWorkflow_at _ _ _ Hwf)).
  unfold bind at 1, alloc at 1.
  set (h1 := (h ++ [OOptions noOptions])%list).
  assert (F1 : unchangedOutside [] h h1) by apply unchangedOutside_alloc.
  destruct (estimateWorkflowRunsPerMonth_agrees (parsed wf) commitsPerDay
              (length h) noOptions h1 (nth_error_new _ _))
    as [runs [h2 [-> Hrun]]].
  rewrite (bind_run _ _ _ _ _ Hrun), bind_lift.
  pose proof (frames_estimateWorkflowRunsPerMonth [] _ _ _ _ _ _ Hrun) as F2.
  assert (H2 : holdsRecommendations h2 arr recs).
  { eapply holdsRecommendations_frame; [|exact F2].
    eapply holdsRecommendations_frame; [exact Hholds|exact F1]. }
  destruct (Val.prop (parsed wf) "jobs") as [jobs|]; [|reflexivity].
  destruct (negb (Val.truthy jobs)).
  { exists h2. rewrite app_nil_r. split; [reflexivity|exact H2]. }
  pose proof (jobs_loop_agrees arr wf runs (Val.entries jobs) recs h2 H2) as Hjobs.
  unfold pushes in Hjobs.
  destruct (jobRecommendations wf runs (Val.entries jobs)) as [perJob|].
  2:{ now rewrite (bind_fail _ _ _ Hjobs). }
  destruct Hjobs as [h3 [E3 H3]]. rewrite (bind_run _ _ _ _ _ E3).
  pose proof (detectHighFrequency_agrees wf (parsed wf) h3) as Hfreq.
  destruct (detectHighFrequency wf (parsed wf)) as [frequency|].
  2:{ now rewrite (bind_fail _ _ _ Hfreq). }
  destruct Hfreq as [h4 [E4 F4]]. rewrite (bind_run _ _ _ _ _ E4).
  pose proof (holdsRecommendations_frame _ _ _ _ H3 F4) as H4.
  destruct (pushAll_agrees arr frequency _ h4 H4) as [h5 [E5 H5]].
  rewrite (bind_run _ _ _ _ _ E5), bind_lift.
  destruct (detectMissingPathFilters wf (parsed wf) runs) as [conditional|];
    [|reflexivity].
  destruct (pushAll_agrees arr conditional _ h5 H5) as [h6 [E6 H6]].
  exists h6. split; [exact E6|]. now rewrite <- !app_assoc in H6.
Qed.

Lemma workflows_loop_agrees
  (commitsPerDay : Q) (arr : loc) (locs : list loc) (wfs : list Workflow)
  (recs : list Recommendation) (h : store) :
  Forall2 (fun l wf => nth_error h l = Some (OWorkflow wf)) locs wfs ->
  holdsRecommendations h arr recs ->
  pushes arr recs (collectRecommendations commitsPerDay wfs)
    (Imperative.forEach (Imperative.workflowRecommendations commitsPerDay arr)
       locs h).
Proof.
  revert wfs recs h. induction locs as [|l locs IH]; intros wfs recs h Hwfs Hholds.
  - inversion Hwfs; subst. simpl. exists h. rewrite app_nil_r.
    split; [reflexivity|exact Hholds].
  - inversion Hwfs as [|l' wf locs' wfs' Hl Hrest]; subst.
    simpl collectRecommendations. simpl Imperative.forEach.
    pose proof (workflowRecommendations_agrees commitsPerDay arr l wf recs h
                  Hl Hholds) as Hstep.
    unfold pushes in Hstep.
    destruct (workflowRecommendations commitsPerDay wf) as [here|].
    2:{ now rewrite (bind_fail _ _ _ Hstep). }
    destruct Hstep as [h1 [E1 H1]]. rewrite (bind_run _ _ _ _ _ E1).
    assert (F1 : unchangedOutside [arr] h h1).
    { apply (frames_workflowRecommendations [arr] _ _ _ (or_introl eq_refl)
               _ _ _ E1). }
    assert (Hrest1 : Forall2 (fun l wf => nth_error h1 l = Some (OWorkflow wf))
                       locs wfs').
    { eapply Forall2_impl; [|exact Hrest].
      intros a b Hab. apply (proj2 F1 _ _ Hab).
      destruct Hholds as [items [Harr _]].
      intros [->|[]]. congruence. }
    specialize (IH wfs' _ h1 Hrest1 H1). unfold pushes in *.
    destruct (collectRecommendations commitsPerDay wfs') as [others|].
    + destruct IH as [h2 [E2 H2]]. exists h2. split; [exact E2|].
      now rewrite <- app_assoc in H2.
    + exact IH.
Qed.

End AgreementOfAdvice.

Section AgreementOfSorting.

Import Store.

Lemma insertBy_map {A B : Type} (f : A -> B) (cmp : B -> B -> Q)
  (x : A) (l : list A) :
  map f (insertBy (fun a b => cmp (f a) (f b)) x l)
  = insertBy cmp (f x) (map f l).
Proof.
  induction l as [|y l IH]; [reflexivity|].
  simpl. destruct (Num.lt 0 (cmp (f x) (f y))); simpl; [now rewrite IH|reflexivity].
Qed.

Lemma sortBy_map {A B : Type} (f : A -> B) (cmp : B -> B -> Q) (l : list A) :
  map f (sortBy (fun a b => cmp (f a) (f b)) l) = sortBy cmp (map f l).
Proof.
  induction l as [|x l IH]; [reflexivity|].
  simpl. now rewrite insertBy_map, IH.
Qed.

Lemma combine_of_Forall2 {A B : Type} (P : A -> B -> Prop)
  (xs : list A) (ys : list B) :
  Forall2 P xs ys ->
  map fst (combine xs ys) = xs
  /\ map snd (combine xs ys) = ys
  /\ Forall (fun p => P (fst p) (snd p)) (combine xs ys).
Proof.
  induction 1 as [|x y xs ys Hxy _ [IH1 [IH2 IH3]]]; simpl.
  - repeat split; constructor.
  - rewrite IH1, IH2. repeat split. constructor; assumption.
Qed.

Lemma Forall2_of_pairs {A B : Type} (P : A -> B -> Prop) (l : list (A * B)) :
  Forall (fun p => P (fst p) (snd p)) l ->
  Forall2 P (map fst l) (map snd l).
Proof. induction 1; simpl; constructor; assumption. Qed.

Lemma forM_readRecommendation_at
  (locs : list loc) (recs : list Recommendation) (h : store) :
  Forall2 (fun l r => nth_error h l = Some (ORecommendation r)) locs recs ->
  Imperative.forM Imperative.readRecommendation locs h = Some (recs, h).
Proof.
  induction 1 as [|l r locs recs Hl Hrest IH]; [reflexivity|].
  simpl.
  assert (E : Imperative.readRecommendation l h = Some (r, h)).
  { unfold Imperative.readRecommendation.
    now rewrite (bind_run _ _ _ _ _ (read_at _ _ _ Hl)). }
  rewrite (bind_run _ _ _ _ _ E), (bind_run _ _ _ _ _ IH). reflexivity.
Qed.

Lemma sortInPlace_agrees (arr : loc) (recs : list Recommendation) (h : store) :
  holdsRecommendations h arr recs ->
  exists h',
    Imperative.sortInPlace arr h = Some (tt, h')
    /\ holdsRecommendations h' arr (sortBy bySavingsDescending recs).
Proof.
  intros [locs [Harr Hcells]].
  destruct (combine_of_Forall2 _ _ _ Hcells) as [Hfst [Hsnd Hpairs]].
  set (sorted :=
         sortBy (fun a b : loc * Recommendation =>
                   bySavingsDescending (snd a) (snd b))
                (combine locs recs)).
  exists (update h arr (OArray (map fst sorted))). split.
  - unfold Imperative.sortInPlace.
    rewrite (bind_run _ _ _ _ _ (readArray_at _ _ _ Harr)).
    rewrite (bind_run _ _ _ _ _ (forM_readRecommendation_at _ _ _ Hcells)).
    apply (write_at _ _ _ _ Harr).
  - exists (map fst sorted). split.
    + apply update_same. apply nth_error_Some. congruence.
    + assert (Hsorted : map snd sorted = sortBy bySavingsDescending recs).
      { unfold sorted. rewrite (sortBy_map snd bySavingsDescending).
        f_equal. exact Hsnd. }
      rewrite <- Hsorted. apply Forall2_of_pairs.
      assert (Hperm : Permutation (combine locs recs) sorted)
        by apply (sortBy_permutation (fun p => potentialSavings (snd p))).
      apply (Permutation_Forall Hperm).
      eapply Forall_impl; [|exact Hpairs].
      intros [l r] Hl. simpl in *. rewrite update_other by congruence. exact Hl.
Qed.

(** On a store that holds the workflow records and their array, the
    store-level [analyzeOptimizations] returns a new array of new
    recommendation objects with the contents the value-level function
    returns, and throws exactly when that one does. *)
Lemma analyzeOptimizations_agrees
  (workflows : loc) (commitsPerDay : Q)
  (locs : list loc) (wfs : list Workflow) (h : store) :
  nth_error h workflows = Some (OArray locs) ->
  Forall2 (fun l wf => nth_error h l = Some (OWorkflow wf)) locs wfs ->
  match analyzeOptimizations wfs commitsPerDay with
  | Some recs =>
      exists arr h',
        Imperative.analyzeOptimizations workflows commitsPerDay h
        = Some (arr, h')
        /\ holdsRecommendations h' arr recs
  | None => Imperative.analyzeOptimizations workflows commitsPerDay h = None
  end.
Proof.
  intros Harr Hwfs.
  set (h1 := (h ++ [OArray []])%list).
  assert (Hnew : holdsRecommendations h1 (length h) []).
  { exists []. split; [apply nth_error_new|constructor]. }
  assert (Harr1 : nth_error h1 workflows = Some (OArray locs)).
  { unfold h1. rewrite nth_error_app1; [exact Harr|].
    apply nth_error_Some. congruence. }
  assert (Hwfs1 : Forall2 (fun l wf => nth_error h1 l = Some (OWorkflow wf))
                    locs wfs).
  { eapply Forall2_impl; [|exact Hwfs].
    intros a b Hab. unfold h1. rewrite nth_error_app1; [exact Hab|].
    apply nth_error_Some. congruence. }
  assert (E0 : Imperative.analyzeOptimizations workflows commitsPerDay h
               = (_ <~ Imperative.forEach
                         (Imperative.workflowRecommendations commitsPerDay
                            (length h)) locs ;;
                  _ <~ Imperative.sortInPlace (length h) ;;
                  ret (length h)) h1).
  { unfold Imperative.analyzeOptimizations. unfold bind at 1, alloc at 1.
    fold h1. now rewrite (bind_run _ _ _ _ _ (readArray_at _ _ _ Harr1)). }
  rewrite E0. clear E0. unfold analyzeOptimizations.
  pose proof (workflows_loop_agrees commitsPerDay (length h) locs wfs [] h1
                Hwfs1 Hnew) as Hloop.
  unfold pushes in Hloop.
  destruct (collectRecommendations commitsPerDay wfs) as [found|].
  2:{ now rewrite (bind_fail _ _ _ Hloop). }
  destruct Hloop as [h2 [E2 H2]]. rewrite (bind_run _ _ _ _ _ E2).
  simpl app in H2.
  destruct (sortInPlace_agrees (length h) found h2 H2) as [h3 [E3 H3]].
  rewrite (bind_run _ _ _ _ _ E3).
  exists (length h), h3. split; [reflexivity|exact H3].
Qed.

End AgreementOfSorting.

Lemma analysis_leaves_inputs_unchanged_witness :
  let h :=
    [Store.OWorkflow ciWorkflow;
     Store.OWorkflow barePushWorkflow;
     Store.OArray [0%nat; 1%nat];
     Store.OOptions noOptions] in
  exists report h1 recommendations h2,
    Imperative.calculateMonthlyCosts 2%nat 2 3%nat h = Some (report, h1)
    /\ Imperative.analyzeOptimizations 2%nat 2 h = Some (recommendations, h2)
    /\ (forall l o, nth_error h l = Some o -> nth_error h1 l = Some o)
    /\ nth_error h report = None
    /\ (forall l o, nth_error h l = Some o -> nth_error h2 l = Some o)
    /\ nth_error h recommendations = None.
Proof.
  intros h.
  destruct (Imperative.calculateMonthlyCosts 2%nat 2 3%nat h)
    as [[report h1]|] eqn:E1; [|discriminate E1].
  destruct (Imperative.analyzeOptimizations 2%nat 2 h)
    as [[recommendations h2]|] eqn:E2;
    [|vm_compute in E2; discriminate E2].
  exists report, h1, recommendations, h2.
  split; [reflexivity|]. split; [reflexivity|].
  destruct (proj1 analysis_leaves_inputs_unchanged _ _ _ _ _ _ E1)
    as [U1 [N1 _]].
  destruct (proj2 (proj2 analysis_leaves_inputs_unchanged) _ _ _ _ _ E2)
    as [U2 N2].
  repeat split; assumption.
Defined.

(** ** The analysis returns on documents of the documented shape *)

Lemma prop_readable (v r : value) (key key' : string) :
  Val.prop v key = Some r -> exists r', Val.prop v key' = Some r'.
Proof. destruct v; simpl; intros H; try discriminate; eauto. Qed.

Lemma usesCache_typed (step : value) (s : StepSpec) :
  readStep step = Some s -> usesCache step = Some (stepCaches s).
Proof.
  intros Hread.
  destruct (readStep_inv _ _ Hread)
    as [name [run [uses [_ [_ [Huses [_ [_ Ht]]]]]]]].
  unfold usesCache, stepCaches. rewrite Huses.
  destruct (readText_cases _ _ Ht) as [[-> Hfalsy]|[text [-> ->]]].
  - now rewrite Hfalsy.
  - destruct text as [|c u]; [reflexivity|].
    change (Val.truthy (VStr (String c u))) with true. cbv iota.
    cbn [Val.includes].
    now destruct (Str.includes "actions/cache" (String c u)).
Qed.

Lemma runsInstall_typed (step : value) (s : StepSpec) :
  readStep step = Some s -> runsInstall step = Some (stepInstalls s).
Proof.
  intros Hread.
  destruct (readStep_inv _ _ Hread)
    as [name [run [uses [_ [Hrun [_ [_ [Ht _]]]]]]]].
  unfold runsInstall, stepInstalls. rewrite Hrun.
  destruct (readText_cases _ _ Ht) as [[-> Hfalsy]|[text [-> ->]]].
  - now rewrite Hfalsy.
  - destruct text as [|c r]; [reflexivity|].
    change (Val.truthy (VStr (String c r))) with true. cbv iota.
    cbn [Val.includes].
    destruct (Str.includes "npm install" (String c r)); try reflexivity.
    destruct (Str.includes "yarn install" (String c r)); try reflexivity.
    destruct (Str.includes "pnpm install" (String c r)); reflexivity.
Qed.

Lemma some_typed (f : value -> option bool) (g : StepSpec -> bool)
  (items : list value) (steps : list StepSpec) :
  (forall step s, readStep step = Some s -> f step = Some (g s)) ->
  mapM readStep items = Some steps ->
  Val.some f items = Some (existsb g steps).
Proof.
  intros Hfg. revert steps.
  induction items as [|item items IH]; intros steps Hread.
  - injection Hread as <-. reflexivity.
  - destruct (mapM_inv_cons _ _ _ _ Hread) as [s [rest [Hs [Hrest ->]]]].
    cbn [Val.some existsb]. rewrite (Hfg _ _ Hs).
    destruct (g s); [reflexivity|]. now apply IH.
Qed.

Lemma detectMissingCaching_typed
  (workflowName jobName : string) (job : value) (j : JobSpec) (runs : Q) :
  readJob job = Some j ->
  detectMissingCaching workflowName jobName job runs
  = Some (if installsWithoutCache j
          then [cachingAdvice workflowName jobName runs] else []).
Proof.
  intros Hread.
  destruct (readJob_inv _ _ Hread) as [steps [strategy [Hsteps [_ [Hlisted _]]]]].
  unfold detectMissingCaching, installsWithoutCache. rewrite Hsteps.
  destruct steps; try (now rewrite Hlisted).
  destruct Hlisted as [typed [Htyped ->]].
  rewrite (some_typed usesCache stepCaches _ _ usesCache_typed Htyped),
          (some_typed runsInstall stepInstalls _ _ runsInstall_typed Htyped).
  now destruct (existsb stepInstalls typed && negb (existsb stepCaches typed)).
Qed.

Lemma le_compat (bound x y : Q) : x == y -> Num.le bound x = Num.le bound y.
Proof.
  intros E. unfold Num.le.
  destruct (Qle_bool bound x) eqn:Hx, (Qle_bool bound y) eqn:Hy;
    try reflexivity.
  - apply Qle_bool_iff in Hx. rewrite E in Hx. apply Qle_bool_iff in Hx.
    congruence.
  - apply Qle_bool_iff in Hy. rewrite <- E in Hy. apply Qle_bool_iff in Hy.
    congruence.
Qed.

Lemma detectLargeMatrix_typed
  (wf : Workflow) (jobName : string) (job : value) (j : JobSpec) (runs : Q) :
  readJob job = Some j ->
  detectLargeMatrix wf jobName job runs
  = Some match jobMatrix j with
         | Some axes =>
             if Num.le 6 (combinationCount axes)
             then [matrixAdvice wf jobName (combinationCount axes) runs]
             else []
         | None => []
         end.
Proof.
  intros Hread.
  destruct (readJob_inv _ _ Hread)
    as [steps [strategy [_ [Hstrategy [_ Hmatrix]]]]].
  unfold detectLargeMatrix. rewrite Hstrategy.
  destruct Hmatrix as [[-> [Hfalsy|[matrix [Hm Hfalsy]]]]
                      |[matrix [Htruthy [Hm [Hgiven ->]]]]].
  - now rewrite Hfalsy.
  - destruct (Val.truthy strategy); [|reflexivity].
    now rewrite Hm, Hfalsy.
  - rewrite Htruthy, Hm, Hgiven.
    rewrite !(le_compat _ _ _ (calculateMatrixSize_reference matrix)).
    now destruct (Num.le 6 (combinationCount (readMatrix matrix))).
Qed.

Lemma jobRecommendations_typed
  (wf : Workflow) (runs : Q) (entries : list (string * value))
  (jobs : list (string * JobSpec)) :
  mapM readEntry entries = Some jobs ->
  jobRecommendations wf runs entries
  = Some (flat_map (jobAdvice wf runs) jobs).
Proof.
  revert jobs. induction entries as [|[jobName job] entries IH]; intros jobs.
  - intros E. injection E as <-. reflexivity.
  - intros Hread.
    destruct (mapM_inv_cons _ _ _ _ Hread) as [[k j] [rest [Hj [Hrest ->]]]].
    unfold readEntry in Hj. cbn [fst snd] in Hj.
    destruct (readJob job) as [j'|] eqn:Hjob; [|discriminate].
    injection Hj as <- <-.
    cbn [jobRecommendations flat_map].
    rewrite (detectMissingCaching_typed _ _ _ _ _ Hjob),
            (detectLargeMatrix_typed _ _ _ _ _ Hjob), (IH _ Hrest).
    unfold jobAdvice. cbn [fst snd]. now rewrite app_assoc.
Qed.

Lemma frequencyAdvice_total (wf : Workflow) (triggers : list (string * value)) :
  exists l, frequencyAdvice wf triggers = Some l.
Proof.
  unfold frequencyAdvice.
  destruct (Val.hasOwn triggers "schedule"); [|eauto].
  destruct (estimateSchedule_total (Val.lookup triggers "schedule"))
    as [r [-> _]].
  eauto.
Qed.

Lemma detectHighFrequency_total (wf : Workflow) (document onConfig : value) :
  Val.prop document "on" = Some onConfig ->
  exists l, detectHighFrequency wf document = Some l.
Proof.
  intros Hon. unfold detectHighFrequency. rewrite Hon.
  destruct (Val.truthy onConfig); [|eauto].
  apply frequencyAdvice_total.
Qed.

Lemma detectMissingPathFilters_total
  (wf : Workflow) (document onConfig : value) (runs : Q) :
  Val.prop document "on" = Some onConfig ->
  exists l, detectMissingPathFilters wf document runs = Some l.
Proof.
  intros Hon. destruct (Val.truthy onConfig) eqn:T.
  - destruct (prop_defined _ "push" T) as [push Hpush].
    destruct (prop_defined _ "pull_request" T) as [pr Hpr].
    rewrite (detectMissingPathFilters_spec wf _ _ _ _ runs Hon Hpush Hpr).
    eauto.
  - rewrite (detectMissingPathFilters_falsy wf _ _ runs Hon T).
    eauto.
Qed.

(** What one workflow of the documented shape adds: the advice for its
    jobs, then the advice of the two detectors that read [on]. *)
Lemma workflowRecommendations_documented
  (commitsPerDay : Q) (wf : Workflow) (jobsValue : value)
  (jobs : list (string * JobSpec)) :
  Val.prop (parsed wf) "jobs" = Some jobsValue ->
  readJobs jobsValue = Some jobs ->
  exists runs others,
    estimateWorkflowRunsPerMonth (parsed wf) commitsPerDay noOptions = Some runs
    /\ workflowRecommendations commitsPerDay wf
       = Some (flat_map (jobAdvice wf runs) jobs ++ others)%list
    /\ (others = []
        \/ exists frequency conditional,
             detectHighFrequency wf (parsed wf) = Some frequency
             /\ detectMissingPathFilters wf (parsed wf) runs = Some conditional
             /\ others = (frequency ++ conditional)%list).
Proof.
  intros Hjobs Hread. unfold workflowRecommendations.
  destruct (estimateWorkflowRunsPerMonth_total (parsed wf) commitsPerDay
              noOptions) as [runs [Hruns _]].
  rewrite Hruns, Hjobs. exists runs.
  unfold readJobs in Hread. destruct (Val.truthy jobsValue); cbn [negb].
  - rewrite (jobRecommendations_typed wf runs _ _ Hread).
    destruct (prop_readable _ _ "jobs" "on" Hjobs) as [onConfig Hon].
    destruct (detectHighFrequency_total wf _ _ Hon) as [frequency Hf].
    destruct (detectMissingPathFilters_total wf _ _ runs Hon)
      as [conditional Hc].
    rewrite Hf, Hc. exists (frequency ++ conditional)%list.
    split; [reflexivity|]. split; [reflexivity|]. right. eauto.
  - injection Hread as <-. exists []. split; [reflexivity|].
    split; [reflexivity|]. now left.
Qed.

Lemma workflowRecommendations_total (commitsPerDay : Q) (wf : Workflow) :
  hasDocumentedShape wf ->
  exists l, workflowRecommendations commitsPerDay wf = Some l.
Proof.
  intros [jobsValue [jobs [Hjobs Hread]]].
  destruct (workflowRecommendations_documented commitsPerDay wf _ _ Hjobs Hread)
    as [runs [others [_ [-> _]]]].
  eauto.
Qed.

(** On records of the documented shape [analyzeOptimizations] returns. *)
Lemma analyzeOptimizations_returns
  (workflows : list Workflow) (commitsPerDay : Q) :
  Forall hasDocumentedShape workflows ->
  exists recommendations,
    analyzeOptimizations workflows commitsPerDay = Some recommendations.
Proof.
  intros Hshape. unfold analyzeOptimizations.
  assert (H : exists found,
             collectRecommendations commitsPerDay workflows = Some found).
  { induction Hshape as [|wf rest Hwf _ [others IH]]; simpl; [eauto|].
    destruct (workflowRecommendations_total commitsPerDay wf Hwf) as [here ->].
    rewrite IH. eauto. }
  destruct H as [found ->]. eauto.
Qed.

(** * Further properties of the analyzer *)

(** ** Cron syntax *)

Lemma append_cons_assoc (cur : string) (c : ascii) (rest : string) :
  ((cur ++ String c EmptyString) ++ rest)%string = (cur ++ String c rest)%string.
Proof. induction cur as [|x cur IH]; simpl; [reflexivity|now rewrite IH]. Qed.

Lemma append_empty_r (s : string) : (s ++ EmptyString)%string = s.
Proof. induction s as [|c s IH]; simpl; [reflexivity|now rewrite IH]. Qed.

Lemma splitAcc_append (sep : ascii) (a b cur : string) :
  Str.splitAcc sep cur (a ++ String sep b)
  = (Str.splitAcc sep cur a ++ Str.splitAcc sep EmptyString b)%list.
Proof.
  revert cur. induction a as [|c a IH]; intros cur; simpl.
  - now rewrite Ascii.eqb_refl.
  - destruct (Ascii.eqb c sep); [now rewrite IH|apply IH].
Qed.

Lemma splitAcc_whole (sep : ascii) (a cur : string) :
  Str.hasChar sep a = false -> Str.splitAcc sep cur a = [(cur ++ a)%string].
Proof.
  revert cur. induction a as [|c a IH]; intros cur H; simpl.
  - now rewrite append_empty_r.
  - rewrite hasChar_cons in H. apply orb_false_iff in H. destruct H as [Hc Ha].
    rewrite Ascii.eqb_sym, Hc. rewrite (IH _ Ha). now rewrite append_cons_assoc.
Qed.

Lemma split_whole (sep : ascii) (a : string) :
  Str.hasChar sep a = false -> Str.split sep a = [a].
Proof. intros H. unfold Str.split. now rewrite (splitAcc_whole _ _ _ H). Qed.

Lemma split_pair (sep : ascii) (a b : string) :
  Str.hasChar sep a = false -> Str.hasChar sep b = false ->
  Str.split sep (a ++ String sep b) = [a; b].
Proof.
  intros Ha Hb. unfold Str.split.
  rewrite splitAcc_append, (splitAcc_whole _ _ _ Ha), (splitAcc_whole _ _ _ Hb).
  reflexivity.
Qed.

Lemma noSpace_cons (c : ascii) (s : string) :
  noSpace (String c s) = negb (Str.isSpace c) && noSpace s.
Proof. reflexivity. Qed.

Lemma trimEnd_noSpace (s : string) : noSpace s = true -> Str.trimEnd s = s.
Proof.
  induction s as [|c s IH]; intros H; [reflexivity|].
  rewrite noSpace_cons in H. apply andb_true_iff in H. destruct H as [Hc Hs].
  simpl. rewrite (IH Hs). apply negb_true_iff in Hc. now rewrite Hc.
Qed.

Lemma trim_noSpace (s : string) : noSpace s = true -> Str.trim s = s.
Proof.
  intros H. unfold Str.trim.
  assert (E : Str.trimStart s = s).
  { destruct s as [|c s]; [reflexivity|].
    rewrite noSpace_cons in H. apply andb_true_iff in H. destruct H as [Hc _].
    simpl. apply negb_true_iff in Hc. now rewrite Hc. }
  rewrite E. now apply trimEnd_noSpace.
Qed.

Lemma isPlain_inv (s : string) :
  isPlain s = true ->
  Str.hasChar "," s = false /\ Str.hasChar "/" s = false
  /\ Str.hasChar "-" s = false.
Proof.
  unfold isPlain. intros H.
  apply andb_true_iff in H. destruct H as [H H3].
  apply andb_true_iff in H. destruct H as [H1 H2].
  repeat split; now apply negb_true_iff.
Qed.

Lemma not_star (field : string) (c : ascii) :
  Str.hasChar c field = true -> Str.hasChar c "*" = false ->
  Str.isEmpty field || String.eqb field "*" = false.
Proof.
  intros Hfield Hstar. apply orb_false_iff. split.
  - destruct field; [discriminate|reflexivity].
  - destruct (String.eqb field "*") eqn:E; [|reflexivity].
    apply String.eqb_eq in E. subst. congruence.
Qed.

Lemma max_one_absorbed (x : Q) : 1 <= x -> Num.max 1 x == x.
Proof. apply max_absorb. Qed.

(** X1. A range [a-b] of two numbers with [a <= b] counts its values,
    [b - a + 1] slots. *)
Theorem cron_range_counts_its_values
  (a b : string) (first last maxSlots : Q) :
  isPlain a = true -> isPlain b = true ->
  Num.finite a = Some first -> Num.finite b = Some last ->
  first <= last ->
  countCronFieldSlots (a ++ String "-" b) maxSlots == last - first + 1.
Proof.
  intros Ha Hb Hfirst Hlast Hle.
  destruct (isPlain_inv a Ha) as [Ha1 [Ha2 Ha3]].
  destruct (isPlain_inv b Hb) as [Hb1 [Hb2 Hb3]].
  set (field := (a ++ String "-" b)%string).
  assert (Hdash : Str.hasChar "-" field = true).
  { unfold field. rewrite hasChar_append, hasChar_cons. simpl.
    now rewrite orb_true_r. }
  assert (Hcomma : Str.hasChar "," field = false).
  { unfold field. now rewrite hasChar_append, hasChar_cons, Ha1, Hb1. }
  assert (Hslash : Str.hasChar "/" field = false).
  { unfold field. now rewrite hasChar_append, hasChar_cons, Ha2, Hb2. }
  rewrite countCronFieldSlots_unfold, (not_star field "-" Hdash eq_refl), Hcomma.
  unfold cronSingleSlots. rewrite Hslash.
  unfold cronRangeSlots. rewrite Hdash.
  unfold field. rewrite (split_pair "-" a b Ha3 Hb3). simpl nth_error.
  unfold numberOf. rewrite Hfirst, Hlast.
  assert (L : Num.lt last first = false) by now apply lt_false.
  rewrite L. apply max_one_absorbed.
  setoid_replace 1 with (0 + 1) at 1 by ring.
  apply Qplus_le_l. apply (Qplus_le_l _ _ first). ring_simplify. exact Hle.
Qed.

Lemma cron_range_counts_its_values_witness :
  countCronFieldSlots "9-17" 24 == 17 - 9 + 1.
Proof.
  apply (cron_range_counts_its_values "9" "17" 9 17 24);
    try reflexivity.
  discriminate.
Defined.

(** X2. A step over the whole field, [*/n] with a positive number [n],
    counts [ceil(maxSlots / n)] slots; a step over a range, [a-b/n] with
    [a <= b], counts [ceil((b - a + 1) / n)]. *)
Theorem cron_step_divides_the_slots
  (a b n : string) (first last step maxSlots : Q) :
  Str.hasChar "," n = false -> Str.hasChar "/" n = false ->
  Num.finite n = Some step -> 0 < step ->
  (0 < maxSlots ->
   countCronFieldSlots (String "*" (String "/" n)) maxSlots
   == Num.ceil (maxSlots / step))
  /\ (isPlain a = true -> isPlain b = true ->
      Num.finite a = Some first -> Num.finite b = Some last ->
      first <= last ->
      countCronFieldSlots ((a ++ String "-" b) ++ String "/" n) maxSlots
      == Num.ceil ((last - first + 1) / step)).
Proof.
  intros Hn1 Hn2 Hstep Hpos.
  assert (Hle : Num.le step 0 = false) by now apply le_false.
  assert (Hceil : forall x, 0 < x -> 1 <= Num.ceil (x / step)).
  { intros x Hx. unfold Num.ceil.
    change 1 with (inject_Z 1). rewrite <- Zle_Qle.
    assert (H0 : 0 < x / step).
    { apply Qlt_shift_div_l; [exact Hpos|]. now rewrite Qmult_0_l. }
    assert (H1 : (0 < Qceiling (x / step))%Z).
    { apply Z.lt_nge. intros C.
      apply (Qlt_not_le _ _ H0).
      eapply Qle_trans; [apply Qle_ceiling|].
      change 0 with (inject_Z 0). now rewrite <- Zle_Qle. }
    lia. }
  split.
  - intros Hmax.
    set (field := String "*" (String "/" n)).
    assert (Hslash : Str.hasChar "/" field = true)
      by (unfold field; now rewrite !hasChar_cons).
    assert (Hcomma : Str.hasChar "," field = false)
      by (unfold field; now rewrite !hasChar_cons, Hn1).
    rewrite countCronFieldSlots_unfold, (not_star field "/" Hslash eq_refl),
      Hcomma.
    unfold cronSingleSlots. rewrite Hslash.
    change field with ("*" ++ String "/" n)%string.
    rewrite (split_pair "/" "*" n eq_refl Hn2). simpl nth_error. simpl hd.
    unfold numberOf. rewrite Hstep, Hle. simpl orb. cbv iota.
    apply max_one_absorbed, Hceil, Hmax.
  - intros Ha Hb Hfirst Hlast Hrange.
    destruct (isPlain_inv a Ha) as [Ha1 [Ha2 Ha3]].
    destruct (isPlain_inv b Hb) as [Hb1 [Hb2 Hb3]].
    set (base := (a ++ String "-" b)%string).
    assert (Hbase2 : Str.hasChar "/" base = false)
      by (unfold base; now rewrite hasChar_append, hasChar_cons, Ha2, Hb2).
    assert (Hbase1 : Str.hasChar "," base = false)
      by (unfold base; now rewrite hasChar_append, hasChar_cons, Ha1, Hb1).
    assert (Hbase3 : Str.hasChar "-" base = true).
    { unfold base. rewrite hasChar_append, hasChar_cons. simpl.
      now rewrite orb_true_r. }
    set (field := (base ++ String "/" n)%string).
    assert (Hslash : Str.hasChar "/" field = true).
    { unfold field. rewrite hasChar_append, hasChar_cons. simpl.
      now rewrite orb_true_r. }
    assert (Hcomma : Str.hasChar "," field = false)
      by (unfold field; now rewrite hasChar_append, hasChar_cons, Hbase1, Hn1).
    rewrite countCronFieldSlots_unfold, (not_star field "/" Hslash eq_refl),
      Hcomma.
    unfold cronSingleSlots. rewrite Hslash.
    unfold field. rewrite (split_pair "/" base n Hbase2 Hn2).
    simpl nth_error. simpl hd.
    unfold numberOf at 1. rewrite Hstep, Hle.
    rewrite (not_star base "-" Hbase3 eq_refl), Hbase3.
    unfold base. rewrite (split_pair "-" a b Ha3 Hb3). simpl nth_error.
    unfold numberOf. rewrite Hfirst, Hlast.
    assert (L : Num.lt last first = false) by now apply lt_false.
    rewrite L. apply max_one_absorbed, Hceil.
    apply Qlt_le_trans with 1; [reflexivity|].
    setoid_replace 1 with (0 + 1) at 1 by ring.
    apply Qplus_le_l. apply (Qplus_le_l _ _ first). ring_simplify. exact Hrange.
Qed.

Lemma cron_step_divides_the_slots_witness :
  countCronFieldSlots "*/15" 60 == Num.ceil (60 / 15)
  /\ countCronFieldSlots "1-5/2" 60 == Num.ceil ((5 - 1 + 1) / 2).
Proof.
  destruct (cron_step_divides_the_slots "1" "5" "15" 1 5 15 60
              eq_refl eq_refl eq_refl eq_refl) as [Hstar _].
  destruct (cron_step_divides_the_slots "1" "5" "2" 1 5 2 60
              eq_refl eq_refl eq_refl eq_refl) as [_ Hrange].
  split.
  - apply Hstar. reflexivity.
  - apply Hrange; try reflexivity. discriminate.
Defined.

Lemma fold_sum_shift {A : Type} (f : A -> Q) (l : list A) (acc : Q) :
  fold_left (fun sum x => sum + f x) l acc
  == acc + fold_left (fun sum x => sum + f x) l 0.
Proof.
  revert acc. induction l as [|x l IH]; intros acc; simpl.
  - ring.
  - rewrite (IH (acc + f x)), (IH (0 + f x)). ring.
Qed.

Lemma fold_sum_app {A : Type} (f : A -> Q) (l1 l2 : list A) :
  fold_left (fun sum x => sum + f x) (l1 ++ l2) 0
  == fold_left (fun sum x => sum + f x) l1 0
     + fold_left (fun sum x => sum + f x) l2 0.
Proof. rewrite fold_left_app. apply fold_sum_shift. Qed.

(** The parts of a field without white space sum up to the field's count. *)
Lemma cron_parts_sum (field : string) (maxSlots : Q) :
  noSpace field = true ->
  fold_left (fun sum part => sum + countCronFieldSlots part maxSlots)
    (map Str.trim (Str.split "," field)) 0
  == countCronFieldSlots field maxSlots.
Proof.
  intros Hspace.
  destruct (Str.hasChar "," field) eqn:Hcomma.
  - rewrite (countCronFieldSlots_unfold field), Hcomma.
    rewrite (not_star field "," Hcomma eq_refl). reflexivity.
  - rewrite (split_whole _ _ Hcomma). simpl.
    rewrite (trim_noSpace _ Hspace). ring.
Qed.

(** X3. A comma list counts the sum of its members: for fields without
    white space, [a,b] has the slots of [a] plus the slots of [b]. *)
Theorem cron_list_adds_its_members (a b : string) (maxSlots : Q) :
  noSpace a = true -> noSpace b = true ->
  countCronFieldSlots (a ++ String "," b) maxSlots
  == countCronFieldSlots a maxSlots + countCronFieldSlots b maxSlots.
Proof.
  intros Ha Hb.
  set (field := (a ++ String "," b)%string).
  assert (Hcomma : Str.hasChar "," field = true).
  { unfold field. rewrite hasChar_append, hasChar_cons. simpl.
    now rewrite orb_true_r. }
  rewrite (countCronFieldSlots_unfold field), Hcomma.
  rewrite (not_star field "," Hcomma eq_refl).
  unfold field, Str.split. rewrite splitAcc_append, map_app, fold_sum_app.
  fold (Str.split "," a). fold (Str.split "," b).
  now rewrite (cron_parts_sum a maxSlots Ha), (cron_parts_sum b maxSlots Hb).
Qed.

Lemma cron_list_adds_its_members_witness :
  countCronFieldSlots "0,30,*/20" 60
  == countCronFieldSlots "0,30" 60 + countCronFieldSlots "*/20" 60.
Proof.
  apply (cron_list_adds_its_members "0,30" "*/20" 60); reflexivity.
Defined.

(** ** Schedules *)

Lemma ceil_integer (x : Q) : isInteger (Num.ceil x).
Proof. exists (Qceiling x). reflexivity. Qed.

Lemma integer_plus (x y : Q) : isInteger x -> isInteger y -> isInteger (x + y).
Proof.
  intros [a Ha] [b Hb]. exists (a + b)%Z. rewrite Ha, Hb, inject_Z_plus.
  reflexivity.
Qed.

Lemma integer_max (x y : Q) : isInteger x -> isInteger y -> isInteger (Num.max x y).
Proof.
  intros Hx Hy. unfold Num.max.
  destruct (Q.max_spec x y) as [[_ E]|[_ E]].
  - destruct Hy as [b Hb]. exists b. now rewrite E.
  - destruct Hx as [a Ha]. exists a. now rewrite E.
Qed.

Lemma integer_compat (x y : Q) : x == y -> isInteger x -> isInteger y.
Proof. intros E [a Ha]. exists a. now rewrite <- E. Qed.

Lemma scheduleEntryRuns_integer (entry : value) (r : Q) :
  scheduleEntryRuns entry = Some r -> isInteger r.
Proof.
  unfold scheduleEntryRuns.
  destruct (entryCron entry) as [cron|]; [|discriminate].
  destruct (Str.splitSpaces cron) as [|f1 [|f2 [|f3 [|f4 [|f5 [|f6 l]]]]]];
    intros H; injection H as <-;
    try (exists 4%Z; reflexivity).
  apply integer_max; [exists 1%Z; reflexivity|apply ceil_integer].
Qed.

Lemma entriesTotal_integer (schedules : list value) :
  isInteger (entriesTotal schedules).
Proof.
  induction schedules as [|e l IH]; simpl.
  - exists 0%Z. reflexivity.
  - destruct (scheduleEntryRuns e) as [r|] eqn:E; [|exact IH].
    apply integer_plus; [exact (scheduleEntryRuns_integer _ _ E)|exact IH].
Qed.

Lemma entriesTotal_at_least (schedules : list value) :
  Num.ofNat (length schedules) <= entriesTotal schedules.
Proof.
  induction schedules as [|e l IH]; simpl.
  - apply Qle_refl.
  - destruct (scheduleEntryRuns_total e) as [r [-> Hr]].
    unfold Num.ofNat in *. rewrite Nat2Z.inj_succ. unfold Z.succ.
    rewrite inject_Z_plus, Qplus_comm.
    apply Qplus_le_compat; [exact Hr|exact IH].
Qed.

(** X4. The schedule estimate is the sum of what its entries contribute:
    the estimate of two lists of entries put together is the sum of their
    estimates; it is a whole number, at least the number of entries. *)
Theorem schedule_estimate_adds_up (first second : list value) :
  exists r r1 r2,
    estimateScheduleRunsPerMonth (VArr (first ++ second)) = Some r
    /\ estimateScheduleRunsPerMonth (VArr first) = Some r1
    /\ estimateScheduleRunsPerMonth (VArr second) = Some r2
    /\ r == r1 + r2
    /\ isInteger r
    /\ Num.ofNat (length (first ++ second)) <= r.
Proof.
  rewrite !estimateSchedule_array.
  destruct (addScheduleRuns_total (first ++ second) 0) as [r [-> Hr]].
  destruct (addScheduleRuns_total first 0) as [r1 [-> Hr1]].
  destruct (addScheduleRuns_total second 0) as [r2 [-> Hr2]].
  exists r, r1, r2. repeat split.
  - rewrite Hr, Hr1, Hr2, entriesTotal_app. ring.
  - apply (integer_compat (entriesTotal (first ++ second))).
    + rewrite Hr. ring.
    + apply entriesTotal_integer.
  - rewrite Hr, Qplus_0_l. apply entriesTotal_at_least.
Qed.

(** ** Run frequency *)

Lemma sumRuns_closed
  (f : TriggerFlags) (triggers : list (string * value))
  (commitsPerMonth pullRequestFactor manualRuns releaseRuns : Q) :
  exists total,
    sumRuns f triggers commitsPerMonth pullRequestFactor manualRuns releaseRuns
    = Some total
    /\ total == (if hasCommitPush f then commitsPerMonth else 0)
                + (if hasPullRequest f
                   then Num.ceil (commitsPerMonth * pullRequestFactor) else 0)
                + cadenceFreeRuns f triggers manualRuns releaseRuns.
Proof.
  unfold sumRuns, cadenceFreeRuns.
  destruct (estimateSchedule_total (Val.lookup triggers "schedule"))
    as [scheduled [-> _]].
  destruct f as [cp pr sc tp rl cr wd]. simpl.
  destruct cp, pr, sc, tp, rl, cr, wd; simpl;
    (eexists; split; [reflexivity|ring]).
Qed.

Lemma orDefault_positive (x : option Q) (fallback : Q) :
  notNegative x -> 0 < fallback -> 0 < orDefault x fallback.
Proof.
  intros Hx Hf. unfold orDefault. destruct x as [q|]; [|exact Hf].
  unfold Num.isZero. destruct (Qeq_bool q 0) eqn:E; [exact Hf|].
  apply Qeq_bool_neq in E. simpl in Hx.
  apply Qle_lteq in Hx. destruct Hx as [Hlt|Heq]; [exact Hlt|].
  exfalso. apply E. now symmetry.
Qed.

Lemma cadenceFreeRuns_nonneg
  (f : TriggerFlags) (triggers : list (string * value)) (manual release : Q) :
  0 <= manual -> 0 <= release ->
  0 <= cadenceFreeRuns f triggers manual release.
Proof.
  intros Hm Hr. unfold cadenceFreeRuns.
  assert (Hs : 0 <= (if hasSchedule f then
                       match estimateScheduleRunsPerMonth
                               (Val.lookup triggers "schedule") with
                       | Some scheduled => scheduled
                       | None => 0
                       end
                     else 0)).
  { destruct (hasSchedule f); [|apply Qle_refl].
    destruct (estimateSchedule_total (Val.lookup triggers "schedule"))
      as [s [-> Hs]]. exact Hs. }
  setoid_replace 0 with (0 + 0 + 0) at 1 by ring.
  repeat apply Qplus_le_compat; try exact Hs;
    match goal with
    | |- 0 <= (if ?c then _ else _) => destruct c; [assumption|apply Qle_refl]
    end.
Qed.

Lemma ceil_monotone (x y : Q) : x <= y -> Num.ceil x <= Num.ceil y.
Proof.
  intros H. unfold Num.ceil. rewrite <- Zle_Qle. now apply Qceiling_resp_le.
Qed.

Lemma max_monotone (x y : Q) : x <= y -> Num.max 1 x <= Num.max 1 y.
Proof.
  intros H. unfold Num.max. apply Q.max_le_compat_l. exact H.
Qed.

Lemma ceil_nonpositive (x : Q) : x <= 0 -> Num.ceil x <= 0.
Proof.
  intros H. apply Qle_trans with (Num.ceil 0); [now apply ceil_monotone|].
  apply Qle_refl.
Qed.

Lemma max_one_of_nonpositive (x : Q) : x <= 0 -> Num.max 1 x == 1.
Proof.
  intros H. unfold Num.max. apply Q.max_l.
  apply Qle_trans with 0; [exact H|discriminate].
Qed.

Lemma ceil_positive (x : Q) : 0 < x -> 0 < Num.ceil x.
Proof. intros H. eapply Qlt_le_trans; [exact H|apply ceil_ge]. Qed.

Lemma finishRuns_of_zero (commitsPerMonth total : Q) :
  total == 0 ->
  finishRuns commitsPerMonth total = Num.max 1 (Num.ceil commitsPerMonth).
Proof.
  intros H. unfold finishRuns, Num.isZero.
  apply Qeq_bool_iff in H. now rewrite H.
Qed.

Lemma finishRuns_of_nonzero (commitsPerMonth total : Q) :
  ~ total == 0 ->
  finishRuns commitsPerMonth total = Num.max 1 (Num.ceil total).
Proof.
  intros H. unfold finishRuns, Num.isZero.
  destruct (Qeq_bool total 0) eqn:E; [|reflexivity].
  apply Qeq_bool_iff in E. contradiction.
Qed.

Lemma finishRuns_at_least_one (commitsPerMonth total : Q) :
  1 <= finishRuns commitsPerMonth total.
Proof. unfold finishRuns. apply max_ge_left. Qed.

(** The estimate as a function of the monthly commits is monotone. *)
Lemma finishRuns_monotone
  (pushes pulls : bool) (factor fixed x y : Q) :
  0 < factor -> 0 <= fixed -> x <= y ->
  finishRuns x ((if pushes then x else 0)
                + (if pulls then Num.ceil (x * factor) else 0) + fixed)
  <= finishRuns y ((if pushes then y else 0)
                   + (if pulls then Num.ceil (y * factor) else 0) + fixed).
Proof.
  intros Hfactor Hfixed Hxy.
  set (tx := (if pushes then x else 0)
             + (if pulls then Num.ceil (x * factor) else 0) + fixed).
  set (ty := (if pushes then y else 0)
             + (if pulls then Num.ceil (y * factor) else 0) + fixed).
  assert (Hmono : tx <= ty).
  { unfold tx, ty. apply Qplus_le_l. apply Qplus_le_compat.
    - destruct pushes; [exact Hxy|apply Qle_refl].
    - destruct pulls; [|apply Qle_refl]. apply ceil_monotone.
      apply Qmult_le_compat_r; [exact Hxy|now apply Qlt_le_weak]. }
  destruct (Qeq_dec tx 0) as [Zx|Nx].
  - rewrite (finishRuns_of_zero _ _ Zx).
    destruct (Qlt_le_dec 0 x) as [Hpos|Hneg].
    + assert (Hp : 0 < Num.ceil (x * factor)).
      { apply ceil_positive. setoid_replace 0 with (0 * factor) by ring.
        now apply Qmult_lt_compat_r. }
      assert (Hflags : pushes = false /\ pulls = false).
      { unfold tx in Zx. destruct pushes, pulls; auto; exfalso.
        - apply (Qlt_irrefl 0). rewrite <- Zx at 2.
          setoid_replace 0 with (0 + 0 + 0) at 1 by ring.
          apply Qplus_lt_le_compat; [|exact Hfixed].
          apply Qplus_lt_le_compat; [exact Hpos|now apply Qlt_le_weak].
        - apply (Qlt_irrefl 0). rewrite <- Zx at 2.
          setoid_replace 0 with (0 + 0 + 0) at 1 by ring.
          apply Qplus_lt_le_compat; [|exact Hfixed].
          apply Qplus_lt_le_compat; [exact Hpos|apply Qle_refl].
        - apply (Qlt_irrefl 0). rewrite <- Zx at 2.
          setoid_replace 0 with (0 + 0 + 0) at 1 by ring.
          apply Qplus_lt_le_compat; [|exact Hfixed].
          setoid_replace (0 + Num.ceil (x * factor))
            with (Num.ceil (x * factor) + 0) by ring.
          apply Qplus_lt_le_compat; [exact Hp|apply Qle_refl]. }
      destruct Hflags as [-> ->].
      assert (Zy : ty == 0) by (unfold ty; unfold tx in Zx; exact Zx).
      rewrite (finishRuns_of_zero _ _ Zy).
      apply max_monotone, ceil_monotone, Hxy.
    + rewrite (max_one_of_nonpositive _ (ceil_nonpositive _ Hneg)).
      apply finishRuns_at_least_one.
  - rewrite (finishRuns_of_nonzero _ _ Nx).
    destruct (Qeq_dec ty 0) as [Zy|Ny].
    + rewrite (max_one_of_nonpositive (Num.ceil tx)).
      * apply finishRuns_at_least_one.
      * apply ceil_nonpositive. now rewrite <- Zy.
    + rewrite (finishRuns_of_nonzero _ _ Ny).
      apply max_monotone, ceil_monotone, Hmono.
Qed.

Lemma runsFromTriggers_closed
  (triggers : list (string * value)) (commitsPerDay : Q) (options : Options) :
  exists f,
    triggerFlags triggers = Some f
    /\ runsFromTriggers triggers commitsPerDay options
       = Some (finishRuns (Num.ceil (commitsPerDay * DAYS_PER_MONTH))
                 ((if hasCommitPush f
                   then Num.ceil (commitsPerDay * DAYS_PER_MONTH) else 0)
                  + (if hasPullRequest f
                     then Num.ceil
                            (Num.ceil (commitsPerDay * DAYS_PER_MONTH)
                             * orDefault (optPullRequestFactor options)
                                 DEFAULT_PULL_REQUEST_FACTOR)
                     else 0)
                  + cadenceFreeRuns f triggers
                      (orDefault (optManualRunsPerMonth options)
                         DEFAULT_MANUAL_RUNS_PER_MONTH)
                      (orDefault (optReleaseRunsPerMonth options)
                         DEFAULT_RELEASE_RUNS_PER_MONTH))).
Proof.
  destruct (triggerFlags_total triggers) as [f Hf]. exists f.
  split; [exact Hf|]. unfold runsFromTriggers. rewrite Hf.
  match goal with
  | |- context [sumRuns f triggers ?c ?p ?m ?r] =>
      destruct (sumRuns_closed f triggers c p m r) as [total [-> Htotal]]
  end.
  now rewrite (finishRuns_compat _ _ _ Htotal).
Qed.

(** X5. With tuning values that are not negative, a higher commit cadence
    never lowers the estimate of a workflow. *)
Theorem more_commits_never_lower_the_estimate
  (workflow : value) (commitsPerDay commitsPerDay' : Q) (options : Options) :
  notNegative (optPullRequestFactor options) ->
  notNegative (optManualRunsPerMonth options) ->
  notNegative (optReleaseRunsPerMonth options) ->
  commitsPerDay <= commitsPerDay' ->
  exists r r',
    estimateWorkflowRunsPerMonth workflow commitsPerDay options = Some r
    /\ estimateWorkflowRunsPerMonth workflow commitsPerDay' options = Some r'
    /\ r <= r'.
Proof.
  intros Hfactor Hmanual Hrelease Hle.
  unfold estimateWorkflowRunsPerMonth.
  destruct (workflowTriggers_total workflow) as [triggers ->].
  destruct (runsFromTriggers_closed triggers commitsPerDay options)
    as [f [Hf ->]].
  destruct (runsFromTriggers_closed triggers commitsPerDay' options)
    as [f' [Hf' ->]].
  rewrite Hf in Hf'. injection Hf' as <-.
  eexists. eexists. split; [reflexivity|]. split; [reflexivity|].
  apply finishRuns_monotone.
  - apply orDefault_positive; [exact Hfactor|reflexivity].
  - apply cadenceFreeRuns_nonneg; apply Qlt_le_weak;
      apply orDefault_positive; try assumption; reflexivity.
  - apply ceil_monotone.
    apply Qmult_le_compat_r; [exact Hle|discriminate].
Qed.

Lemma more_commits_never_lower_the_estimate_witness :
  exists r r',
    estimateWorkflowRunsPerMonth
      (VObj [("on", VArr [VStr "push"; VStr "pull_request"])]) (1 # 2) noOptions
    = Some r
    /\ estimateWorkflowRunsPerMonth
         (VObj [("on", VArr [VStr "push"; VStr "pull_request"])]) 3 noOptions
       = Some r'
    /\ r <= r'.
Proof.
  apply more_commits_never_lower_the_estimate; simpl; try exact I.
  discriminate.
Defined.

Lemma triggerFlags_without_push (triggers : list (string * value)) :
  Val.hasOwn triggers "push" = false ->
  triggerFlags triggers
  = Some {| hasCommitPush := false;
            hasPullRequest := Val.hasOwn triggers "pull_request";
            hasSchedule := Val.hasOwn triggers "schedule";
            hasTagPush := false;
            hasRelease := Val.hasOwn triggers "release";
            hasCreate := Val.hasOwn triggers "create";
            hasWorkflowDispatch := Val.hasOwn triggers "workflow_dispatch" |}.
Proof.
  intros H. unfold triggerFlags, pushIsTagOnly. rewrite H. reflexivity.
Qed.

(** X6. A workflow none of whose triggers is recognised is costed like a
    workflow that runs on every push: once per commit of the month, and at
    least once. *)
Theorem unrecognised_triggers_fall_back_to_commits
  (workflow : value) (triggers : list (string * value))
  (commitsPerDay : Q) (options : Options) :
  workflowTriggers workflow = Some triggers ->
  noKnownTrigger triggers = true ->
  exists r,
    estimateWorkflowRunsPerMonth workflow commitsPerDay options = Some r
    /\ r == Num.max 1 (Num.ceil (commitsPerDay * DAYS_PER_MONTH))
    /\ estimateWorkflowRunsPerMonth (VObj [("on", VStr "push")])
         commitsPerDay options = Some r.
Proof.
  intros Htriggers Hnone. unfold noKnownTrigger in Hnone.
  repeat (apply andb_prop in Hnone; destruct Hnone as [Hnone ?]).
  repeat match goal with
         | H : negb _ = true |- _ => apply negb_true_iff in H
         end.
  exists (Num.max 1 (Num.ceil (Num.ceil (commitsPerDay * DAYS_PER_MONTH)))).
  split; [|split].
  - unfold estimateWorkflowRunsPerMonth. rewrite Htriggers.
    unfold runsFromTriggers.
    rewrite (triggerFlags_without_push _ Hnone).
    unfold sumRuns. cbn [hasCommitPush hasPullRequest hasSchedule hasTagPush
                         hasRelease hasCreate hasWorkflowDispatch].
    repeat match goal with
           | H : Val.hasOwn _ _ = false |- _ => rewrite H; clear H
           end.
    reflexivity.
  - change (Num.ceil (commitsPerDay * DAYS_PER_MONTH))
      with (inject_Z (Qceiling (commitsPerDay * DAYS_PER_MONTH))) at 1.
    rewrite ceil_of_Z. reflexivity.
  - unfold estimateWorkflowRunsPerMonth, runsFromTriggers.
    cbn -[Num.ceil Num.max Qmult DAYS_PER_MONTH finishRuns orDefault Qplus].
    f_equal. unfold finishRuns.
    destruct (Num.isZero _); [reflexivity|].
    f_equal. apply ceil_compat. ring.
Qed.

Lemma unrecognised_triggers_fall_back_to_commits_witness :
  exists r,
    estimateWorkflowRunsPerMonth (VObj [("on", VStr "workflow_call")])
      2 noOptions = Some r
    /\ r == Num.max 1 (Num.ceil (2 * DAYS_PER_MONTH))
    /\ estimateWorkflowRunsPerMonth (VObj [("on", VStr "push")]) 2 noOptions
       = Some r.
Proof.
  apply (unrecognised_triggers_fall_back_to_commits
           (VObj [("on", VStr "workflow_call")]) [("workflow_call", VBool true)]);
    reflexivity.
Defined.

Lemma orDefault_nonzero (x : option Q) (fallback : Q) :
  ~ fallback == 0 -> ~ orDefault x fallback == 0.
Proof.
  intros Hf. unfold orDefault. destruct x as [q|]; [|exact Hf].
  unfold Num.isZero. destruct (Qeq_bool q 0) eqn:E; [exact Hf|].
  intros Hq. apply Qeq_bool_iff in Hq. congruence.
Qed.

(** X7. A workflow that can only be started by hand is estimated from the
    manual-runs setting alone, whatever the commit cadence. *)
Theorem manual_only_workflow_ignores_commits
  (workflow : value) (triggers : list (string * value))
  (commitsPerDay : Q) (options : Options) :
  workflowTriggers workflow = Some triggers ->
  onlyManualTrigger triggers = true ->
  exists r,
    estimateWorkflowRunsPerMonth workflow commitsPerDay options = Some r
    /\ r == Num.max 1
              (Num.ceil (orDefault (optManualRunsPerMonth options)
                           DEFAULT_MANUAL_RUNS_PER_MONTH)).
Proof.
  intros Htriggers Honly. unfold onlyManualTrigger in Honly.
  repeat (apply andb_prop in Honly; destruct Honly as [Honly ?]).
  repeat match goal with
         | H : negb _ = true |- _ => apply negb_true_iff in H
         end.
  unfold estimateWorkflowRunsPerMonth. rewrite Htriggers.
  unfold runsFromTriggers.
  match goal with
  | H : Val.hasOwn triggers "push" = false |- _ =>
      rewrite (triggerFlags_without_push _ H)
  end.
  unfold sumRuns. cbn [hasCommitPush hasPullRequest hasSchedule hasTagPush
                       hasRelease hasCreate hasWorkflowDispatch].
  repeat match goal with
         | H : Val.hasOwn _ _ = _ |- _ => rewrite H; clear H
         end.
  cbn [negb andb orb].
  eexists. split; [reflexivity|].
  rewrite finishRuns_of_nonzero.
  - rewrite (ceil_compat _ (orDefault (optManualRunsPerMonth options)
                              DEFAULT_MANUAL_RUNS_PER_MONTH)) by ring.
    reflexivity.
  - intros Hz. apply (orDefault_nonzero (optManualRunsPerMonth options)
                        DEFAULT_MANUAL_RUNS_PER_MONTH); [discriminate|].
    rewrite <- Hz. ring.
Qed.

Lemma manual_only_workflow_ignores_commits_witness :
  exists r,
    estimateWorkflowRunsPerMonth
      (VObj [("on", VObj [("workflow_dispatch", VNull)])]) 25
      (mkOptions None (Some (5 # 2)) None) = Some r
    /\ r == Num.max 1 (Num.ceil (orDefault (Some (5 # 2))
                                   DEFAULT_MANUAL_RUNS_PER_MONTH)).
Proof.
  apply (manual_only_workflow_ignores_commits
           (VObj [("on", VObj [("workflow_dispatch", VNull)])])
           [("workflow_dispatch", VNull)]);
    reflexivity.
Defined.

(** ** Trigger normalisation *)

Lemma hasOwn_assign (props : list (string * value)) (k key : string) (v : value) :
  Val.hasOwn (Val.assign props k v) key
  = String.eqb k key || Val.hasOwn props key.
Proof.
  induction props as [|[k0 old] rest IH]; simpl.
  - now rewrite orb_false_r.
  - destruct (String.eqb k0 k) eqn:E; simpl.
    + apply String.eqb_eq in E. subst k0.
      now destruct (String.eqb k key).
    + rewrite IH. now destruct (String.eqb k0 key), (String.eqb k key).
Qed.

Lemma allTrue_assign (props : list (string * value)) (k : string) :
  allTrue props -> allTrue (Val.assign props k (VBool true)).
Proof.
  unfold allTrue. induction 1 as [|[k0 old] rest Hhead Htail IH]; simpl.
  - now constructor.
  - destruct (String.eqb k0 k); constructor; auto.
Qed.

Lemma lookup_allTrue (props : list (string * value)) (key : string) :
  allTrue props ->
  Val.lookup props key
  = if Val.hasOwn props key then VBool true else VUndefined.
Proof.
  unfold allTrue. induction 1 as [|[k0 old] rest Hhead Htail IH]; simpl.
  - reflexivity.
  - simpl in Hhead. subst old. destruct (String.eqb k0 key); [reflexivity|].
    exact IH.
Qed.

Lemma normalize_list_fold (items : list value) (acc : list (string * value)) :
  allTrue acc ->
  let result :=
    fold_left
      (fun acc eventName =>
         match eventName with
         | VStr s => Val.assign acc s (VBool true)
         | _ => acc
         end)
      items acc in
  allTrue result
  /\ forall key,
       Val.hasOwn result key
       = Val.hasOwn acc key || existsb (isEvent key) items.
Proof.
  revert acc. induction items as [|item rest IH]; intros acc Hacc; simpl.
  - split; [exact Hacc|]. intros key. now rewrite orb_false_r.
  - destruct item;
      try (destruct (IH acc Hacc) as [Hall Hown]; split; [exact Hall|];
           intros key; rewrite Hown; reflexivity).
    destruct (IH _ (allTrue_assign acc s Hacc)) as [Hall Hown].
    split; [exact Hall|]. intros key. rewrite Hown, hasOwn_assign.
    cbn [isEvent].
    now destruct (String.eqb s key), (Val.hasOwn acc key).
Qed.

Lemma normalize_list (items : list value) :
  allTrue (normalizeTriggers (VArr items))
  /\ forall key,
       Val.hasOwn (normalizeTriggers (VArr items)) key
       = existsb (isEvent key) items.
Proof.
  destruct (normalize_list_fold items [] (Forall_nil _)) as [Hall Hown].
  split; [exact Hall|]. intros key. exact (Hown key).
Qed.

Lemma isEvent_in (key : string) (items : list value) :
  existsb (isEvent key) items = true <-> In (VStr key) items.
Proof.
  rewrite existsb_exists. split.
  - intros [x [Hin Hx]]. destruct x; try discriminate.
    simpl in Hx. apply String.eqb_eq in Hx. now subst.
  - intros Hin. exists (VStr key). split; [exact Hin|].
    simpl. apply String.eqb_refl.
Qed.

(** The estimate reads a trigger object whose properties are all [true]
    through [hasOwnProperty] alone. *)
Lemma runsFromTriggers_same_events
  (triggers triggers' : list (string * value)) (commitsPerDay : Q)
  (options : Options) :
  allTrue triggers -> allTrue triggers' ->
  (forall key, Val.hasOwn triggers key = Val.hasOwn triggers' key) ->
  runsFromTriggers triggers commitsPerDay options
  = runsFromTriggers triggers' commitsPerDay options.
Proof.
  intros Hall Hall' Hsame.
  unfold runsFromTriggers, triggerFlags, pushIsTagOnly, sumRuns.
  cbn [hasCommitPush hasPullRequest hasSchedule hasTagPush
       hasRelease hasCreate hasWorkflowDispatch].
  rewrite !(lookup_allTrue triggers), !(lookup_allTrue triggers') by assumption.
  rewrite !Hsame. reflexivity.
Qed.

(** X8. When [on] is a list of event names, the estimate depends only on
    which names occur in it: their order and repetitions, and elements that
    are not strings, change nothing. *)
Theorem event_list_order_and_repeats_do_not_matter
  (workflow workflow' : value) (events events' : list value)
  (commitsPerDay : Q) (options : Options) :
  Val.prop workflow "on" = Some (VArr events) ->
  Val.prop workflow' "on" = Some (VArr events') ->
  (forall s, In (VStr s) events <-> In (VStr s) events') ->
  estimateWorkflowRunsPerMonth workflow commitsPerDay options
  = estimateWorkflowRunsPerMonth workflow' commitsPerDay options.
Proof.
  intros Hon Hon' Hsame.
  assert (Hw : Val.truthy workflow = true)
    by (destruct workflow; try discriminate; reflexivity).
  assert (Hw' : Val.truthy workflow' = true)
    by (destruct workflow'; try discriminate; reflexivity).
  unfold estimateWorkflowRunsPerMonth, workflowTriggers.
  rewrite Hw, Hw', Hon, Hon'.
  destruct (normalize_list events) as [Hall Hown].
  destruct (normalize_list events') as [Hall' Hown'].
  apply runsFromTriggers_same_events; try assumption.
  intros key. rewrite Hown, Hown'.
  destruct (existsb (isEvent key) events) eqn:E;
    destruct (existsb (isEvent key) events') eqn:E'; try reflexivity.
  - apply isEvent_in, Hsame, isEvent_in in E. congruence.
  - apply isEvent_in, Hsame, isEvent_in in E'. congruence.
Qed.

Lemma event_list_order_and_repeats_do_not_matter_witness :
  estimateWorkflowRunsPerMonth
    (VObj [("on", VArr [VStr "push"; VStr "schedule"; VNum 7; VStr "push"])])
    2 noOptions
  = estimateWorkflowRunsPerMonth
      (VObj [("name", VStr "ci"); ("on", VArr [VStr "schedule"; VStr "push"])])
      2 noOptions.
Proof.
  apply (event_list_order_and_repeats_do_not_matter
           _ _ [VStr "push"; VStr "schedule"; VNum 7; VStr "push"]
           [VStr "schedule"; VStr "push"]);
    try reflexivity.
  intros s. simpl. split; intros H;
    repeat match goal with
           | H : _ \/ _ |- _ => destruct H as [H|H]
           end;
    try discriminate; try contradiction; auto.
Defined.

(** ** Duration estimate *)

Lemma integer_mult (x y : Q) : isInteger x -> isInteger y -> isInteger (x * y).
Proof.
  intros [a Ha] [b Hb]. exists (a * b)%Z. rewrite Ha, Hb, inject_Z_mult.
  reflexivity.
Qed.

Lemma integer_ofNat (n : nat) : isInteger (Num.ofNat n).
Proof. exists (Z.of_nat n). reflexivity. Qed.

Lemma integer_min (x y : Q) : isInteger x -> isInteger y -> isInteger (Num.min x y).
Proof.
  intros Hx Hy. unfold Num.min.
  destruct (Q.min_spec x y) as [[_ E]|[_ E]];
    eapply integer_compat; try (symmetry; exact E); assumption.
Qed.

Lemma ceil_of_integer (x : Q) : isInteger x -> Num.ceil x == x.
Proof.
  intros [z Hz]. rewrite (ceil_compat _ _ Hz), ceil_of_Z. now symmetry.
Qed.

Lemma ofNat_nonneg (n : nat) : 0 <= Num.ofNat n.
Proof.
  unfold Num.ofNat. change 0 with (inject_Z 0). rewrite <- Zle_Qle. lia.
Qed.

Lemma stepMinutes_range (step : value) (m : Q) :
  stepMinutes step = Some m -> 1 <= m /\ isInteger m.
Proof.
  unfold stepMinutes. destruct (Val.prop step "name") as [stepName|]; [|discriminate].
  destruct (Val.truthy stepName).
  - destruct stepName; try discriminate.
    repeat match goal with
           | |- context [if ?c then _ else _] => destruct c
           end;
      intros E; injection E as <-;
      (split; [discriminate|]).
    + now exists 10%Z.
    + now exists 5%Z.
    + now exists 3%Z.
    + now exists 2%Z.
    + now exists 1%Z.
  - intros E. injection E as <-. split; [apply Qle_refl|now exists 1%Z].
Qed.

Lemma addStepMinutes_range (steps : list value) (acc r : Q) :
  addStepMinutes acc steps = Some r ->
  acc <= r /\ (isInteger acc -> isInteger r).
Proof.
  revert acc. induction steps as [|step rest IH]; intros acc; simpl.
  - intros E. injection E as <-. split; [apply Qle_refl|auto].
  - destruct (stepMinutes step) as [m|] eqn:Hstep; [|discriminate].
    intros Hrest. destruct (stepMinutes_range _ _ Hstep) as [Hm Hint].
    destruct (IH _ Hrest) as [Hle Hkeep]. split.
    + apply Qle_trans with (acc + m); [|exact Hle].
      rewrite <- (Qplus_0_r acc) at 1. apply Qplus_le_r.
      apply Qle_trans with 1; [discriminate|exact Hm].
    + intros Hacc. apply Hkeep. now apply integer_plus.
Qed.

Lemma matrixFold_range (axes : list value) (size : Q) :
  0 <= size -> isInteger size ->
  let result :=
    fold_left
      (fun size values =>
         match values with
         | VArr items => size * Num.ofNat (length items)
         | _ => size
         end)
      axes size in
  0 <= result /\ isInteger result.
Proof.
  revert size. induction axes as [|axis rest IH]; intros size Hpos Hint; simpl.
  - now split.
  - destruct axis; try (now apply IH).
    apply IH.
    + apply Qmult_le_0_compat; [exact Hpos|apply ofNat_nonneg].
    + apply integer_mult; [exact Hint|apply integer_ofNat].
Qed.

Lemma calculateMatrixSize_range (matrix : value) :
  0 <= calculateMatrixSize matrix /\ isInteger (calculateMatrixSize matrix).
Proof.
  apply matrixFold_range; [discriminate|now exists 1%Z].
Qed.

Lemma matrixFactor_range (job : value) :
  0 <= matrixFactor job /\ isInteger (matrixFactor job).
Proof.
  assert (One : 0 <= 1 /\ isInteger 1) by (split; [discriminate|now exists 1%Z]).
  unfold matrixFactor.
  destruct (Val.prop job "strategy") as [strategy|]; [|exact One].
  destruct (Val.truthy strategy); [|exact One].
  destruct (Val.prop strategy "matrix") as [matrix|]; [|exact One].
  destruct (Val.truthy matrix); [|exact One].
  apply calculateMatrixSize_range.
Qed.

(** The minutes of a job are its capped base, between 5 and 60, times the
    factor of its matrix. *)
Lemma jobMinutes_factor (job : value) (m : Q) :
  jobMinutes job = Some m ->
  exists base,
    5 <= base /\ base <= 60 /\ isInteger base
    /\ m == base * matrixFactor job.
Proof.
  unfold jobMinutes, matrixFactor.
  destruct (Val.prop job "steps") as [steps|]; [|discriminate].
  assert (Hbase :
            forall base,
              match steps with
              | VArr items =>
                  m <- addStepMinutes 5 items ;; Some (Num.min m 60)
              | _ => Some 5
              end = Some base ->
              5 <= base /\ base <= 60 /\ isInteger base).
  { intros base. destruct steps;
      try (intros E; injection E as <-;
           repeat split; try discriminate; now exists 5%Z).
    destruct (addStepMinutes 5 items) as [total|] eqn:Hsteps; [|discriminate].
    intros E. injection E as <-.
    destruct (addStepMinutes_range _ _ _ Hsteps) as [Hle Hint].
    unfold Num.min. repeat split.
    - apply Q.min_glb; [exact Hle|discriminate].
    - apply Q.le_min_r.
    - apply integer_min; [apply Hint; now exists 5%Z|now exists 60%Z]. }
  destruct (match steps with
            | VArr items => m <- addStepMinutes 5 items ;; Some (Num.min m 60)
            | _ => Some 5
            end) as [base|]; [|discriminate].
  destruct (Hbase base eq_refl) as [Hlow [Hhigh Hint]].
  destruct (Val.prop job "strategy") as [strategy|]; [|discriminate].
  destruct (Val.truthy strategy).
  - destruct (Val.prop strategy "matrix") as [matrix|]; [|discriminate].
    destruct (Val.truthy matrix); intros E; injection E as <-;
      exists base; repeat split; try assumption; try reflexivity.
    now rewrite Qmult_1_r.
  - intros E. injection E as <-. exists base.
    repeat split; try assumption. now rewrite Qmult_1_r.
Qed.

Lemma addJobMinutes_range (jobs : list value) (acc r : Q) :
  addJobMinutes acc jobs = Some r ->
  acc + 5 * sumQ (map matrixFactor jobs) <= r
  /\ r <= acc + 60 * sumQ (map matrixFactor jobs)
  /\ (isInteger acc -> isInteger r).
Proof.
  revert acc. induction jobs as [|job rest IH]; intros acc; simpl.
  - intros E. injection E as <-. unfold sumQ. simpl.
    repeat split; auto; rewrite Qmult_0_r, Qplus_0_r; apply Qle_refl.
  - destruct (jobMinutes job) as [m|] eqn:Hjob; [|discriminate].
    intros Hrest.
    destruct (jobMinutes_factor _ _ Hjob) as [base [Hlow [Hhigh [Hint Hm]]]].
    destruct (matrixFactor_range job) as [Hpos Hfactor].
    destruct (IH _ Hrest) as [Hle [Hge Hkeep]].
    change (sumQ (matrixFactor job :: map matrixFactor rest))
      with (matrixFactor job + sumQ (map matrixFactor rest)).
    repeat split.
    + apply Qle_trans with (acc + m + 5 * sumQ (map matrixFactor rest));
        [|exact Hle].
      rewrite Hm.
      setoid_replace (acc + 5 * (matrixFactor job + sumQ (map matrixFactor rest)))
        with (acc + 5 * matrixFactor job + 5 * sumQ (map matrixFactor rest))
        by ring.
      apply Qplus_le_l, Qplus_le_r. now apply Qmult_le_compat_r.
    + apply Qle_trans with (acc + m + 60 * sumQ (map matrixFactor rest));
        [exact Hge|].
      rewrite Hm.
      setoid_replace (acc + 60 * (matrixFactor job + sumQ (map matrixFactor rest)))
        with (acc + 60 * matrixFactor job + 60 * sumQ (map matrixFactor rest))
        by ring.
      apply Qplus_le_l, Qplus_le_r. now apply Qmult_le_compat_r.
    + intros Hacc. apply Hkeep. apply integer_plus; [exact Hacc|].
      eapply integer_compat; [symmetry; exact Hm|].
      now apply integer_mult.
Qed.

(** X9. The duration estimate is a whole number of minutes, and every job
    contributes between 5 and 60 minutes for each combination of its
    matrix. *)
Theorem duration_within_job_bounds (workflow jobs : value) (d : Q) :
  Val.prop workflow "jobs" = Some jobs ->
  Val.truthy jobs = true ->
  estimateWorkflowDuration workflow = Some d ->
  isInteger d
  /\ 5 * sumQ (map matrixFactor (Val.values jobs)) <= d
  /\ d <= 60 * sumQ (map matrixFactor (Val.values jobs)).
Proof.
  intros Hjobs Htruthy. unfold estimateWorkflowDuration.
  rewrite Hjobs, Htruthy. cbn [negb].
  destruct (addJobMinutes 0 (Val.values jobs)) as [total|] eqn:Htotal;
    [|discriminate].
  intros E. injection E as <-.
  destruct (addJobMinutes_range _ _ _ Htotal) as [Hle [Hge Hint]].
  assert (Hwhole : isInteger total) by (apply Hint; now exists 0%Z).
  split; [apply ceil_integer|].
  rewrite (ceil_of_integer _ Hwhole).
  rewrite Qplus_0_l in Hle, Hge. now split.
Qed.

Lemma duration_within_job_bounds_witness :
  isInteger 41
  /\ 5 * sumQ (map matrixFactor
                 (Val.values
                    (VObj [("test",
                            VObj [("steps", VArr [installStep; testStep]);
                                  ("strategy",
                                   VObj [("matrix",
                                          VObj [("node",
                                                 VArr [VStr "18"; VStr "20"])])])]);
                           ("lint", VObj [("steps", VArr [installStep])])])))
     <= 41
  /\ 41 <= 60 * sumQ (map matrixFactor
                        (Val.values
                           (VObj [("test",
                                   VObj [("steps", VArr [installStep; testStep]);
                                         ("strategy",
                                          VObj [("matrix",
                                                 VObj [("node",
                                                        VArr [VStr "18"; VStr "20"])])])]);
                                  ("lint", VObj [("steps", VArr [installStep])])]))).
Proof.
  apply (duration_within_job_bounds
           (VObj [("jobs",
                   VObj [("test",
                          VObj [("steps", VArr [installStep; testStep]);
                                ("strategy",
                                 VObj [("matrix",
                                        VObj [("node",
                                               VArr [VStr "18"; VStr "20"])])])]);
                         ("lint", VObj [("steps", VArr [installStep])])])]));
    reflexivity.
Defined.

(** ** Monthly cost *)

Lemma fold_sum_sumQ {A : Type} (f : A -> Q) (l : list A) :
  fold_left (fun sum x => sum + f x) l 0 == sumQ (map f l).
Proof.
  induction l as [|x l IH].
  - reflexivity.
  - cbn [fold_left map]. rewrite fold_sum_shift, IH. unfold sumQ. simpl. ring.
Qed.

Lemma enrich_spec (commitsPerDay : Q) (options : Options) (wf : Workflow) :
  exists e,
    enrich commitsPerDay options wf = Some e
    /\ source e = wf
    /\ 1 <= wfRunsPerMonth e
    /\ wfMinutesPerMonth e
       = Num.ceil (estimatedDuration wf * wfRunsPerMonth e).
Proof.
  unfold enrich.
  destruct (estimateWorkflowRunsPerMonth_total
              (if Val.truthy (parsed wf) then parsed wf else recordObject wf)
              commitsPerDay options) as [runs [-> Hruns]].
  eexists. split; [reflexivity|]. cbn. auto.
Qed.

Lemma mapM_enrich_spec
  (commitsPerDay : Q) (options : Options) (workflows : list Workflow) :
  exists es,
    mapM (enrich commitsPerDay options) workflows = Some es
    /\ map source es = workflows
    /\ Forall (fun e => 1 <= wfRunsPerMonth e
                        /\ wfMinutesPerMonth e
                           = Num.ceil (estimatedDuration (source e)
                                       * wfRunsPerMonth e)) es.
Proof.
  induction workflows as [|wf rest [es [Hes [Hsrc Hall]]]]; simpl.
  - exists []. repeat split. constructor.
  - destruct (enrich_spec commitsPerDay options wf) as [e [-> [He [Hruns Hmin]]]].
    rewrite Hes. exists (e :: es). repeat split.
    + simpl. now rewrite He, Hsrc.
    + constructor; [|exact Hall]. rewrite He. auto.
Qed.

(** X10. The cost report is produced for any list of workflow records; its
    breakdown has one row per record, in order, with the record's name and
    duration, at least one run, and the minutes rounded up from duration
    times runs; the monthly total is the sum of the rows, and the daily
    figures are a thirtieth of the monthly ones. *)
Theorem monthly_costs_itemised
  (workflows : list Workflow) (commitsPerDay : Q) (options : Options) :
  exists report,
    calculateMonthlyCosts workflows commitsPerDay options = Some report
    /\ map rowName (breakdown report) = map name workflows
    /\ map rowMinutesPerRun (breakdown report) = map estimatedDuration workflows
    /\ Forall (fun row =>
                 1 <= rowRunsPerMonth row
                 /\ rowMinutesPerMonth row
                    = Num.ceil (rowMinutesPerRun row * rowRunsPerMonth row))
         (breakdown report)
    /\ totalMinutesPerMonth report
       == sumQ (map rowMinutesPerMonth (breakdown report))
    /\ minutesPerDay report * DAYS_PER_MONTH == totalMinutesPerMonth report
    /\ workflowRunsPerDay report * DAYS_PER_MONTH
       == sumQ (map rowRunsPerMonth (breakdown report)).
Proof.
  unfold calculateMonthlyCosts.
  destruct (mapM_enrich_spec commitsPerDay options workflows)
    as [es [-> [Hsrc Hall]]].
  eexists. split; [reflexivity|].
  unfold costReport.
  cbn [breakdown totalMinutesPerMonth minutesPerDay workflowRunsPerDay].
  rewrite !map_map. cbn [rowName rowMinutesPerRun rowRunsPerMonth rowMinutesPerMonth].
  repeat split.
  - now rewrite <- Hsrc, map_map.
  - now rewrite <- Hsrc, map_map.
  - apply Forall_map. cbn [rowRunsPerMonth rowMinutesPerMonth rowMinutesPerRun].
    exact Hall.
  - apply fold_sum_sumQ.
  - unfold DAYS_PER_MONTH. field.
  - rewrite <- fold_sum_sumQ. unfold DAYS_PER_MONTH. field.
Qed.

(** X11. The flags and overages of a cost report agree with each other:
    within the target budget implies within the stretch budget, that implies
    within the free tier, and that within the team tier; a tier is within
    its limit exactly when its overage is 0, otherwise the total is the
    limit plus the overage; the team overage never exceeds the free one, and
    each cost is the overage times 0.008. *)
Theorem cost_report_is_consistent
  (workflows : list Workflow) (commitsPerDay : Q) (options : Options)
  (report : CostReport) :
  calculateMonthlyCosts workflows commitsPerDay options = Some report ->
  (withinTarget (budgets report) = true -> withinStretch (budgets report) = true)
  /\ (withinStretch (budgets report) = true ->
      withinLimit (freeTier report) = true)
  /\ (withinLimit (freeTier report) = true ->
      withinLimit (teamTier report) = true)
  /\ (withinLimit (freeTier report) = true <-> overage (freeTier report) == 0)
  /\ (withinLimit (teamTier report) = true <-> overage (teamTier report) == 0)
  /\ (withinLimit (freeTier report) = false ->
      totalMinutesPerMonth report
      == limit (freeTier report) + overage (freeTier report))
  /\ (withinLimit (teamTier report) = false ->
      totalMinutesPerMonth report
      == limit (teamTier report) + overage (teamTier report))
  /\ overage (teamTier report) <= overage (freeTier report)
  /\ cost (freeTier report) == overage (freeTier report) * (8 # 1000)
  /\ cost (teamTier report) == overage (teamTier report) * (8 # 1000).
Proof.
  unfold calculateMonthlyCosts.
  destruct (mapM (enrich commitsPerDay options) workflows) as [es|];
    [|discriminate].
  intros E. injection E as <-. unfold costReport.
  cbn [budgets freeTier teamTier withinTarget withinStretch withinLimit
       overage limit cost totalMinutesPerMonth].
  set (total := fold_left (fun total wf => total + wfMinutesPerMonth wf) es 0).
  assert (Hover :
            forall bound,
              (Num.le total bound = true <-> Num.max 0 (total - bound) == 0)
              /\ (Num.le total bound = false ->
                  total == bound + Num.max 0 (total - bound))).
  { intros bound. unfold Num.max. split; [split|].
    - intros H. apply le_true in H. apply Q.max_l.
      setoid_replace 0 with (bound - bound) by ring.
      apply Qplus_le_l. exact H.
    - intros H. apply le_true.
      assert (Hle : total - bound <= 0)
        by (rewrite <- H; apply Q.le_max_r).
      apply Qle_trans with (total - bound + bound);
        [apply Qle_lteq; right; ring|].
      apply Qle_trans with (0 + bound); [now apply Qplus_le_l|].
      rewrite Qplus_0_l. apply Qle_refl.
    - intros H. apply le_false in H. rewrite Q.max_r; [ring|].
      setoid_replace 0 with (bound - bound) by ring.
      apply Qplus_le_l. now apply Qlt_le_weak. }
  repeat split.
  - intros H. apply le_true in H. apply le_true.
    apply Qle_trans with 1000; [exact H|discriminate].
  - intros H. apply le_true in H. apply le_true.
    apply Qle_trans with 1500; [exact H|discriminate].
  - intros H. apply le_true in H. apply le_true.
    apply Qle_trans with 2000; [exact H|discriminate].
  - apply (Hover 2000).
  - apply (Hover 2000).
  - apply (Hover 3000).
  - apply (Hover 3000).
  - apply (Hover 2000).
  - apply (Hover 3000).
  - unfold Num.max. apply Q.max_le_compat_l.
    apply Qplus_le_r. discriminate.
Qed.

Lemma cost_report_is_consistent_witness :
  exists report,
    calculateMonthlyCosts [ciWorkflow; pushStringWorkflow] 2 noOptions
    = Some report
    /\ withinLimit (freeTier report) = false
    /\ totalMinutesPerMonth report
       == limit (freeTier report) + overage (freeTier report)
    /\ overage (teamTier report) <= overage (freeTier report).
Proof.
  eexists. split; [reflexivity|]. split; [reflexivity|].
  pose proof (cost_report_is_consistent
                [ciWorkflow; pushStringWorkflow] 2 noOptions _ eq_refl)
    as [_ [_ [_ [_ [_ [Hfree [_ [Hteam _]]]]]]]].
  split; [apply Hfree; reflexivity|exact Hteam].
Defined.

(** ** Optimization recommendations *)

Lemma detectMissingCaching_shape
  (workflowName jobName : string) (job : value) (runs : Q)
  (l : list Recommendation) (r : Recommendation) :
  1 <= runs ->
  detectMissingCaching workflowName jobName job runs = Some l ->
  In r l -> wellFormed r /\ workflow r = workflowName.
Proof.
  intros Hruns. unfold detectMissingCaching.
  destruct (Val.prop job "steps") as [steps|]; [|discriminate].
  destruct steps; try (intros E; injection E as <-; contradiction).
  destruct (Val.some usesCache items) as [hasCaching|]; [|discriminate].
  destruct (Val.some runsInstall items) as [hasInstall|]; [|discriminate].
  destruct (hasInstall && negb hasCaching);
    intros E; injection E as <-; [|contradiction].
  intros [<-|[]]. split; [|reflexivity].
  split; [apply ceil_integer|]. cbn.
  repeat split; try discriminate.
  apply Qle_trans with (3 * runs); [|apply ceil_ge].
  setoid_replace 3 with (3 * 1) at 1 by ring.
  apply Qmult_le_l; [reflexivity|exact Hruns].
Qed.

Lemma detectLargeMatrix_shape
  (wf : Workflow) (jobName : string) (job : value) (runs : Q)
  (l : list Recommendation) (r : Recommendation) :
  detectLargeMatrix wf jobName job runs = Some l ->
  In r l -> wellFormed r /\ workflow r = name wf.
Proof.
  unfold detectLargeMatrix.
  destruct (Val.prop job "strategy") as [strategy|]; [|discriminate].
  destruct (Val.truthy strategy);
    [|intros E; injection E as <-; contradiction].
  destruct (Val.prop strategy "matrix") as [matrix|]; [|discriminate].
  destruct (Val.truthy matrix);
    [|intros E; injection E as <-; contradiction].
  destruct (Num.le 6 (calculateMatrixSize matrix));
    intros E; injection E as <-; [|contradiction].
  intros [<-|[]]. split; [|reflexivity].
  split; [apply ceil_integer|]. cbn.
  repeat split; try discriminate; try apply ceil_integer.
  now destruct (Num.le 9 (calculateMatrixSize matrix)).
Qed.

Lemma jobRecommendations_shape
  (wf : Workflow) (runs : Q) (jobs : list (string * value))
  (l : list Recommendation) (r : Recommendation) :
  1 <= runs ->
  jobRecommendations wf runs jobs = Some l ->
  In r l -> wellFormed r /\ workflow r = name wf.
Proof.
  intros Hruns. revert l. induction jobs as [|[jobName job] rest IH]; simpl.
  - intros l E. injection E as <-. contradiction.
  - intros l.
    destruct (detectMissingCaching (name wf) jobName job runs) as [caching|] eqn:Hc;
      [|discriminate].
    destruct (detectLargeMatrix wf jobName job runs) as [matrix|] eqn:Hm;
      [|discriminate].
    destruct (jobRecommendations wf runs rest) as [others|]; [|discriminate].
    intros E. injection E as <-. intros Hin.
    apply in_app_or in Hin. destruct Hin as [Hin|Hin].
    + exact (detectMissingCaching_shape _ _ _ _ _ _ Hruns Hc Hin).
    + apply in_app_or in Hin. destruct Hin as [Hin|Hin].
      * exact (detectLargeMatrix_shape _ _ _ _ _ _ Hm Hin).
      * exact (IH _ eq_refl Hin).
Qed.

Lemma frequencyAdvice_shape
  (wf : Workflow) (triggers : list (string * value))
  (l : list Recommendation) (r : Recommendation) :
  frequencyAdvice wf triggers = Some l ->
  In r l -> wellFormed r /\ workflow r = name wf.
Proof.
  unfold frequencyAdvice.
  destruct (if Val.hasOwn triggers "schedule"
            then estimateScheduleRunsPerMonth (Val.lookup triggers "schedule")
            else Some 0) as [scheduledRuns|]; [|discriminate].
  intros E. injection E as <-. intros Hin.
  apply in_app_or in Hin. destruct Hin as [Hin|Hin].
  - destruct (Num.le 20 scheduledRuns); [|contradiction].
    destruct Hin as [<-|[]]. split; [|reflexivity].
    split; [apply ceil_integer|]. cbn.
    destruct (Num.lt 500 _) eqn:Hhigh;
      repeat split; try discriminate.
    intros _. now apply lt_true.
  - destruct (Num.le 4 scheduledRuns && Num.lt scheduledRuns 20);
      [|contradiction].
    destruct (Num.lt 50 _) eqn:Hlow; [|contradiction].
    destruct Hin as [<-|[]]. split; [|reflexivity].
    split; [apply ceil_integer|]. cbn.
    repeat split; try discriminate.
    intros _. now apply lt_true.
Qed.

Lemma detectHighFrequency_shape
  (wf : Workflow) (document : value)
  (l : list Recommendation) (r : Recommendation) :
  detectHighFrequency wf document = Some l ->
  In r l -> wellFormed r /\ workflow r = name wf.
Proof.
  unfold detectHighFrequency.
  destruct (Val.prop document "on") as [onConfig|]; [|discriminate].
  destruct (Val.truthy onConfig).
  - apply frequencyAdvice_shape.
  - intros E. injection E as <-. contradiction.
Qed.

Lemma detectMissingPathFilters_shape
  (wf : Workflow) (document : value) (runs : Q)
  (l : list Recommendation) (r : Recommendation) :
  detectMissingPathFilters wf document runs = Some l ->
  In r l -> wellFormed r /\ workflow r = name wf.
Proof.
  unfold detectMissingPathFilters.
  destruct (Val.prop document "on") as [onConfig|]; [|discriminate].
  destruct (Val.truthy onConfig && Val.isObjectType onConfig);
    [|intros E; injection E as <-; contradiction].
  destruct (Val.prop onConfig "push") as [push|]; [|discriminate].
  destruct (Val.prop onConfig "pull_request") as [pullRequest|]; [|discriminate].
  destruct (filtersPaths push) as [pushFilter|]; [|discriminate].
  destruct (if pushFilter then Some true else filtersPaths pullRequest)
    as [hasFilter|]; [|discriminate].
  destruct ((Val.truthy push || Val.truthy pullRequest) && negb hasFilter
            && negb (Str.includes "release" (name wf)));
    [|intros E; injection E as <-; contradiction].
  destruct (Num.lt 50 _) eqn:Hsavings;
    intros E; injection E as <-; [|contradiction].
  intros [<-|[]]. split; [|reflexivity].
  split; [apply ceil_integer|]. cbn.
  repeat split. now apply lt_true.
Qed.

(** X12. Every recommendation names one of the analysed workflows and has
    the form of its kind: whole minutes of savings; caching advice names a
    job, is of high priority, saves 3 minutes a run and at least 3 a month;
    matrix advice names a job and is never of low priority; schedule advice
    names no job, is of low priority only above 50 and of high priority
    only above 500 minutes of savings; path-filter advice names no job, is
    of medium priority and saves more than 50 minutes. *)
Theorem recommendations_are_well_formed
  (workflows : list Workflow) (commitsPerDay : Q)
  (recommendations : list Recommendation) :
  analyzeOptimizations workflows commitsPerDay = Some recommendations ->
  Forall (fun r =>
            wellFormed r
            /\ exists wf, In wf workflows /\ workflow r = name wf)
    recommendations.
Proof.
  intros Hrun.
  destruct (analyzeOptimizations_found _ _ _ Hrun) as [found [Hfound Hperm]].
  apply Forall_forall. intros r Hin.
  apply (Permutation_in _ (Permutation_sym Hperm)) in Hin.
  apply (collectRecommendations_in _ _ _ r Hfound) in Hin.
  destruct Hin as [wf [l [Hwf [Hl Hin]]]].
  assert (Hshape : wellFormed r /\ workflow r = name wf).
  { destruct (workflowRecommendations_inv _ _ _ Hl)
      as [runs [jobs [Hruns [_ [[_ ->]|[_ Hparts]]]]]]; [contradiction|].
    destruct Hparts as [perJob [frequency [conditional [Hj [Hf [Hc ->]]]]]].
    assert (Hone : 1 <= runs).
    { destruct (estimateWorkflowRunsPerMonth_total (parsed wf) commitsPerDay
                  noOptions) as [runs' [E Hge]].
      rewrite Hruns in E. injection E as <-. exact Hge. }
    apply in_app_or in Hin. destruct Hin as [Hin|Hin].
    - exact (jobRecommendations_shape _ _ _ _ _ Hone Hj Hin).
    - apply in_app_or in Hin. destruct Hin as [Hin|Hin].
      + exact (detectHighFrequency_shape _ _ _ _ Hf Hin).
      + exact (detectMissingPathFilters_shape _ _ _ _ _ Hc Hin). }
  destruct Hshape as [Hshape Hname].
  split; [exact Hshape|]. now exists wf.
Qed.

Lemma recommendations_are_well_formed_witness :
  Forall (fun r =>
            wellFormed r
            /\ exists wf, In wf [ciWorkflow] /\ workflow r = name wf)
    [mkRecommendation Conditional "ci.yml" None "Add path filters" 240 0 Medium;
     mkRecommendation Caching "ci.yml" (Some "test")
       "Add dependency caching" 180 3 High;
     mkRecommendation Caching "ci.yml" (Some "lint")
       "Add dependency caching" 180 3 High].
Proof.
  apply (recommendations_are_well_formed [ciWorkflow] 2). reflexivity.
Defined.

Lemma workflowRecommendations_without_jobs
  (commitsPerDay : Q) (wf : Workflow) (jobs : value) :
  Val.prop (parsed wf) "jobs" = Some jobs ->
  Val.truthy jobs = false ->
  workflowRecommendations commitsPerDay wf = Some [].
Proof.
  intros Hjobs Hfalsy. unfold workflowRecommendations.
  destruct (estimateWorkflowRunsPerMonth_total (parsed wf) commitsPerDay
              noOptions) as [runs [-> _]].
  now rewrite Hjobs, Hfalsy.
Qed.

(** X13. Workflows whose document has no jobs get no recommendation at all:
    their schedule and their path filters are not looked at either. *)
Theorem workflows_without_jobs_get_no_advice
  (workflows : list Workflow) (commitsPerDay : Q) :
  Forall (fun wf =>
            exists jobs,
              Val.prop (parsed wf) "jobs" = Some jobs
              /\ Val.truthy jobs = false)
    workflows ->
  analyzeOptimizations workflows commitsPerDay = Some [].
Proof.
  intros Hall. unfold analyzeOptimizations.
  assert (Hnone : collectRecommendations commitsPerDay workflows = Some []).
  { induction Hall as [|wf rest [jobs [Hjobs Hfalsy]] _ IH]; simpl.
    - reflexivity.
    - rewrite (workflowRecommendations_without_jobs _ _ _ Hjobs Hfalsy), IH.
      reflexivity. }
  now rewrite Hnone.
Qed.

Lemma workflows_without_jobs_get_no_advice_witness :
  analyzeOptimizations
    [mkWorkflow "nightly.yml" 100
       (VObj [("on",
               VObj [("push", VNull);
                     ("schedule", VArr [VObj [("cron", VStr "* * * * *")]])])])]
    5
  = Some [].
Proof.
  apply workflows_without_jobs_get_no_advice.
  repeat constructor. exists VUndefined. split; reflexivity.
Defined.

Lemma collectRecommendations_app
  (commitsPerDay : Q) (first second : list Workflow) :
  collectRecommendations commitsPerDay (first ++ second)
  = match collectRecommendations commitsPerDay first,
          collectRecommendations commitsPerDay second with
    | Some found, Some found' => Some (found ++ found')%list
    | _, _ => None
    end.
Proof.
  induction first as [|wf rest IH]; simpl.
  - now destruct (collectRecommendations commitsPerDay second).
  - destruct (workflowRecommendations commitsPerDay wf) as [here|];
      [|reflexivity].
    rewrite IH.
    destruct (collectRecommendations commitsPerDay rest) as [found|];
      [|reflexivity].
    destruct (collectRecommendations commitsPerDay second) as [found'|];
      [|reflexivity].
    now rewrite app_assoc.
Qed.

(** X14. Analysing two lists of workflows together gives the
    recommendations of the two analyses, in some order; and when one of the
    two analyses throws, so does the joint one. *)
Theorem analysis_of_joined_lists
  (first second : list Workflow) (commitsPerDay : Q) :
  match analyzeOptimizations first commitsPerDay,
        analyzeOptimizations second commitsPerDay with
  | Some found, Some found' =>
      exists recommendations,
        analyzeOptimizations (first ++ second) commitsPerDay
        = Some recommendations
        /\ Permutation recommendations (found ++ found')
  | _, _ => analyzeOptimizations (first ++ second) commitsPerDay = None
  end.
Proof.
  unfold analyzeOptimizations. rewrite collectRecommendations_app.
  destruct (collectRecommendations commitsPerDay first) as [found|];
    [|reflexivity].
  destruct (collectRecommendations commitsPerDay second) as [found'|];
    [|reflexivity].
  eexists. split; [reflexivity|].
  apply Permutation_trans with (found ++ found')%list.
  - apply Permutation_sym, sortBy_permutation.
  - apply Permutation_app; apply sortBy_permutation.
Qed.

Lemma detectMissingPathFilters_kind
  (wf : Workflow) (document : value) (runs : Q)
  (l : list Recommendation) (r : Recommendation) :
  detectMissingPathFilters wf document runs = Some l ->
  In r l -> recType r = Conditional.
Proof.
  unfold detectMissingPathFilters.
  destruct (Val.prop document "on") as [onConfig|]; [|discriminate].
  destruct (Val.truthy onConfig && Val.isObjectType onConfig);
    [|intros E; injection E as <-; contradiction].
  destruct (Val.prop onConfig "push") as [push|]; [|discriminate].
  destruct (Val.prop onConfig "pull_request") as [pullRequest|]; [|discriminate].
  destruct (filtersPaths push) as [pushFilter|]; [|discriminate].
  destruct (if pushFilter then Some true else filtersPaths pullRequest)
    as [hasFilter|]; [|discriminate].
  destruct ((Val.truthy push || Val.truthy pullRequest) && negb hasFilter
            && negb (Str.includes "release" (name wf)));
    [|intros E; injection E as <-; contradiction].
  destruct (Num.lt 50 _);
    intros E; injection E as <-; [|contradiction].
  now intros [<-|[]].
Qed.

(** X15. On workflows whose job map has the documented shape, the keys in
    any order and other keys beside them, the advice given for single jobs
    is exactly this: caching for each job that runs an install command and
    uses neither actions/cache nor actions/setup-node, and a smaller matrix
    for each job with 6 or more matrix combinations, of high priority from
    9 combinations on. *)
Theorem per_job_advice_on_documented_jobs
  (workflows : list Workflow) (commitsPerDay : Q)
  (recommendations : list Recommendation) (r : Recommendation) :
  Forall hasDocumentedShape workflows ->
  analyzeOptimizations workflows commitsPerDay = Some recommendations ->
  recType r = Caching \/ recType r = MatrixSize ->
  (In r recommendations <->
   exists wf jobsValue jobs runs,
     In wf workflows
     /\ Val.prop (parsed wf) "jobs" = Some jobsValue
     /\ readJobs jobsValue = Some jobs
     /\ estimateWorkflowRunsPerMonth (parsed wf) commitsPerDay noOptions
        = Some runs
     /\ In r (flat_map (jobAdvice wf runs) jobs)).
Proof.
  intros Hshape Hrun Hkind.
  destruct (analyzeOptimizations_found _ _ _ Hrun) as [found [Hfound Hperm]].
  assert (Hparts :
            forall wf l jobsValue jobs,
              workflowRecommendations commitsPerDay wf = Some l ->
              Val.prop (parsed wf) "jobs" = Some jobsValue ->
              readJobs jobsValue = Some jobs ->
              exists runs others,
                estimateWorkflowRunsPerMonth (parsed wf) commitsPerDay noOptions
                = Some runs
                /\ l = (flat_map (jobAdvice wf runs) jobs ++ others)%list
                /\ (In r others -> False)).
  { intros wf l jobsValue jobs Hl Hjobs Hread.
    destruct (workflowRecommendations_documented commitsPerDay wf _ _
                Hjobs Hread) as [runs [others [Hruns [Hall Hothers]]]].
    rewrite Hl in Hall. injection Hall as ->.
    exists runs, others. split; [exact Hruns|]. split; [reflexivity|].
    destruct Hothers as [->|[frequency [conditional [Hf [Hc ->]]]]];
      [now intros []|].
    intros Hin. apply in_app_or in Hin. destruct Hin as [Hin|Hin].
    - pose proof (detectHighFrequency_type _ _ _ _ Hf Hin) as Htype.
      destruct Hkind as [Hk|Hk]; congruence.
    - pose proof (detectMissingPathFilters_kind _ _ _ _ _ Hc Hin) as Htype.
      destruct Hkind as [Hk|Hk]; congruence. }
  split.
  - intros Hin.
    apply (Permutation_in _ (Permutation_sym Hperm)) in Hin.
    apply (collectRecommendations_in _ _ _ r Hfound) in Hin.
    destruct Hin as [wf [l [Hwf [Hl Hin]]]].
    pose proof (proj1 (Forall_forall _ _) Hshape wf Hwf)
      as [jobsValue [jobs [Hjobs Hread]]].
    destruct (Hparts _ _ _ _ Hl Hjobs Hread)
      as [runs [others [Hruns [-> Hothers]]]].
    exists wf, jobsValue, jobs, runs. repeat split; try assumption.
    apply in_app_or in Hin. destruct Hin as [Hin|Hin]; [exact Hin|].
    now destruct (Hothers Hin).
  - intros [wf [jobsValue [jobs [runs [Hwf [Hjobs [Hread [Hruns Hin]]]]]]]].
    apply (Permutation_in _ Hperm).
    destruct (collectRecommendations_each _ _ _ _ Hfound Hwf) as [l Hl].
    apply (collectRecommendations_in _ _ _ r Hfound).
    exists wf, l. repeat split; try assumption.
    destruct (Hparts _ _ _ _ Hl Hjobs Hread)
      as [runs' [others [Hruns' [-> _]]]].
    rewrite Hruns in Hruns'. injection Hruns' as <-.
    apply in_or_app. now left.
Qed.

Lemma per_job_advice_on_documented_jobs_witness :
  In (matrixAdvice oversizedMatrixWorkflow "test" 12 30)
    [mkRecommendation MatrixSize "ci.yml" (Some "test")
       "Reduce matrix size" 1500 50 High]
  <-> exists wf jobsValue jobs runs,
        In wf [oversizedMatrixWorkflow]
        /\ Val.prop (parsed wf) "jobs" = Some jobsValue
        /\ readJobs jobsValue = Some jobs
        /\ estimateWorkflowRunsPerMonth (parsed wf) 1 noOptions = Some runs
        /\ In (matrixAdvice oversizedMatrixWorkflow "test" 12 30)
             (flat_map (jobAdvice wf runs) jobs).
Proof.
  apply (per_job_advice_on_documented_jobs [oversizedMatrixWorkflow] 1).
  - repeat constructor. unfold hasDocumentedShape.
    eexists. eexists. split; reflexivity.
  - vm_compute. reflexivity.
  - right. reflexivity.
Defined.

Lemma prop_truthy_receiver (v x : value) (key : string) :
  Val.prop v key = Some x -> Val.truthy x = true -> Val.truthy v = true.
Proof.
  destruct v; simpl; try discriminate; try reflexivity;
    intros E; injection E as <-; discriminate.
Qed.

Lemma triggerFlags_schedule (triggers : list (string * value)) (f : TriggerFlags) :
  triggerFlags triggers = Some f ->
  hasSchedule f = Val.hasOwn triggers "schedule".
Proof.
  unfold triggerFlags. destruct (pushIsTagOnly triggers); [|discriminate].
  intros E. injection E as <-. reflexivity.
Qed.

Lemma cadenceFreeRuns_covers_schedule
  (f : TriggerFlags) (triggers : list (string * value))
  (manual release scheduled : Q) :
  hasSchedule f = true ->
  estimateScheduleRunsPerMonth (Val.lookup triggers "schedule") = Some scheduled ->
  0 <= manual -> 0 <= release ->
  scheduled <= cadenceFreeRuns f triggers manual release.
Proof.
  intros Hs Hrun Hm Hr. unfold cadenceFreeRuns. rewrite Hs, Hrun.
  destruct (hasTagPush f || hasRelease f || hasCreate f);
    destruct (hasWorkflowDispatch f && _ && _ && _ && _ && _ && _); lra.
Qed.

(** The estimate of a workflow covers the runs of its schedule. *)
Lemma runs_cover_schedule
  (document onConfig : value) (commitsPerDay runs scheduled : Q) :
  0 <= commitsPerDay ->
  Val.prop document "on" = Some onConfig ->
  Val.truthy onConfig = true ->
  Val.hasOwn (normalizeTriggers onConfig) "schedule" = true ->
  estimateScheduleRunsPerMonth
    (Val.lookup (normalizeTriggers onConfig) "schedule") = Some scheduled ->
  estimateWorkflowRunsPerMonth document commitsPerDay noOptions = Some runs ->
  scheduled <= runs.
Proof.
  intros Hcpd Hon Htruthy Hown Hsched.
  unfold estimateWorkflowRunsPerMonth, workflowTriggers.
  rewrite (prop_truthy_receiver _ _ _ Hon Htruthy), Hon.
  destruct (runsFromTriggers_closed (normalizeTriggers onConfig)
              commitsPerDay noOptions) as [f [Hf ->]].
  intros E. injection E as <-.
  pose proof (triggerFlags_schedule _ _ Hf) as Hflag. rewrite Hown in Hflag.
  cbn [noOptions optPullRequestFactor optManualRunsPerMonth
       optReleaseRunsPerMonth orDefault].
  set (cpm := Num.ceil (commitsPerDay * DAYS_PER_MONTH)).
  assert (Hcpm : 0 <= cpm).
  { apply Qle_trans with (commitsPerDay * DAYS_PER_MONTH); [|apply ceil_ge].
    unfold DAYS_PER_MONTH. lra. }
  assert (Hpr : 0 <= Num.ceil (cpm * DEFAULT_PULL_REQUEST_FACTOR)).
  { apply Qle_trans with (cpm * DEFAULT_PULL_REQUEST_FACTOR); [|apply ceil_ge].
    unfold DEFAULT_PULL_REQUEST_FACTOR. lra. }
  pose proof (cadenceFreeRuns_covers_schedule f _
                DEFAULT_MANUAL_RUNS_PER_MONTH DEFAULT_RELEASE_RUNS_PER_MONTH
                scheduled Hflag Hsched) as Hcover.
  assert (Hk : scheduled
               <= cadenceFreeRuns f (normalizeTriggers onConfig)
                    DEFAULT_MANUAL_RUNS_PER_MONTH DEFAULT_RELEASE_RUNS_PER_MONTH)
    by (apply Hcover; discriminate).
  clear Hcover.
  set (K := cadenceFreeRuns f (normalizeTriggers onConfig)
              DEFAULT_MANUAL_RUNS_PER_MONTH DEFAULT_RELEASE_RUNS_PER_MONTH) in *.
  set (total := (if hasCommitPush f then cpm else 0)
                + (if hasPullRequest f
                   then Num.ceil (cpm * DEFAULT_PULL_REQUEST_FACTOR) else 0)
                + K).
  assert (Htotal : scheduled <= total).
  { unfold total. destruct (hasCommitPush f), (hasPullRequest f); lra. }
  unfold finishRuns. destruct (Num.isZero total) eqn:Hz.
  - apply Qeq_bool_iff in Hz.
    apply Qle_trans with 1; [|apply max_ge_left].
    rewrite Hz in Htotal. lra.
  - apply Qle_trans with (Num.ceil total); [|apply max_ge_right].
    apply Qle_trans with total; [exact Htotal|apply ceil_ge].
Qed.

Lemma frequencyAdvice_bound
  (wf : Workflow) (triggers : list (string * value))
  (l : list Recommendation) (r : Recommendation) :
  0 <= estimatedDuration wf ->
  frequencyAdvice wf triggers = Some l ->
  In r l ->
  exists scheduled,
    Val.hasOwn triggers "schedule" = true
    /\ estimateScheduleRunsPerMonth (Val.lookup triggers "schedule")
       = Some scheduled
    /\ potentialSavings r <= Num.ceil (estimatedDuration wf * scheduled).
Proof.
  intros Hd. unfold frequencyAdvice.
  destruct (Val.hasOwn triggers "schedule").
  - destruct (estimateScheduleRunsPerMonth (Val.lookup triggers "schedule"))
      as [scheduled|]; [|discriminate].
    intros E. injection E as <-. intros Hin.
    exists scheduled. split; [reflexivity|]. split; [reflexivity|].
    apply in_app_or in Hin. destruct Hin as [Hin|Hin].
    + destruct (Num.le 20 scheduled); [|contradiction].
      destruct Hin as [<-|[]]. cbn. apply ceil_monotone. nra.
    + destruct (Num.le 4 scheduled && Num.lt scheduled 20); [|contradiction].
      destruct (Num.lt 50 _); [|contradiction].
      destruct Hin as [<-|[]]. cbn. apply ceil_monotone. nra.
  - intros E. injection E as <-. intros Hin. now cbn in Hin.
Qed.

Lemma jobRecommendations_kind_bound
  (wf : Workflow) (runs : Q) (jobs : list (string * value))
  (l : list Recommendation) (r : Recommendation) :
  0 <= estimatedDuration wf -> 1 <= runs ->
  jobRecommendations wf runs jobs = Some l ->
  In r l ->
  recType r = Caching
  \/ potentialSavings r <= Num.ceil (estimatedDuration wf * runs).
Proof.
  intros Hd Hruns. revert l.
  induction jobs as [|[jobName job] rest IH]; simpl.
  - intros l E. injection E as <-. contradiction.
  - intros l.
    destruct (detectMissingCaching (name wf) jobName job runs) as [caching|] eqn:Hc;
      [|discriminate].
    destruct (detectLargeMatrix wf jobName job runs) as [matrix|] eqn:Hm;
      [|discriminate].
    destruct (jobRecommendations wf runs rest) as [others|]; [|discriminate].
    intros E. injection E as <-. intros Hin.
    apply in_app_or in Hin. destruct Hin as [Hin|Hin].
    + left. exact (detectMissingCaching_type _ _ _ _ _ _ Hc Hin).
    + apply in_app_or in Hin. destruct Hin as [Hin|Hin].
      * right. revert Hm Hin. unfold detectLargeMatrix.
        destruct (Val.prop job "strategy") as [strategy|]; [|discriminate].
        destruct (Val.truthy strategy);
          [|intros E; injection E as <-; contradiction].
        destruct (Val.prop strategy "matrix") as [m|]; [|discriminate].
        destruct (Val.truthy m);
          [|intros E; injection E as <-; contradiction].
        destruct (Num.le 6 (calculateMatrixSize m));
          intros E; injection E as <-; [|contradiction].
        intros [<-|[]]. cbn. apply ceil_monotone. nra.
      * exact (IH _ eq_refl Hin).
Qed.

(** Two rounded products with the double 0.2 stay below the exact product
    of duration and runs. *)
Lemma rounded_fifth_below (duration runs : Q) :
  0 <= duration -> 1 <= runs ->
  Binary64.times duration (Binary64.times runs (Binary64.literal (2 # 10)))
  <= duration * runs.
Proof.
  intros Hd Hruns. unfold Binary64.times.
  assert (Hfifth : 0 <= Binary64.literal (2 # 10)
                   /\ Binary64.literal (2 # 10) <= (21 # 100))
    by (split; vm_compute; discriminate).
  set (fifth := Binary64.literal (2 # 10)) in *. destruct Hfifth as [Hf0 Hf1].
  assert (Hinner0 : 0 <= runs * fifth) by nra.
  destruct (round_bounds _ Hinner0) as [Hwasted0 Hwasted].
  set (wasted := Binary64.round (runs * fifth)) in *.
  assert (Houter0 : 0 <= duration * wasted) by nra.
  destruct (round_bounds _ Houter0) as [_ Hsavings].
  apply Qle_trans with (duration * wasted * (1 + Binary64.unitRoundoff));
    [exact Hsavings|].
  unfold Binary64.unitRoundoff in *.
  assert (Hw : wasted <= runs * (22 # 100)) by nra.
  assert (Hprod : duration * wasted <= duration * (runs * (22 # 100))) by nra.
  nra.
Qed.

Lemma detectMissingPathFilters_bound
  (wf : Workflow) (document : value) (runs : Q)
  (l : list Recommendation) (r : Recommendation) :
  0 <= estimatedDuration wf -> 1 <= runs ->
  detectMissingPathFilters wf document runs = Some l ->
  In r l ->
  potentialSavings r <= Num.ceil (estimatedDuration wf * runs).
Proof.
  intros Hd Hruns. unfold detectMissingPathFilters.
  destruct (Val.prop document "on") as [onConfig|]; [|discriminate].
  destruct (Val.truthy onConfig && Val.isObjectType onConfig);
    [|intros E; injection E as <-; contradiction].
  destruct (Val.prop onConfig "push") as [push|]; [|discriminate].
  destruct (Val.prop onConfig "pull_request") as [pullRequest|]; [|discriminate].
  destruct (filtersPaths push) as [pushFilter|]; [|discriminate].
  destruct (if pushFilter then Some true else filtersPaths pullRequest)
    as [hasFilter|]; [|discriminate].
  destruct ((Val.truthy push || Val.truthy pullRequest) && negb hasFilter
            && negb (Str.includes "release" (name wf)));
    [|intros E; injection E as <-; contradiction].
  destruct (Num.lt 50 _);
    intros E; injection E as <-; [|contradiction].
  intros [<-|[]]. cbn [potentialSavings]. apply ceil_monotone.
  now apply rounded_fifth_below.
Qed.

(** X16. With a commit cadence and durations that are not negative, no
    recommendation other than caching advice promises to save more minutes
    a month than its workflow is estimated to use. *)
Theorem savings_never_exceed_usage
  (workflows : list Workflow) (commitsPerDay : Q)
  (recommendations : list Recommendation) (r : Recommendation) :
  0 <= commitsPerDay ->
  Forall (fun wf => 0 <= estimatedDuration wf) workflows ->
  analyzeOptimizations workflows commitsPerDay = Some recommendations ->
  In r recommendations ->
  recType r <> Caching ->
  exists wf runs,
    In wf workflows
    /\ workflow r = name wf
    /\ estimateWorkflowRunsPerMonth (parsed wf) commitsPerDay noOptions
       = Some runs
    /\ potentialSavings r <= Num.ceil (estimatedDuration wf * runs).
Proof.
  intros Hcpd Hdur Hrun Hin Hkind.
  destruct (analyzeOptimizations_found _ _ _ Hrun) as [found [Hfound Hperm]].
  apply (Permutation_in _ (Permutation_sym Hperm)) in Hin.
  apply (collectRecommendations_in _ _ _ r Hfound) in Hin.
  destruct Hin as [wf [l [Hwf [Hl Hin]]]].
  pose proof (proj1 (Forall_forall _ _) Hdur wf Hwf) as Hd.
  cbn beta in Hd.
  destruct (workflowRecommendations_inv _ _ _ Hl)
    as [runs [jobs [Hruns [_ [[_ ->]|[_ Hparts]]]]]]; [contradiction|].
  destruct Hparts as [perJob [frequency [conditional [Hj [Hf [Hc ->]]]]]].
  assert (Hone : 1 <= runs).
  { destruct (estimateWorkflowRunsPerMonth_total (parsed wf) commitsPerDay
                noOptions) as [runs' [E Hge]].
    rewrite Hruns in E. injection E as <-. exact Hge. }
  exists wf, runs. split; [exact Hwf|].
  apply in_app_or in Hin. destruct Hin as [Hin|Hin].
  - split; [exact (proj2 (jobRecommendations_shape _ _ _ _ _ Hone Hj Hin))|].
    split; [exact Hruns|].
    destruct (jobRecommendations_kind_bound _ _ _ _ _ Hd Hone Hj Hin)
      as [Hcaching|Hbound]; [contradiction|exact Hbound].
  - apply in_app_or in Hin. destruct Hin as [Hin|Hin].
    + split; [exact (proj2 (detectHighFrequency_shape _ _ _ _ Hf Hin))|].
      split; [exact Hruns|].
      revert Hf. unfold detectHighFrequency.
      destruct (Val.prop (parsed wf) "on") as [onConfig|] eqn:Hon;
        [|discriminate].
      destruct (Val.truthy onConfig) eqn:Htruthy;
        [|intros E; injection E as <-; contradiction].
      intros Hf.
      destruct (frequencyAdvice_bound _ _ _ _ Hd Hf Hin)
        as [scheduled [Hown [Hsched Hbound]]].
      apply Qle_trans with (Num.ceil (estimatedDuration wf * scheduled));
        [exact Hbound|].
      apply ceil_monotone.
      pose proof (runs_cover_schedule _ _ _ _ _ Hcpd Hon Htruthy Hown Hsched
                    Hruns).
      nra.
    + split; [exact (proj2 (detectMissingPathFilters_shape _ _ _ _ _ Hc Hin))|].
      split; [exact Hruns|].
      exact (detectMissingPathFilters_bound _ _ _ _ _ Hd Hone Hc Hin).
Qed.

Lemma savings_never_exceed_usage_witness :
  exists wf runs,
    In wf [ciWorkflow]
    /\ "ci.yml" = name wf
    /\ estimateWorkflowRunsPerMonth (parsed wf) 2 noOptions = Some runs
    /\ 240 <= Num.ceil (estimatedDuration wf * runs).
Proof.
  apply (savings_never_exceed_usage [ciWorkflow] 2
           [mkRecommendation Conditional "ci.yml" None "Add path filters"
              240 0 Medium;
            mkRecommendation Caching "ci.yml" (Some "test")
              "Add dependency caching" 180 3 High;
            mkRecommendation Caching "ci.yml" (Some "lint")
              "Add dependency caching" 180 3 High]
           (mkRecommendation Conditional "ci.yml" None "Add path filters"
              240 0 Medium)).
  - discriminate.
  - repeat constructor. discriminate.
  - reflexivity.
  - left. reflexivity.
  - discriminate.
Defined.

(** ** Commit frequency *)

Lemma trimStart_tidy (s t : string) :
  startsTidy s = true -> Str.trimStart (s ++ t) = (s ++ t)%string.
Proof.
  destruct s as [|c s]; [discriminate|]. simpl. intros H.
  apply negb_true_iff in H. now rewrite H.
Qed.

Lemma trimEnd_append (a b : string) :
  Str.isEmpty (Str.trimEnd b) = false ->
  Str.trimEnd (a ++ b) = (a ++ Str.trimEnd b)%string.
Proof.
  intros Hb. induction a as [|c a IH]; [reflexivity|].
  cbn [append Str.trimEnd]. rewrite IH.
  destruct a; cbn [append Str.isEmpty]; [rewrite Hb|];
    now rewrite andb_false_r.
Qed.

Lemma trimEnd_line (s : string) :
  endsTidy s = true ->
  Str.trimEnd (s ++ String lineFeed EmptyString) = s.
Proof.
  induction s as [|c s IH]; [discriminate|].
  destruct s as [|d s].
  - cbn. intros H. apply negb_true_iff in H. now rewrite H.
  - intros H. change (endsTidy (String d s) = true) in H.
    specialize (IH H).
    change (String c (String d s) ++ String lineFeed EmptyString)%string
      with (String c (String d s ++ String lineFeed EmptyString)).
    cbn [Str.trimEnd]. rewrite IH. cbn [Str.isEmpty].
    now rewrite andb_false_r.
Qed.

Lemma endsTidy_nonempty (s : string) : endsTidy s = true -> Str.isEmpty s = false.
Proof. now destruct s. Qed.

Lemma commitLine_inv (s : string) :
  commitLine s = true ->
  startsTidy s = true /\ endsTidy s = true /\ Str.hasChar lineFeed s = false.
Proof.
  unfold commitLine. intros H.
  apply andb_prop in H. destruct H as [H Hfeed].
  apply andb_prop in H. destruct H as [Hs He].
  apply negb_true_iff in Hfeed. auto.
Qed.

Lemma joinLines_nonempty (line : string) (rest : list string) :
  startsTidy line = true -> Str.isEmpty (joinLines (line :: rest)) = false.
Proof.
  destruct line; [discriminate|]. intros _. now destruct rest.
Qed.

Lemma trimEnd_logText (line : string) (rest : list string) :
  forallb commitLine (line :: rest) = true ->
  Str.trimEnd (logText (line :: rest)) = joinLines (line :: rest).
Proof.
  revert line. induction rest as [|next rest IH]; intros line Hall.
  - cbn in Hall. rewrite andb_true_r in Hall.
    destruct (commitLine_inv _ Hall) as [_ [He _]].
    exact (trimEnd_line _ He).
  - cbn [forallb] in Hall. apply andb_prop in Hall. destruct Hall as [_ Hrest].
    specialize (IH next Hrest).
    change (logText (line :: next :: rest))
      with (line ++ String lineFeed (logText (next :: rest)))%string.
    change (joinLines (line :: next :: rest))
      with (line ++ String lineFeed (joinLines (next :: rest)))%string.
    assert (Hnext : startsTidy next = true).
    { cbn [forallb] in Hrest. apply andb_prop in Hrest.
      now destruct (commitLine_inv _ (proj1 Hrest)). }
    assert (Htail : Str.trimEnd (String lineFeed (logText (next :: rest)))
                    = String lineFeed (joinLines (next :: rest))).
    { cbn [Str.trimEnd]. rewrite IH.
      now rewrite (joinLines_nonempty _ _ Hnext), andb_false_r. }
    rewrite trimEnd_append; now rewrite Htail.
Qed.

Lemma split_joinLines (line : string) (rest : list string) :
  forallb commitLine (line :: rest) = true ->
  Str.split lineFeed (joinLines (line :: rest)) = line :: rest.
Proof.
  revert line. induction rest as [|next rest IH]; intros line Hall.
  - cbn in Hall. rewrite andb_true_r in Hall.
    destruct (commitLine_inv _ Hall) as [_ [_ Hfeed]].
    exact (split_whole _ _ Hfeed).
  - cbn [forallb] in Hall. apply andb_prop in Hall.
    destruct Hall as [Hline Hrest].
    destruct (commitLine_inv _ Hline) as [_ [_ Hfeed]].
    change (joinLines (line :: next :: rest))
      with (line ++ String lineFeed (joinLines (next :: rest)))%string.
    unfold Str.split. rewrite splitAcc_append.
    rewrite (splitAcc_whole _ _ _ Hfeed).
    change (Str.splitAcc lineFeed EmptyString (joinLines (next :: rest)))
      with (Str.split lineFeed (joinLines (next :: rest))).
    now rewrite (IH next Hrest).
Qed.

(** X17. From a git log of one or more commit lines the commit count is the
    number of lines, and the daily rate is that count divided by the days,
    raised to one half when it is lower. *)
Theorem commit_frequency_counts_the_lines
  (line : string) (rest : list string) (days : Q) :
  forallb commitLine (line :: rest) = true ->
  ~ days == 0 ->
  let stats := getCommitFrequency (Some (logText (line :: rest))) days in
  statsTotalCommits stats = Num.ofNat (length (line :: rest))
  /\ statsCommitsPerDay stats
     == Num.max (Num.ofNat (length (line :: rest)) / days) (1 # 2)
  /\ 1 # 2 <= statsCommitsPerDay stats.
Proof.
  intros Hall _. unfold getCommitFrequency, Str.trim.
  assert (Hstart : startsTidy line = true).
  { cbn [forallb] in Hall. apply andb_prop in Hall.
    now destruct (commitLine_inv _ (proj1 Hall)). }
  change (logText (line :: rest))
    with (line ++ String lineFeed (logText rest))%string.
  rewrite (trimStart_tidy _ _ Hstart).
  change (line ++ String lineFeed (logText rest))%string
    with (logText (line :: rest)).
  rewrite (trimEnd_logText _ _ Hall), (joinLines_nonempty _ _ Hstart).
  rewrite (split_joinLines _ _ Hall).
  cbn [statsTotalCommits statsCommitsPerDay].
  split; [reflexivity|]. split; [reflexivity|].
  apply max_ge_right.
Qed.

Lemma commit_frequency_counts_the_lines_witness :
  let stats :=
    getCommitFrequency
      (Some (logText ["a1b2c3d Fix the parser"; "e4f5a6b Add tests";
                      "0c1d2e3 Initial commit"]))
      30 in
  statsTotalCommits stats = Num.ofNat 3
  /\ statsCommitsPerDay stats == Num.max (Num.ofNat 3 / 30) (1 # 2)
  /\ 1 # 2 <= statsCommitsPerDay stats.
Proof.
  apply (commit_frequency_counts_the_lines
           "a1b2c3d Fix the parser" ["e4f5a6b Add tests"; "0c1d2e3 Initial commit"]).
  - reflexivity.
  - discriminate.
Defined.

(** ** The command *)

Lemma parseWorkflows_documented
  (documents : string -> option value) (files : list string) :
  (forall file,
      In file files ->
      exists document jobsValue jobs,
        documents file = Some document
        /\ Val.prop document "jobs" = Some jobsValue
        /\ readJobs jobsValue = Some jobs) ->
  map name (parseWorkflows documents files) = files
  /\ Forall (fun wf =>
               exists jobsValue jobs,
                 documents (name wf) = Some (parsed wf)
                 /\ Val.prop (parsed wf) "jobs" = Some jobsValue
                 /\ readJobs jobsValue = Some jobs
                 /\ estimatedDuration wf == referenceDuration jobs)
       (parseWorkflows documents files).
Proof.
  induction files as [|file rest IH]; intros Hdocs.
  - split; [reflexivity|constructor].
  - destruct (Hdocs file (or_introl eq_refl))
      as [document [jobsValue [jobs [Hdoc [Hjobs Hread]]]]].
    destruct (estimateWorkflowDuration_documented _ _ _ Hjobs Hread)
      as [d [Hd Href]].
    destruct IH as [Hnames Hall];
      [intros f Hf; apply Hdocs; now right|].
    cbn [parseWorkflows]. rewrite Hdoc, Hd. split.
    + cbn [map name]. now rewrite Hnames.
    + constructor; [|exact Hall]. exists jobsValue, jobs. cbn. auto.
Qed.

(** X18. The command ends with exit code 1 when no workflow file is found.
    When every workflow file found holds a document whose job map has the
    documented shape (the keys in any order, other keys beside them), it
    ends with exit code 0, and the analysis it reports has one workflow
    record and one cost row per file, in the order of the directory
    listing, each record with the duration the reference estimate gives for
    its jobs. *)
Theorem command_succeeds_on_documented_workflows
  (listing : option (list string)) (documents : string -> option value)
  (gitLog : option string) :
  (discoverWorkflows listing = [] ->
   handleAnalyzeCi listing documents gitLog = (1%nat, None))
  /\ (discoverWorkflows listing <> [] ->
      (forall file,
          In file (discoverWorkflows listing) ->
          exists document jobsValue jobs,
            documents file = Some document
            /\ Val.prop document "jobs" = Some jobsValue
            /\ readJobs jobsValue = Some jobs) ->
      exists analysis,
        handleAnalyzeCi listing documents gitLog = (0%nat, Some analysis)
        /\ map name (analysedWorkflows analysis) = discoverWorkflows listing
        /\ map rowName (breakdown (costs analysis)) = discoverWorkflows listing
        /\ commitStats analysis = getCommitFrequency gitLog 30
        /\ Forall (fun wf =>
                     exists jobsValue jobs,
                       documents (name wf) = Some (parsed wf)
                       /\ Val.prop (parsed wf) "jobs" = Some jobsValue
                       /\ readJobs jobsValue = Some jobs
                       /\ estimatedDuration wf == referenceDuration jobs)
             (analysedWorkflows analysis)).
Proof.
  split.
  - intros Hnone. unfold handleAnalyzeCi. now rewrite Hnone.
  - intros Hsome Hdocs. unfold handleAnalyzeCi.
    destruct (discoverWorkflows listing) as [|file rest] eqn:Hfiles;
      [contradiction|].
    cbn [length Nat.eqb].
    destruct (parseWorkflows_documented documents (file :: rest) Hdocs)
      as [Hnames Hall].
    set (workflows := parseWorkflows documents (file :: rest)) in *.
    set (stats := getCommitFrequency gitLog 30).
    assert (Hshape : Forall hasDocumentedShape workflows).
    { apply Forall_forall. intros wf Hwf.
      pose proof (proj1 (Forall_forall _ _) Hall wf Hwf)
        as [jobsValue [jobs [_ [Hjobs [Hread _]]]]].
      now exists jobsValue, jobs. }
    destruct (analyzeOptimizations_returns workflows (statsCommitsPerDay stats)
                Hshape) as [found Hfound].
    destruct (mapM_enrich_spec (statsCommitsPerDay stats) noOptions workflows)
      as [es [Hes [Hsrc _]]].
    unfold calculateMonthlyCosts. rewrite Hes, Hfound.
    eexists. split; [reflexivity|].
    cbn [analysedWorkflows costs commitStats].
    repeat split; try assumption.
    unfold costReport. cbn [breakdown]. rewrite map_map. cbn [rowName].
    now rewrite <- Hnames, <- Hsrc, map_map.
Qed.

Lemma command_succeeds_on_documented_workflows_witness :
  exists analysis,
    handleAnalyzeCi (Some ["ci.yml"; "README.md"; "release.yaml"])
      (fun _ => Some minimalTestWorkflow)
      (Some (logText ["a1b2c3d Fix the parser"]))
    = (0%nat, Some analysis)
    /\ map name (analysedWorkflows analysis) = ["ci.yml"; "release.yaml"]
    /\ map rowName (breakdown (costs analysis)) = ["ci.yml"; "release.yaml"].
Proof.
  destruct (proj2 (command_succeeds_on_documented_workflows
                     (Some ["ci.yml"; "README.md"; "release.yaml"])
                     (fun _ => Some minimalTestWorkflow)
                     (Some (logText ["a1b2c3d Fix the parser"]))))
    as [analysis [Hrun [Hnames [Hrows _]]]].
  - discriminate.
  - intros file _. eexists. eexists. eexists.
    split; [reflexivity|]. split; reflexivity.
  - exists analysis. auto.
Defined.

(** * Properties of the maturity detection *)

Ltac nat_tests :=
  repeat match goal with
         | H : (_ =? _)%nat = true |- _ => apply Nat.eqb_eq in H
         | H : (_ =? _)%nat = false |- _ => apply Nat.eqb_neq in H
         | H : (_ <? _)%nat = true |- _ => apply Nat.ltb_lt in H
         | H : (_ <? _)%nat = false |- _ => apply Nat.ltb_ge in H
         | H : (_ <=? _)%nat = true |- _ => apply Nat.leb_le in H
         | H : (_ <=? _)%nat = false |- _ => apply Nat.leb_gt in H
         end.

Lemma detect_closed (thresholds : Thresholds) (stats : ProjectStats) :
  detect thresholds stats
  = if (totalSourceFiles stats =? 0)%nat then "minimal"
    else if (totalSourceFiles stats <? MIN_BOOTSTRAP_FILES thresholds)%nat
    then "bootstrap"
    else if ((MIN_PRODUCTION_TESTS thresholds <=? testFiles stats)%nat
             && (MIN_PRODUCTION_FILES thresholds <=? totalSourceFiles stats)%nat
             && (hasDocumentation stats || hasDependencies stats))
    then "production-ready"
    else "development".
Proof.
  unfold detect. cbv zeta.
  destruct (totalSourceFiles stats =? 0)%nat eqn:Hzero; [reflexivity|].
  destruct (totalSourceFiles stats <? MIN_BOOTSTRAP_FILES thresholds)%nat eqn:Hb;
    destruct (testFiles stats =? 0)%nat eqn:Hnone;
    destruct (0 <? testFiles stats)%nat eqn:Hsome;
    destruct (MIN_BOOTSTRAP_FILES thresholds <=? totalSourceFiles stats)%nat
      eqn:Hle;
    destruct (totalSourceFiles stats <? MIN_PRODUCTION_FILES thresholds)%nat
      eqn:Hlt;
    destruct (MIN_PRODUCTION_FILES thresholds <=? totalSourceFiles stats)%nat
      eqn:Hp;
    cbn [andb]; try reflexivity;
    try (exfalso; nat_tests; lia);
    now destruct (MIN_PRODUCTION_TESTS thresholds <=? testFiles stats)%nat.
Qed.

(** X19. The six-way decision of the detector comes down to this: no source
    file is minimal; fewer source files than the bootstrap threshold is
    bootstrap, with or without tests; production-ready takes the production
    thresholds of source and test files and documentation or dependencies;
    everything else is development, tests or not. *)
Theorem maturity_classification (thresholds : Thresholds) (stats : ProjectStats) :
  (detect thresholds stats = "minimal" <-> totalSourceFiles stats = 0%nat)
  /\ (detect thresholds stats = "bootstrap" <->
      (0 < totalSourceFiles stats < MIN_BOOTSTRAP_FILES thresholds)%nat)
  /\ (detect thresholds stats = "production-ready" <->
      (0 < totalSourceFiles stats)%nat
      /\ (MIN_BOOTSTRAP_FILES thresholds <= totalSourceFiles stats)%nat
      /\ (MIN_PRODUCTION_FILES thresholds <= totalSourceFiles stats)%nat
      /\ (MIN_PRODUCTION_TESTS thresholds <= testFiles stats)%nat
      /\ (hasDocumentation stats = true \/ hasDependencies stats = true))
  /\ (detect thresholds stats = "development" <->
      (0 < totalSourceFiles stats)%nat
      /\ (MIN_BOOTSTRAP_FILES thresholds <= totalSourceFiles stats)%nat
      /\ ~ ((MIN_PRODUCTION_FILES thresholds <= totalSourceFiles stats)%nat
            /\ (MIN_PRODUCTION_TESTS thresholds <= testFiles stats)%nat
            /\ (hasDocumentation stats = true \/ hasDependencies stats = true))).
Proof.
  rewrite detect_closed.
  destruct (totalSourceFiles stats =? 0)%nat eqn:Hzero.
  { apply Nat.eqb_eq in Hzero.
    repeat split; try discriminate; try (intros _; exact Hzero);
      intros; exfalso; lia. }
  apply Nat.eqb_neq in Hzero.
  destruct (totalSourceFiles stats <? MIN_BOOTSTRAP_FILES thresholds)%nat eqn:Hb.
  { apply Nat.ltb_lt in Hb.
    repeat split; try discriminate; try lia; intros; exfalso; lia. }
  apply Nat.ltb_ge in Hb.
  destruct ((MIN_PRODUCTION_TESTS thresholds <=? testFiles stats)%nat
            && (MIN_PRODUCTION_FILES thresholds <=? totalSourceFiles stats)%nat
            && (hasDocumentation stats || hasDependencies stats)) eqn:Hprod.
  - apply andb_prop in Hprod. destruct Hprod as [Hprod Hdocs].
    apply andb_prop in Hprod. destruct Hprod as [Ht Hp].
    apply Nat.leb_le in Ht. apply Nat.leb_le in Hp.
    apply orb_prop in Hdocs.
    repeat split; try discriminate; try lia; try assumption;
      try (intros; exfalso; lia).
    intros [_ [_ Hnot]]. exfalso. apply Hnot. auto.
  - repeat split; try discriminate; try lia; try (intros; exfalso; lia).
    + intros [_ [_ [Hp [Ht Hdocs]]]]. exfalso.
      apply Nat.leb_le in Hp. apply Nat.leb_le in Ht.
      rewrite Hp, Ht in Hprod. cbn [andb] in Hprod.
      destruct Hdocs as [Hd|Hd]; rewrite Hd in Hprod;
        [|rewrite orb_true_r in Hprod]; discriminate.
    + intros [Hp [Ht Hdocs]].
      apply Nat.leb_le in Hp. apply Nat.leb_le in Ht.
      rewrite Hp, Ht in Hprod. cbn [andb] in Hprod.
      destruct Hdocs as [Hd|Hd]; rewrite Hd in Hprod;
        [|rewrite orb_true_r in Hprod]; discriminate.
Qed.

Lemma rank_detect (thresholds : Thresholds) (stats : ProjectStats) :
  rank (detect thresholds stats)
  = if (totalSourceFiles stats =? 0)%nat then 0%nat
    else if (totalSourceFiles stats <? MIN_BOOTSTRAP_FILES thresholds)%nat
    then 1%nat
    else if ((MIN_PRODUCTION_TESTS thresholds <=? testFiles stats)%nat
             && (MIN_PRODUCTION_FILES thresholds <=? totalSourceFiles stats)%nat
             && (hasDocumentation stats || hasDependencies stats))
    then 3%nat
    else 2%nat.
Proof.
  rewrite detect_closed.
  repeat match goal with
         | |- context [if ?c then _ else _] => destruct c
         end; reflexivity.
Qed.

Lemma maturity_rank_grows
  (thresholds : Thresholds) (earlier later : ProjectStats) :
  grownFrom earlier later ->
  (rank (detect thresholds earlier) <= rank (detect thresholds later))%nat.
Proof.
  intros [Hfiles [Htests [Hdocs Hdeps]]]. rewrite !rank_detect.
  destruct (totalSourceFiles earlier =? 0)%nat eqn:Hz; [lia|].
  apply Nat.eqb_neq in Hz.
  destruct (totalSourceFiles later =? 0)%nat eqn:Hz'.
  { apply Nat.eqb_eq in Hz'. lia. }
  destruct (totalSourceFiles earlier <? MIN_BOOTSTRAP_FILES thresholds)%nat eqn:Hb.
  { repeat match goal with
           | |- context [if ?c then _ else _] => destruct c
           end; lia. }
  apply Nat.ltb_ge in Hb.
  destruct (totalSourceFiles later <? MIN_BOOTSTRAP_FILES thresholds)%nat eqn:Hb'.
  { apply Nat.ltb_lt in Hb'. lia. }
  destruct ((MIN_PRODUCTION_TESTS thresholds <=? testFiles earlier)%nat
            && (MIN_PRODUCTION_FILES thresholds <=? totalSourceFiles earlier)%nat
            && (hasDocumentation earlier || hasDependencies earlier)) eqn:Hprod.
  - apply andb_prop in Hprod. destruct Hprod as [Hprod Hd].
    apply andb_prop in Hprod. destruct Hprod as [Ht Hp].
    apply Nat.leb_le in Ht. apply Nat.leb_le in Hp.
    assert (Ht' : (MIN_PRODUCTION_TESTS thresholds <=? testFiles later)%nat = true)
      by (apply Nat.leb_le; lia).
    assert (Hp' : (MIN_PRODUCTION_FILES thresholds <=? totalSourceFiles later)%nat
                  = true) by (apply Nat.leb_le; lia).
    assert (Hd' : hasDocumentation later || hasDependencies later = true).
    { apply orb_prop in Hd. apply orb_true_iff.
      destruct Hd as [Hd|Hd]; [left; auto|right; auto]. }
    rewrite Ht', Hp', Hd'. cbn. lia.
  - match goal with
    | |- context [if ?c then _ else _] => destruct c
    end; lia.
Qed.

(** X20. A project that grows (more source files, more tests, documentation
    or dependencies added) never falls back to an earlier maturity level,
    whatever the thresholds. *)
Theorem maturity_never_drops
  (thresholds : Thresholds) (earlier later : ProjectStats) :
  grownFrom earlier later ->
  (rank (detect thresholds earlier) <= rank (detect thresholds later))%nat.
Proof. apply maturity_rank_grows. Qed.

Lemma maturity_never_drops_witness :
  (rank (detect (mkThresholds 3 10 3) (mkProjectStats 9 3 false true))
   <= rank (detect (mkThresholds 3 10 3) (mkProjectStats 10 3 false true)))%nat.
Proof.
  apply maturity_never_drops. unfold grownFrom. cbn. repeat split; auto.
Defined.

Lemma checks_by_rank (thresholds : Thresholds) (stats : ProjectStats) :
  getRecommendedChecks (detect thresholds stats)
  = match rank (detect thresholds stats) with
    | 0%nat => getRecommendedChecks "minimal"
    | 1%nat => getRecommendedChecks "bootstrap"
    | 2%nat => getRecommendedChecks "development"
    | _ => getRecommendedChecks "production-ready"
    end.
Proof.
  rewrite detect_closed.
  repeat match goal with
         | |- context [if ?c then _ else _] => destruct c
         end; reflexivity.
Qed.

(** X21. The checks recommended for a detected level never overlap: no
    check is at once required and optional, required and disabled, or
    optional and disabled; and when a project grows, every check that was
    required stays required and no check becomes disabled. *)
Theorem checks_grow_with_the_project
  (thresholds : Thresholds) (earlier later : ProjectStats) :
  grownFrom earlier later ->
  let before := getRecommendedChecks (detect thresholds earlier) in
  let after := getRecommendedChecks (detect thresholds later) in
  incl (required before) (required after)
  /\ incl (disabled after) (disabled before)
  /\ (forall check,
         In check (required after) ->
         ~ In check (optional after) /\ ~ In check (disabled after))
  /\ (forall check, In check (optional after) -> ~ In check (disabled after)).
Proof.
  intros Hgrown before after.
  pose proof (maturity_rank_grows thresholds earlier later Hgrown) as Hrank.
  subst before after. rewrite !checks_by_rank.
  destruct (rank (detect thresholds earlier)) as [|[|[|n]]];
    destruct (rank (detect thresholds later)) as [|[|[|m]]];
    try lia; clear Hrank;
    (split; [|split; [|split]]);
    cbn;
    try (intros check Hin; cbn in Hin; cbn; tauto);
    intros check Hin; cbn in Hin;
    repeat match goal with
           | H : _ \/ _ |- _ => destruct H as [H|H]
           end;
    try contradiction; subst;
    try (split; intros Hbad); try intros Hbad; cbn in Hbad;
    repeat match goal with
           | H : _ \/ _ |- _ => destruct H as [H|H]
           end;
    try contradiction; discriminate.
Qed.

Lemma checks_grow_with_the_project_witness :
  incl (required (getRecommendedChecks
                    (detect (mkThresholds 3 10 3) (mkProjectStats 2 0 false false))))
    (required (getRecommendedChecks
                 (detect (mkThresholds 3 10 3) (mkProjectStats 12 4 true false))))
  /\ incl (disabled (getRecommendedChecks
                       (detect (mkThresholds 3 10 3)
                          (mkProjectStats 12 4 true false))))
       (disabled (getRecommendedChecks
                    (detect (mkThresholds 3 10 3)
                       (mkProjectStats 2 0 false false)))).
Proof.
  assert (Hgrown : grownFrom (mkProjectStats 2 0 false false)
                     (mkProjectStats 12 4 true false)).
  { unfold grownFrom. cbn. repeat split; try lia; discriminate. }
  destruct (checks_grow_with_the_project (mkThresholds 3 10 3) _ _ Hgrown)
    as [Hrequired [Hdisabled _]].
  split; assumption.
Defined.

(** ** File counts *)

Lemma fold_count_sum {A : Type} (f : A -> nat) (l : list A) (acc : nat) :
  fold_left (fun count x => (count + f x)%nat) l acc
  = (acc + list_sum (map f l))%nat.
Proof.
  revert acc. induction l as [|x l IH]; intros acc; simpl.
  - lia.
  - rewrite IH. lia.
Qed.

(** Counts under four sets of filters that agree on the directories and on
    the depth, the first of which passes a file exactly when one of the
    three others does, and then only one of them. *)
Lemma countEntry_split (extname : string -> string)
  (whole part1 part2 part3 : CountOptions) :
  excludeDirs part1 = excludeDirs whole ->
  excludeDirs part2 = excludeDirs whole ->
  excludeDirs part3 = excludeDirs whole ->
  maxDepth part1 = maxDepth whole ->
  maxDepth part2 = maxDepth whole ->
  maxDepth part3 = maxDepth whole ->
  (forall fileName,
      Nat.b2n (passesFilters extname whole fileName)
      = (Nat.b2n (passesFilters extname part1 fileName)
         + Nat.b2n (passesFilters extname part2 fileName)
         + Nat.b2n (passesFilters extname part3 fileName))%nat) ->
  forall entry depth,
    countEntry extname whole depth entry
    = (countEntry extname part1 depth entry
       + countEntry extname part2 depth entry
       + countEntry extname part3 depth entry)%nat.
Proof.
  intros Hx1 Hx2 Hx3 Hd1 Hd2 Hd3 Hfile.
  fix IH 1. intros entry depth.
  destruct entry as [n|n contents|n|n]; cbn [countEntry].
  - reflexivity.
  - rewrite Hx1, Hx2, Hx3, Hd1, Hd2, Hd3.
    destruct (existsb (String.eqb n) (excludeDirs whole)); [reflexivity|].
    destruct (maxDepth whole <? S depth)%nat; [reflexivity|].
    destruct contents as [entries|]; [|reflexivity].
    rewrite !fold_count_sum. cbn [Nat.add].
    induction entries as [|e rest IHrest]; [reflexivity|].
    cbn [map list_sum fold_right]. fold (@list_sum) in *.
    change (fold_right Nat.add 0%nat) with list_sum.
    rewrite (IH e (S depth)). lia.
  - specialize (Hfile n).
    destruct (passesFilters extname whole n),
             (passesFilters extname part1 n),
             (passesFilters extname part2 n),
             (passesFilters extname part3 n); cbn in Hfile; cbn; lia.
  - reflexivity.
Qed.

Lemma source_filters_split (extname : string -> string)
  (excluded : list string) (fileName : string) :
  Nat.b2n (passesFilters extname
             (mkCountOptions sourceExtensions excluded [] [] 5) fileName)
  = (Nat.b2n (passesFilters extname
                (mkCountOptions sourceExtensions excluded []
                   [".test."; ".spec."; "__tests__"; "__mocks__"] 5) fileName)
     + Nat.b2n (passesFilters extname
                  (mkCountOptions sourceExtensions excluded
                     [".test."; ".spec."; "__tests__"] [] 5) fileName)
     + Nat.b2n (passesFilters extname
                  (mkCountOptions sourceExtensions excluded ["__mocks__"]
                     [".test."; ".spec."; "__tests__"] 5) fileName))%nat.
Proof.
  unfold passesFilters.
  cbn [extensions includePatterns excludePatterns length Nat.ltb Nat.leb
       andb existsb].
  destruct (negb (existsb (String.eqb (Str.toLowerCase (extname fileName)))
                    sourceExtensions)); [reflexivity|].
  destruct (Str.includes ".test." fileName),
           (Str.includes ".spec." fileName),
           (Str.includes "__tests__" fileName),
           (Str.includes "__mocks__" fileName); reflexivity.
Qed.

(** X22. No file is counted twice by the detector: the files with a source
    extension are the source files, the test files, and the mock files that
    are not tests, each counted once, whatever the directory tree, the
    excluded directories and the extension function. *)
Theorem source_and_test_counts_are_disjoint
  (extname : string -> string) (excluded : list string)
  (project : option (list DirEntry)) :
  countCodeFiles extname excluded project
  = (countSourceFiles extname excluded project
     + countTestFiles extname excluded project
     + countMockFiles extname excluded project)%nat.
Proof.
  unfold countCodeFiles, countSourceFiles, countTestFiles, countMockFiles,
    countFilesRecursive.
  cbn [maxDepth Nat.ltb Nat.leb].
  destruct project as [entries|]; [|reflexivity].
  rewrite !fold_count_sum. cbn [Nat.add].
  induction entries as [|entry rest IH]; [reflexivity|].
  cbn [map list_sum fold_right].
  change (fold_right Nat.add 0%nat) with list_sum.
  rewrite (countEntry_split extname
             (mkCountOptions sourceExtensions excluded [] [] 5)
             (mkCountOptions sourceExtensions excluded []
                [".test."; ".spec."; "__tests__"; "__mocks__"] 5)
             (mkCountOptions sourceExtensions excluded
                [".test."; ".spec."; "__tests__"] [] 5)
             (mkCountOptions sourceExtensions excluded ["__mocks__"]
                [".test."; ".spec."; "__tests__"] 5));
    try reflexivity.
  - lia.
  - apply source_filters_split.
Qed.
